(** * ASP solver base: a shallow embedding of [solverbase.py]

    The control algorithm of [SolverBase] (time-step adjustment, the theta
    time loop, checkpoint budgeting, the reverse tape walk, error-indicator
    assembly, cell marking and the adaptive loop) is embedded as Rocq
    functions.  Numbers are Python floats in the source.  Every function is
    written once, over the interface [PyFloat] of the Python operations the
    source uses, and is then read at two instances:

    - [Binary64]: IEEE-754 double precision, Rocq's primitive floats, with
      CPython's [divmod], [%], [int] and [round] on top; this is what the
      interpreter computes;
    - [Exact]: the same operations over the rationals, without rounding;
      this is the arithmetic in which the algorithm was designed.

    The interpreter is Python 3, the only one under which the module can
    be imported (it takes [getoutput] from [subprocess]): [/] is true
    division, [round] rounds a tie to the even integer, a [map] is an
    iterator without [[]], and the name [xrange] is not bound.

    Calls into DOLFIN / dolfin-adjoint and into the Problem object (solves,
    assembly, refinement, the adjoint tape) are the fields of the interface
    [Backend].  The solving methods come twice.  In the section [Solver]
    they are embedded without their calls of [update] (the progress report,
    which divides by [problem.T], and [Save]) and without the writes into
    files: these are the solves alone.  The module [Monitored] has the
    methods as the source has them, with every call of [update] and every
    write.  The solves alone cannot fail on [problem.T = 0]; what is stated
    of them is what does not depend on it (what a run that returns has
    computed, runs that reach no update with a time, runs that never
    return), and that a time-dependent solve returns is stated of
    [Monitored] only.  [file_naming], [set_options], [set_parameters] and
    the default options follow the solver. *)

From Stdlib Require Import String Ascii.
From Stdlib Require Import ZArith QArith Qround Qabs Lia Lqa List Bool.
From Stdlib Require Import Sorting.Permutation Sorting.Sorted.
From Stdlib Require Import Floats.PrimFloat Floats.SpecFloat Floats.FloatOps.
From Stdlib Require Import Floats.FloatAxioms.
From Stdlib Require Import DecimalString DecimalZ DecimalPos.
Import ListNotations.

Set Warnings "-inexact-float".

(** ** Python outcomes *)

(** The exceptions the embedded code can raise. *)
Inductive exn : Set :=
| ZeroDivisionError
| IndexError
| AssertionError
| ValueError
| OverflowError
| TypeError
| NameError.

(** A call returns a value, raises, or (for a [while] loop run on a fuel
    budget) has not finished when the budget is spent. *)
Inductive result (A : Type) : Type :=
| Return (a : A)
| Raise (e : exn)
| OutOfFuel.

Arguments Return {A} a.
Arguments Raise {A} e.
Arguments OutOfFuel {A}.

Definition bind {A B : Type} (c : result A) (k : A -> result B) : result B :=
  match c with
  | Return a => k a
  | Raise e => Raise e
  | OutOfFuel => OutOfFuel
  end.

Declare Scope py_scope.
Delimit Scope py_scope with py.
Notation "x <- c ;; k" := (bind c (fun x => k))
  (at level 61, c at next level, right associativity) : py_scope.
Notation "' p <- c ;; k" := (bind c (fun x => let p := x in k))
  (at level 61, p pattern, c at next level, right associativity) : py_scope.

(** [l[i]] on a Python list: a negative index counts from the end, an index
    out of range raises [IndexError]. *)
Definition getitem {A : Type} (l : list A) (i : Z) : result A :=
  let n := Z.of_nat (length l) in
  let j := if (i <? 0)%Z then (n + i)%Z else i in
  if ((j <? 0) || (n <=? j))%Z then Raise IndexError
  else match nth_error l (Z.to_nat j) with
       | Some a => Return a
       | None => Raise IndexError
       end.

(** ** The numeric interface *)

(** The operations of Python floats that [solverbase.py] uses.  [of_int] is
    the implicit conversion of an [int] operand; [truediv] is [/]; [pymod]
    is [%]; [int_] is [int(x)]; [round_] is [int(round(x))], with Python 3's
    rounding of a tie to the even integer; [DOLFIN_EPS] is DOLFIN's constant
    of that name ([3.0e-16] in its [constants.h]). *)
Class PyFloat (F : Type) : Type := {
  of_int : Z -> F;
  fadd : F -> F -> F;
  fsub : F -> F -> F;
  fmul : F -> F -> F;
  truediv : F -> F -> result F;
  divmod : F -> F -> result (F * F);
  pymod : F -> F -> result F;
  flt : F -> F -> bool;
  fle : F -> F -> bool;
  fabs : F -> F;
  int_ : F -> result Z;
  round_ : F -> result Z;
  DOLFIN_EPS : F
}.

Definition fgt {F} `{PyFloat F} (x y : F) : bool := flt y x.
Definition fge {F} `{PyFloat F} (x y : F) : bool := fle y x.

(** ** Exact arithmetic *)

Module Exact.

Local Open Scope Q_scope.

(** [int(x)]: truncation toward zero. *)
Definition Qtrunc (x : Q) : Z := Z.quot (Qnum x) (Zpos (Qden x)).

(** [round(x)]: to the nearest integer, a tie to the even one. *)
Definition Qround_even (x : Q) : Z :=
  let f := Qfloor x in
  match Qcompare (x - inject_Z f) (1 # 2) with
  | Lt => f
  | Gt => (f + 1)%Z
  | Eq => if Z.even f then f else (f + 1)%Z
  end.

Definition Qtruediv (x y : Q) : result Q :=
  if Qeq_bool y 0 then Raise ZeroDivisionError else Return (Qred (x / y)).

(** [divmod(x, y)]: the floor of the quotient and the remainder, which
    takes the sign of [y]. *)
Definition Qdivmod (x y : Q) : result (Q * Q) :=
  if Qeq_bool y 0 then Raise ZeroDivisionError
  else let d := inject_Z (Qfloor (x / y)) in
       Return (d, Qred (x - d * y)).

Definition Qpymod (x y : Q) : result Q :=
  if Qeq_bool y 0 then Raise ZeroDivisionError
  else Return (Qred (x - inject_Z (Qfloor (x / y)) * y)).

Definition Qltb (x y : Q) : bool := negb (Qle_bool y x).

#[global] Instance arith : PyFloat Q := {|
  of_int := inject_Z;
  fadd x y := Qred (x + y);
  fsub x y := Qred (x - y);
  fmul x y := Qred (x * y);
  truediv := Qtruediv;
  divmod := Qdivmod;
  pymod := Qpymod;
  flt := Qltb;
  fle := Qle_bool;
  fabs := Qabs;
  int_ x := Return (Qtrunc x);
  round_ x := Return (Qround_even x);
  DOLFIN_EPS := 3 # 10000000000000000
|}.

End Exact.

(** ** Binary64 arithmetic *)

Module Binary64.

(** [float(n)] for an integer: the nearest double, ties to even. *)
Definition float_of_Z (n : Z) : float :=
  SF2Prim (binary_normalize prec emax n 0 false).

(** C's [fmod]: the remainder of the magnitudes, computed without
    rounding, with the sign of [x]. *)
Definition fmod (x y : float) : float :=
  match Prim2SF x, Prim2SF y with
  | S754_nan, _ | _, S754_nan => nan
  | S754_infinity _, _ => nan
  | _, S754_zero _ => nan
  | S754_zero _, _ => x
  | S754_finite _ _ _, S754_infinity _ => x
  | S754_finite sx mx ex, S754_finite _ my ey =>
      let e := Z.min ex ey in
      let X := (Zpos mx * 2 ^ (ex - e))%Z in
      let Y := (Zpos my * 2 ^ (ey - e))%Z in
      SF2Prim (binary_normalize prec emax (cond_Zopp sx (X mod Y)) e sx)
  end.

(** C's [floor]. *)
Definition floor (x : float) : float :=
  match Prim2SF x with
  | S754_finite s m e =>
      if (0 <=? e)%Z then x
      else let p := (2 ^ (- e))%Z in
           let q := (Zpos m / p)%Z in
           if s then float_of_Z (- (if (Zpos m mod p =? 0)%Z then q else q + 1))
           else float_of_Z q
  | _ => x
  end.

(** [copysign(0.0, y)]. *)
Definition zero_with_sign_of (y : float) : float :=
  if get_sign y then neg_zero else zero.

Definition float_truediv (x y : float) : result float :=
  if (y =? 0)%float then Raise ZeroDivisionError else Return (x / y)%float.

(** CPython's [float_divmod] ([Objects/floatobject.c]). *)
Definition float_divmod (vx wx : float) : result (float * float) :=
  if (wx =? 0)%float then Raise ZeroDivisionError
  else
    let mod0 := fmod vx wx in
    let div0 := ((vx - mod0) / wx)%float in
    let '(mod1, div1) :=
      if negb (mod0 =? 0)%float then
        if negb (Bool.eqb (wx <? 0)%float (mod0 <? 0)%float)
        then ((mod0 + wx)%float, (div0 - 1)%float)
        else (mod0, div0)
      else (zero_with_sign_of wx, div0) in
    let floordiv :=
      if negb (div1 =? 0)%float then
        let fd := floor div1 in
        if (0.5 <? div1 - fd)%float then (fd + 1)%float else fd
      else zero_with_sign_of (vx / wx)%float in
    Return (floordiv, mod1).

(** CPython's [float_rem], the [%] operator. *)
Definition float_rem (vx wx : float) : result float :=
  if (wx =? 0)%float then Raise ZeroDivisionError
  else
    let mod0 := fmod vx wx in
    Return (if negb (mod0 =? 0)%float then
              if negb (Bool.eqb (wx <? 0)%float (mod0 <? 0)%float)
              then (mod0 + wx)%float else mod0
            else zero_with_sign_of wx).

(** [int(x)]: truncation toward zero; not defined on NaN and infinities. *)
Definition float_int (x : float) : result Z :=
  match Prim2SF x with
  | S754_nan => Raise ValueError
  | S754_infinity _ => Raise OverflowError
  | S754_zero _ => Return 0%Z
  | S754_finite s m e => Return (cond_Zopp s (Z.shiftl (Zpos m) e))
  end.

(** [round(x)]: the nearest integer, a tie to the even one. *)
Definition float_round (x : float) : result Z :=
  match Prim2SF x with
  | S754_nan => Raise ValueError
  | S754_infinity _ => Raise OverflowError
  | S754_zero _ => Return 0%Z
  | S754_finite s m e =>
      if (0 <=? e)%Z then Return (cond_Zopp s (Zpos m * 2 ^ e))
      else let p := (2 ^ (- e))%Z in
           let q := (Zpos m / p)%Z in
           let r := (Zpos m mod p)%Z in
           let q' := match (2 * r ?= p)%Z with
                     | Lt => q
                     | Gt => (q + 1)%Z
                     | Eq => if Z.even q then q else (q + 1)%Z
                     end in
           Return (cond_Zopp s q')
  end.

#[global] Instance arith : PyFloat float := {|
  of_int := float_of_Z;
  fadd := PrimFloat.add;
  fsub := PrimFloat.sub;
  fmul := PrimFloat.mul;
  truediv := float_truediv;
  divmod := float_divmod;
  pymod := float_rem;
  flt := PrimFloat.ltb;
  fle := PrimFloat.leb;
  fabs := PrimFloat.abs;
  int_ := float_int;
  round_ := float_round;
  DOLFIN_EPS := 3.0e-16%float
|}.

End Binary64.

(** ** Collaborators *)

(** An entry of the adjoint tape as [compute_adjoint] yields it: the name of
    the recorded variable and the time step it was recorded at. *)
Record variable : Set := { var_name : string; var_timestep : Z }.

(** What the Problem object and the DOLFIN / dolfin-adjoint backend provide.
    [Fn] stands for finite-element functions and the UFL expressions built
    from them, with [scale] and [plus] their algebra.  [solve_step mesh t k w_]
    is the nonlinear solve of one time step (boundary-condition update,
    [pre_step], [solve(F == 0, w, bcs)], [post_step]); [functional mesh w] is
    [assemble(problem.functional(W, w))]; [compute_adjoint] is the stream of
    [(adj, var)] pairs of the reverse sweep; [tape_value mesh timestep
    iteration] is [DolfinAdjointVariable(w, timestep, iteration).tape_value()];
    [assemble_residual] is [assemble(weak_residual(..., ei_mode=True))] tested
    against [z * phi]; [time_step] is the optional [problem.time_step]. *)
Class Backend (F : Type) : Type := {
  Mesh : Type;
  Fn : Type;
  num_cells : Mesh -> nat;
  zero_function : Mesh -> Fn;
  initial_conditions : Mesh -> Fn;
  solve_step : Mesh -> F -> F -> Fn -> Fn;
  solve_steady : Mesh -> Fn;
  functional : Mesh -> Fn -> F;
  scale : F -> Fn -> Fn;
  plus : Fn -> Fn -> Fn;
  compute_adjoint : Mesh -> Fn -> list (Fn * variable);
  tape_value : Mesh -> Z -> Z -> Fn;
  tape_value_steady : Mesh -> Fn;
  assemble_residual : Mesh -> F -> Fn -> Fn -> Fn -> Fn -> list F;
  assemble_residual_steady : Mesh -> Fn -> Fn -> list F;
  refine : Mesh -> list bool -> Mesh;
  time_step : option (Mesh -> F)
}.

(** ** Names and objects of the interpreter *)

(** [xrange(n)]: Python 3 has no [xrange]; looking the name up raises
    [NameError], whatever the argument. *)
Definition xrange (n : Z) : result (list nat) := Raise NameError.

(** A [map] object: the function and the sequence it was built from.
    Nothing is computed until the object is iterated. *)
Record map_object (A C : Type) : Type := {
  map_function : A -> result C;
  map_sequence : list A
}.

Arguments map_function {A C} m.
Arguments map_sequence {A C} m.

(** [m[i]] for a [map] object [m]: the type has no [__getitem__], so the
    subscript raises [TypeError]. *)
Definition map_getitem {A C : Type} (m : map_object A C) (i : Z) : result C :=
  Raise TypeError.

(** [int(c)] for a string of one character. *)
Definition int_of_char (c : ascii) : result Z :=
  let n := N_of_ascii c in
  if ((48 <=? n) && (n <=? 57))%N then Return (Z.of_N (n - 48))
  else Raise ValueError.

(** [str(n)] and ['{:d}'.format(n)] of an integer. *)
Definition str_int (n : Z) : string := NilZero.string_of_int (Z.to_int n).

(** ** [which_mesh] *)

(** The numerical descriptors. *)
Definition nth : list string := ["st"; "nd"; "rd"; "th"]%string.

Definition which_mesh (i : Z) : result string :=
  let num := {| map_function := int_of_char;
                map_sequence := list_ascii_of_string (str_int i) |} in
  if (i =? 0)%Z then Return "initial"%string
  else
    bind (map_getitem num (-1)) (fun last_digit =>
    if ((last_digit <? Z.of_nat (length nth))%Z
        && ((i <? 11)%Z || (20 <? i)%Z))%bool
    then bind (getitem nth (last_digit - 1)) (fun descriptor =>
         Return (str_int i ++ descriptor ++ " adapted ")%string)
    else bind (getitem nth (-1)) (fun descriptor =>
         Return (str_int i ++ descriptor ++ " adapted ")%string)).

(** ** The solver *)

Section Solver.

Context {F : Type} `{PyFloat F}.

Local Open Scope py_scope.

(** The fields [set_options] stores that the embedded methods read. *)
Record options : Type := {
  theta : F;
  adaptRatio : F;
  maxAdapts : Z;
  adaptTOL : F;
  onDisk : F;
  steady_state : bool
}.

(** *** [adjust_dt] *)

Definition adjust_dt (t0 T k : F) : result F :=
  ' (d, r) <- divmod (fsub T t0) k ;;
  if fgt r DOLFIN_EPS then truediv (fsub T t0) (fadd d (of_int 1))
  else Return k.

(** *** The checkpoint budget of [adaptive_solve] *)

(** The arguments of [adj_checkpointing]. *)
Record checkpointing : Set := {
  steps : Z;
  snaps_on_disk : Z;
  snaps_in_ram : Z
}.

(** The [assert] of [adaptive_solve]. *)
Definition onDisk_assertion (f : F) : bool :=
  fle f (of_int 1) || fge f (of_int 0).

(** The body of [if not self.steady_state:] once [N] is known: the
    assertion, then the call of [adj_checkpointing] when [onDisk > 0].
    [None] is the run in which [adj_checkpointing] is not called. *)
Definition configure_checkpointing (f : F) (N : Z)
  : result (option checkpointing) :=
  if negb (onDisk_assertion f) then Raise AssertionError
  else if fgt f (of_int 0) then
    disk <- int_ (fmul f (of_int N)) ;;
    ram <- int_ (fmul (fsub (of_int 1) f) (of_int N)) ;;
    Return (Some {| steps := N; snaps_on_disk := disk; snaps_in_ram := ram |})
  else Return None.

Definition adaptive_solve_checkpointing (o : options) (t0 T k : F)
  : result (option checkpointing) :=
  if steady_state o then Return None
  else
    q <- truediv (fsub T t0) k ;;
    N <- round_ q ;;
    configure_checkpointing (onDisk o) N.

(** *** [condition] *)

(** The builtin [sum]: left to right from the integer [0]. *)
Definition pysum (l : list F) : F := fold_left fadd l (of_int 0).

Definition condition (ei : list F) (m m_ : option F) : F :=
  fabs (pysum ei).

(** *** Cell marking of [adaptive_refine] *)

Fixpoint insert_desc (x : F) (l : list F) : list F :=
  match l with
  | [] => [x]
  | y :: l' => if fle y x then x :: l else y :: insert_desc x l'
  end.

(** [sorted(gamma, reverse=True)], as a list of values: the entries in
    descending order.  This is what Python returns whenever [<] orders the
    entries, that is on every list without a NaN; where a NaN ends up
    depends on the merge strategy of the interpreter and is not
    embedded. *)
Definition sorted_desc (l : list F) : list F := fold_right insert_desc [] l.

Definition adapt_n (ratio : F) (gamma : list F) : result Z :=
  int_ (fsub (fmul (of_int (Z.of_nat (length gamma))) ratio) (of_int 1)).

Definition gamma_0 (ratio : F) (gamma : list F) : result F :=
  n <- adapt_n ratio gamma ;;
  getitem (sorted_desc gamma) n.

(** The marker of every cell, in cell order. *)
Definition cell_markers (ratio : F) (ei : list F) : result (list bool) :=
  let gamma := map fabs ei in
  g0 <- gamma_0 ratio gamma ;;
  Return (map (fun g => fgt g g0) gamma).

(** *** Element-wise updates of the indicator vector *)

Fixpoint vec_add (a b : list F) : list F :=
  match a, b with
  | x :: a', y :: b' => fadd x y :: vec_add a' b'
  | _, _ => []
  end.

(** [ei.vector()[:] += arr]. *)
Definition vec_iadd (ei arr : list F) : result (list F) :=
  if (length ei =? length arr)%nat then Return (vec_add ei arr)
  else Raise ValueError.

(** [ei.vector()[:] = arr]. *)
Definition vec_assign (ei arr : list F) : result (list F) :=
  if (length ei =? length arr)%nat then Return arr
  else Raise ValueError.

Context {B : Backend F}.

(** *** [timeStepper]

    The time loop and its set-up, without the two calls of [update] (for
    the initial condition and after every step); with them the method is
    [Monitored.timeStepper]. *)

(** The variables of the time loop: the time [t], the unknown [w], the
    previous state [w_], the functional value [m] ([None] when [func] is
    false), and the times at which a step was solved, in order. *)
Record stepper : Type := {
  ts_t : F;
  ts_w : Fn;
  ts_w_ : Fn;
  ts_m : option F;
  ts_solved : list F
}.

(** One pass through the body of [while t < T - k / 2.]. *)
Definition time_step_body (mesh : Mesh) (k : F) (s : stepper) : stepper :=
  let t := fadd (ts_t s) k in
  let w := solve_step mesh t k (ts_w_ s) in
  {| ts_t := t;
     ts_w := w;
     ts_w_ := w;
     ts_m := option_map (fun m => fadd m (fmul k (functional mesh w))) (ts_m s);
     ts_solved := ts_solved s ++ [t] |}.

Fixpoint time_loop (fuel : nat) (mesh : Mesh) (T k : F) (s : stepper)
  : result stepper :=
  match fuel with
  | O => OutOfFuel
  | S fuel' =>
      h <- truediv k (of_int 2) ;;
      if flt (ts_t s) (fsub T h)
      then time_loop fuel' mesh T k (time_step_body mesh k s)
      else Return s
  end.

Definition timeStepper (fuel : nat) (mesh : Mesh) (t T k : F) (w w_ : Fn)
           (func : bool) : result stepper :=
  let m := if func then Some (fmul k (functional mesh w_)) else None in
  time_loop fuel mesh T k
    {| ts_t := t; ts_w := w; ts_w_ := w_; ts_m := m; ts_solved := [] |}.

Definition steady_solve (mesh : Mesh) (func : bool) : Fn * option F :=
  let w := solve_steady mesh in
  (w, if func then Some (functional mesh w) else None).

(** [forward_solve] over [timeStepper] and [steady_solve] without their
    updates; with them it is [Monitored.forward_solve]. *)
Definition forward_solve (fuel : nat) (o : options) (mesh : Mesh)
           (t0 T k : F) (func : bool) : result (Fn * option F) :=
  if negb (steady_state o) then
    s <- timeStepper fuel mesh t0 T k (zero_function mesh)
           (initial_conditions mesh) func ;;
    Return (ts_w s, ts_m s)
  else Return (steady_solve mesh func).

(** *** [compute_dual] *)

(** The variables of the reverse sweep.  [dual_pairs] lists the values of
    [(timestep, iteration)] at each entry of the primal variable, in the
    order of the sweep; in the time-dependent case they are the arguments
    of [DolfinAdjointVariable]. *)
Record dual_sweep : Type := {
  dual_timestep : option Z;
  dual_iteration : Z;
  dual_wtape : list Fn;
  dual_phi : list Fn;
  dual_t : F;
  dual_pairs : list (Z * Z)
}.

(** [timestep == var.timestep], where [timestep] starts as [None]. *)
Definition same_timestep (timestep : option Z) (ts : Z) : bool :=
  match timestep with
  | Some ts' => (ts' =? ts)%Z
  | None => false
  end.

(** The body of [for (adj, var) in compute_adjoint(J, forget=False)]. *)
Definition dual_body (o : options) (mesh : Mesh) (k : F) (s : dual_sweep)
           (entry : Fn * variable) : dual_sweep :=
  let '(adj, var) := entry in
  if String.eqb (var_name var) "w" then
    let iteration :=
      if same_timestep (dual_timestep s) (var_timestep var)
      then (dual_iteration s + 1)%Z else 0%Z in
    let timestep := var_timestep var in
    if negb (steady_state o) then
      {| dual_timestep := Some timestep;
         dual_iteration := iteration;
         dual_wtape := dual_wtape s ++ [tape_value mesh timestep iteration];
         dual_phi := dual_phi s ++ [adj];
         dual_t := fsub (dual_t s) k;
         dual_pairs := dual_pairs s ++ [(timestep, iteration)] |}
    else
      {| dual_timestep := Some timestep;
         dual_iteration := iteration;
         dual_wtape := dual_wtape s ++ [tape_value_steady mesh];
         dual_phi := dual_phi s ++ [adj];
         dual_t := dual_t s;
         dual_pairs := dual_pairs s ++ [(timestep, iteration)] |}
  else s.

Definition dual_walk (o : options) (mesh : Mesh) (T k : F)
           (entries : list (Fn * variable)) : dual_sweep :=
  fold_left (dual_body o mesh k) entries
    {| dual_timestep := None; dual_iteration := 0%Z; dual_wtape := [];
       dual_phi := []; dual_t := T; dual_pairs := [] |}.

(** Returns [(phi, wtape)]. *)
Definition compute_dual (o : options) (mesh : Mesh) (T k : F) (w : Fn)
  : list Fn * list Fn :=
  let s := dual_walk o mesh T k (compute_adjoint mesh w) in
  (dual_phi s, dual_wtape s).

(** *** [build_error_indicators] *)

(** The body of [for i in xrange(len(wtape) - 1)]. *)
Definition indicator_body (o : options) (mesh : Mesh) (k : F)
           (phi wtape : list Fn) (acc : result (list F)) (i : nat)
  : result (list F) :=
  ei <- acc ;;
  wi <- getitem wtape (Z.of_nat i) ;;
  wi1 <- getitem wtape (Z.of_nat i + 1) ;;
  let wtape_theta :=
    plus (scale (theta o) wi) (scale (fsub (of_int 1) (theta o)) wi1) in
  phii <- getitem phi (Z.of_nat i) ;;
  vec_iadd ei (assemble_residual mesh k wtape_theta wi wi1 phii).

Definition build_error_indicators (o : options) (mesh : Mesh) (k : F)
           (phi wtape : list Fn) : result (list F) :=
  let ei := repeat (of_int 0) (num_cells mesh) in
  if negb (steady_state o) then
    indices <- xrange (Z.of_nat (length wtape) - 1) ;;
    fold_left (indicator_body o mesh k phi wtape) indices (Return ei)
  else
    w0 <- getitem wtape 0 ;;
    phi0 <- getitem phi 0 ;;
    vec_assign ei (assemble_residual_steady mesh w0 phi0).

(** *** [adaptive_solve] *)

(** Returns [(w, m, ei)]. *)
Definition adaptive_solve (fuel : nat) (o : options) (mesh : Mesh)
           (t0 T k : F) : result (Fn * option F * list F) :=
  _ <- adaptive_solve_checkpointing o t0 T k ;;
  ' (w, m) <- forward_solve fuel o mesh t0 T k true ;;
  let '(phi, wtape) := compute_dual o mesh T k w in
  _ <- (if steady_state o then getitem phi 0 else Return w) ;;
  ei <- build_error_indicators o mesh k phi wtape ;;
  Return (w, m, ei).

(** *** [adaptive_refine] *)

Definition adaptive_refine (o : options) (mesh : Mesh) (ei : list F)
  : result Mesh :=
  markers <- cell_markers (adaptRatio o) ei ;;
  Return (refine mesh markers).

(** *** [adaptivity] *)

(** What the adaptive loop reports: in pass [i] the announcement of the
    solve (once [which_mesh] has given the name of the mesh), the
    announcement of the refinement and the [adj_reset] that ends the pass;
    after the loop, the warning with the last metric. *)
Inductive event : Type :=
| Solving (i : Z)
| Refining (i : Z)
| AdjReset (i : Z)
| MaxIterationsWarning (cond : F).

(** The variables of the adaptive loop. *)
Record adaptation : Type := {
  ad_i : Z;
  ad_m : option F;
  ad_COND : F;
  ad_mesh : Mesh;
  ad_k : F;
  ad_log : list event
}.

(** One pass through the body of the adaptive [while]. *)
Definition adaptivity_body (fuel : nat) (o : options) (t0 T : F)
           (s : adaptation) : result adaptation :=
  let i := ad_i s in
  let m_ := ad_m s in
  _ <- which_mesh i ;;
  ' (_, m, ei) <- adaptive_solve fuel o (ad_mesh s) t0 T (ad_k s) ;;
  let COND := condition ei m m_ in
  mesh <- adaptive_refine o (ad_mesh s) ei ;;
  k <- match time_step with
       | Some rule =>
           if negb (steady_state o) then adjust_dt t0 T (rule mesh)
           else Return (ad_k s)
       | None => Return (ad_k s)
       end ;;
  Return {| ad_i := (i + 1)%Z;
            ad_m := m;
            ad_COND := COND;
            ad_mesh := mesh;
            ad_k := k;
            ad_log := ad_log s ++ [Solving i; Refining i; AdjReset i] |}.

(** [iters] bounds the passes of the adaptive loop, [fuel] those of each
    time loop inside it. *)
Fixpoint adaptivity_loop (iters fuel : nat) (o : options) (t0 T : F)
         (s : adaptation) : result adaptation :=
  match iters with
  | O => OutOfFuel
  | S iters' =>
      if ((ad_i s <=? maxAdapts o)%Z && fgt (ad_COND s) (adaptTOL o))%bool
      then s' <- adaptivity_body fuel o t0 T s ;;
           adaptivity_loop iters' fuel o t0 T s'
      else Return s
  end.

(** The variables the adaptive loop starts from. *)
Definition adaptivity_init (mesh : Mesh) (k : F) : adaptation :=
  {| ad_i := 0%Z; ad_m := Some (of_int 0); ad_COND := of_int 1;
     ad_mesh := mesh; ad_k := k; ad_log := [] |}.

(** Returns the final loop variables; [(ad_mesh, ad_k)] is what the
    method returns, [ad_log] what it printed. *)
Definition adaptivity (iters fuel : nat) (o : options) (mesh : Mesh)
           (T t0 k : F) : result adaptation :=
  s <- adaptivity_loop iters fuel o t0 T (adaptivity_init mesh k) ;;
  if ((maxAdapts o <? ad_i s)%Z && fgt (ad_COND s) (adaptTOL o))%bool
  then Return {| ad_i := ad_i s; ad_m := ad_m s; ad_COND := ad_COND s;
                 ad_mesh := ad_mesh s; ad_k := ad_k s;
                 ad_log := ad_log s ++ [MaxIterationsWarning (ad_COND s)] |}
  else Return s.

(** The refinement passes a log records. *)
Definition refinements (log : list event) : nat :=
  List.length (filter (fun e => match e with Refining _ => true | _ => false end) log).

(** The log of the passes [0 .. n - 1] of the adaptive loop. *)
Definition passes (n : nat) : list event :=
  flat_map (fun i => [Solving (Z.of_nat i); Refining (Z.of_nat i);
                      AdjReset (Z.of_nat i)]) (seq 0 n).

(** *** The tape bookkeeping, as a function of the recorded time steps *)

(** The time steps of the primal-variable entries, in sweep order. *)
Definition w_timesteps (entries : list (Fn * variable)) : list Z :=
  map (fun e => var_timestep (snd e))
      (filter (fun e => String.eqb (var_name (snd e)) "w") entries).

(** The [(timestep, iteration)] pairs that follow the pair
    [(timestep, iteration)] over time steps [tss]: the iteration goes up
    by one while the time step repeats and restarts at [0] when it
    changes. *)
Fixpoint reconstruct (timestep : option Z) (iteration : Z) (tss : list Z)
  : list (Z * Z) :=
  match tss with
  | [] => []
  | ts :: rest =>
      let it := if same_timestep timestep ts then (iteration + 1)%Z else 0%Z in
      (ts, it) :: reconstruct (Some ts) it rest
  end.

(** *** The indicator field, as the sum it is meant to be *)

(** The consecutive pairs [(wtape[i], wtape[i+1])] of the reversed tape,
    each with its dual state [phi[i]]. *)
Fixpoint tape_pairs (wtape phi : list Fn) : list (Fn * Fn * Fn) :=
  match wtape, phi with
  | wi :: (wi1 :: _) as rest, phii :: phi' =>
      (wi, wi1, phii) :: tape_pairs rest phi'
  | _, _ => []
  end.

(** The assembled contribution of one pair, at the theta interpolation
    [theta * wtape[i] + (1 - theta) * wtape[i+1]]. *)
Definition contribution (o : options) (mesh : Mesh) (k : F)
           (p : Fn * Fn * Fn) : list F :=
  let '(wi, wi1, phii) := p in
  assemble_residual mesh k
    (plus (scale (theta o) wi) (scale (fsub (of_int 1) (theta o)) wi1))
    wi wi1 phii.

End Solver.

Arguments options F : clear implicits.
Arguments event F : clear implicits.
Arguments passes F n : clear implicits.

(** Descending order on the rationals. *)
Definition Qge_rel (a b : Q) : Prop := (b <= a)%Q.

(** The metric the warning of [adaptivity] names: [sum(abs(EI))]. *)
Definition sum_abs {F} `{PyFloat F} (ei : list F) : F := pysum (map fabs ei).

(** [adjust_dt] returns a step [k' <= k] whose remainder [(T - t0) % k'] is
    within [tol] of [0] or of [k']. *)
Definition divides_within {F} `{PyFloat F} (tol t0 T k : F) : bool :=
  match adjust_dt t0 T k with
  | Return k' =>
      match pymod (fsub T t0) k' with
      | Return r => fle k' k && (flt r tol || flt (fsub k' r) tol)
      | _ => false
      end
  | _ => false
  end.

(** A second [adjust_dt] returns the step of the first. *)
Definition idempotent_at {F} `{PyFloat F} (t0 T k : F) : bool :=
  match adjust_dt t0 T k with
  | Return k' =>
      match adjust_dt t0 T k' with
      | Return k'' => fle k' k'' && fle k'' k'
      | _ => false
      end
  | _ => false
  end.

(** The steps [1/n, 2/n, ..., n/n]. *)
Definition step_grid {F} `{PyFloat F} (n : nat) : list (result F) :=
  map (fun j => truediv (of_int (Z.of_nat j)) (of_int (Z.of_nat n))) (seq 1 n).

(** [check] holds of every step of the grid. *)
Definition on_grid {F} `{PyFloat F} (n : nat) (check : F -> bool) : bool :=
  forallb (fun k => match k with Return k => check k | _ => false end)
          (step_grid n).

(** ** A test problem *)

Module Example.

Definition w_entry (ts : Z) : variable :=
  {| var_name := "w"; var_timestep := ts |}.

Definition other_entry (ts : Z) : variable :=
  {| var_name := "w_"; var_timestep := ts |}.

(** A scalar problem on a mesh that is its number of cells: the states
    are numbers, a step is one explicit Euler step of [w' = w], the tape
    holds two records of the last time step and one of each earlier one,
    the residual of cell [j] is [(j + 1) * k * phi * w], and refinement
    splits every marked cell in two. *)
#[global] Instance backend {F} `{PyFloat F} : Backend F := {|
  Mesh := nat;
  Fn := F;
  num_cells n := n;
  zero_function _ := of_int 0;
  initial_conditions _ := of_int 1;
  solve_step _ t k w_ := fadd w_ (fmul k w_);
  solve_steady _ := of_int 1;
  functional _ w := w;
  scale := fmul;
  plus := fadd;
  compute_adjoint _ w :=
    [(w, w_entry 2); (w, other_entry 2); (w, w_entry 2); (w, w_entry 1);
     (w, other_entry 1); (w, w_entry 0)];
  tape_value _ ts it := of_int (ts + 1);
  tape_value_steady _ := of_int 1;
  assemble_residual n k wtheta wi wi1 phi :=
    map (fun j => fmul (of_int (Z.of_nat (S j))) (fmul k (fmul phi wtheta)))
        (seq 0 n);
  assemble_residual_steady n w phi :=
    map (fun j => fmul (of_int (Z.of_nat (S j))) (fmul phi w)) (seq 0 n);
  refine n markers := (n + List.length (filter (fun b => b) markers))%nat;
  time_step := None
|}.

(** The options of the end-to-end scenario: [theta = 0.5], 40 percent of
    the cells refined, at most 3 adaptations, tolerance [1e-6]. *)
Definition opts_exact : options Q := {|
  theta := 1 # 2;
  adaptRatio := 4 # 10;
  maxAdapts := 3;
  adaptTOL := 1 # 1000000;
  onDisk := 0;
  steady_state := false
|}.

Definition opts_binary64 : options float := {|
  theta := 0.5%float;
  adaptRatio := 0.4%float;
  maxAdapts := 3;
  adaptTOL := 1e-6%float;
  onDisk := 0%float;
  steady_state := false
|}.

(** The options of a solver class that sets [steady_state], with
    [max_adaptations = n]. *)
Definition steady {F : Type} (n : Z) (o : options F) : options F := {|
  theta := theta o;
  adaptRatio := adaptRatio o;
  maxAdapts := n;
  adaptTOL := adaptTOL o;
  onDisk := onDisk o;
  steady_state := true
|}.

End Example.

(** ** Further definitions *)

(** Whether a call returned a value. *)
Definition returned {A : Type} (r : result A) : bool :=
  match r with
  | Return _ => true
  | _ => false
  end.

(** The exception a call raised. *)
Definition raised {A : Type} (r : result A) : option exn :=
  match r with
  | Raise e => Some e
  | _ => None
  end.

(** *** The trajectory of the time loop *)

Section Trajectory.

Context {F : Type} `{PyFloat F} {B : Backend F}.

(** The times the loop reaches from [t] in [n] passes of [t += k]. *)
Fixpoint times (t k : F) (n : nat) : list F :=
  match n with
  | O => []
  | S n' => let t' := fadd t k in t' :: times t' k n'
  end.

(** The states solved at the times [ts], one after the other, from the
    previous state [w_]. *)
Fixpoint states (mesh : Mesh) (k : F) (w_ : Fn) (ts : list F) : list Fn :=
  match ts with
  | [] => []
  | t :: ts' => let w := solve_step mesh t k w_ in
                w :: states mesh k w ts'
  end.

End Trajectory.

(** *** The tape and the adaptive loop *)

(** An entry of the tape that belongs to the primal variable. *)
Definition is_w {Fn : Type} (entry : Fn * variable) : bool :=
  String.eqb (var_name (snd entry)) "w".

(** What the adaptive loop prints after its last pass. *)
Definition closing_report {F : Type} `{PyFloat F} (o : options F) (cond : F)
  : list (event F) :=
  if fgt cond (adaptTOL o) then [MaxIterationsWarning cond] else [].

(** *** Variants of a problem *)

(** The collaborators of [B] with a [problem.time_step] rule added. *)
Definition with_time_step {F : Type} (B : Backend F) (rule : @Mesh F B -> F)
  : Backend F := {|
  Mesh := @Mesh F B;
  Fn := @Fn F B;
  num_cells := @num_cells F B;
  zero_function := @zero_function F B;
  initial_conditions := @initial_conditions F B;
  solve_step := @solve_step F B;
  solve_steady := @solve_steady F B;
  functional := @functional F B;
  scale := @scale F B;
  plus := @plus F B;
  compute_adjoint := @compute_adjoint F B;
  tape_value := @tape_value F B;
  tape_value_steady := @tape_value_steady F B;
  assemble_residual := @assemble_residual F B;
  assemble_residual_steady := @assemble_residual_steady F B;
  refine := @refine F B;
  time_step := Some rule
|}.

(** The collaborators of [B] with another adjoint tape. *)
Definition with_tape {F : Type} (B : Backend F)
           (tape : @Mesh F B -> @Fn F B -> list (@Fn F B * variable))
  : Backend F := {|
  Mesh := @Mesh F B;
  Fn := @Fn F B;
  num_cells := @num_cells F B;
  zero_function := @zero_function F B;
  initial_conditions := @initial_conditions F B;
  solve_step := @solve_step F B;
  solve_steady := @solve_steady F B;
  functional := @functional F B;
  scale := @scale F B;
  plus := @plus F B;
  compute_adjoint := tape;
  tape_value := @tape_value F B;
  tape_value_steady := @tape_value_steady F B;
  assemble_residual := @assemble_residual F B;
  assemble_residual_steady := @assemble_residual_steady F B;
  refine := @refine F B;
  time_step := @time_step F B
|}.

(** *** Option dictionaries: [set_parameters], [set_options], [OPTIONS] *)

Module Config.

(** The values the option dictionaries hold. *)
Inductive value : Set :=
| VNone
| VBool (b : bool)
| VInt (n : Z)
| VFloat (x : float)
| VStr (s : string).

(** A dictionary with string keys: the pairs it was built from, the
    first pair of a key being the one that counts. *)
Definition dict : Set := list (string * value).

Fixpoint get (d : dict) (key : string) : option value :=
  match d with
  | [] => None
  | (key', v) :: d' => if String.eqb key' key then Some v else get d' key
  end.

(** [key in options.keys()]. *)
Definition has_key (d : dict) (key : string) : bool :=
  match get d key with
  | Some _ => true
  | None => false
  end.

(** A read of the dictionary finds a value or raises [KeyError] with the
    key. *)
Inductive lookup (A : Type) : Type :=
| Found (a : A)
| KeyError (key : string).

Arguments Found {A} a.
Arguments KeyError {A} key.

Definition and_then {A C : Type} (c : lookup A) (k : A -> lookup C)
  : lookup C :=
  match c with
  | Found a => k a
  | KeyError key => KeyError key
  end.

(** [options[key]]. *)
Definition item (d : dict) (key : string) : lookup value :=
  match get d key with
  | Some v => Found v
  | None => KeyError key
  end.

(** [options[key] if key in options.keys() else default]. *)
Definition item_or (d : dict) (key : string) (default : value)
  : lookup value :=
  if has_key d key then item d key else Found default.

(** What [set_parameters] assigns: the entries of DOLFIN's [parameters]
    and of the Newton solver's. *)
Record parameters : Set := {
  cpp_optimize : bool;
  allow_extrapolation : bool;
  convergence_criterion : string;
  absolute_tolerance : value;
  relative_tolerance : value;
  report : value;
  refinement_algorithm : value
}.

Definition set_parameters (options : dict) : lookup parameters :=
  and_then (item options "absolute_tolerance") (fun atol =>
  and_then (item options "relative_tolerance") (fun rtol =>
  and_then (item options "monitor_convergence") (fun rep =>
  and_then (item_or options "refinement_algorithm" (VStr "regular_cut"))
           (fun alg =>
  Found {| cpp_optimize := true;
           allow_extrapolation := true;
           convergence_criterion := "incremental";
           absolute_tolerance := atol;
           relative_tolerance := rtol;
           report := rep;
           refinement_algorithm := alg |})))).

(** The attributes [set_options] assigns. *)
Record settings : Set := {
  mem : value;
  saveSolution : value;
  saveFrequency : value;
  theta : value;
  adaptive : value;
  adaptRatio : value;
  maxAdapts : value;
  adaptTOL : value;
  onDisk : value;
  dir : value;
  optimize : value;
  steady_state : bool;
  log_level : value
}.

Definition set_options (options : dict) : lookup settings :=
  and_then (item options "check_mem_usage") (fun v_mem =>
  and_then (item options "save_solution") (fun v_save =>
  and_then (item options "save_frequency") (fun v_freq =>
  and_then (item_or options "theta" (VFloat 0.5)) (fun v_theta =>
  and_then (item options "adaptive") (fun v_adaptive =>
  and_then (item options "adapt_ratio") (fun v_ratio =>
  and_then (item options "max_adaptations") (fun v_max =>
  and_then (item options "adaptive_TOL") (fun v_tol =>
  and_then (item options "on_disk") (fun v_disk =>
  and_then (item options "folder") (fun v_dir =>
  and_then (item options "optimize") (fun v_opt =>
  and_then (item_or options "log_level" (VInt 50)) (fun v_log =>
  Found {| mem := v_mem;
           saveSolution := v_save;
           saveFrequency := v_freq;
           theta := v_theta;
           adaptive := v_adaptive;
           adaptRatio := v_ratio;
           maxAdapts := v_max;
           adaptTOL := v_tol;
           onDisk := v_disk;
           dir := v_dir;
           optimize := v_opt;
           steady_state := false;
           log_level := v_log |})))))))))))).

(** The reads of [__init__]: [set_parameters], then [set_options]. *)
Definition __init__ (options : dict) : lookup (parameters * settings) :=
  and_then (set_parameters options) (fun prm =>
  and_then (set_options options) (fun st =>
  Found (prm, st))).

(** The keys [__init__] reads without a default, in the order in which
    it reads them. *)
Definition required : list string :=
  ["absolute_tolerance"; "relative_tolerance"; "monitor_convergence";
   "check_mem_usage"; "save_solution"; "save_frequency"; "adaptive";
   "adapt_ratio"; "max_adaptations"; "adaptive_TOL"; "on_disk"; "folder";
   "optimize"]%string.

(** The default options of the package ([__init__.py]). *)
Definition OPTIONS : dict :=
  [("dim", VInt 2);
   ("Nx", VInt 20);
   ("Ny", VInt 20);
   ("Nz", VInt 20);
   ("k", VFloat 0.01);
   ("T", VFloat 10.0);
   ("theta", VFloat 0.5);
   ("stabilize", VBool true);
   ("adaptive", VBool false);
   ("refinement_algorithm", VStr "regular_cut");
   ("adapt_ratio", VFloat 0.1);
   ("max_adaptations", VInt 30);
   ("adaptive_TOL", VFloat 1e-20);
   ("optimize", VBool false);
   ("on_disk", VFloat 0);
   ("folder", VStr "results/");
   ("save_solution", VBool false);
   ("save_frequency", VInt 1);
   ("plot_solution", VBool true);
   ("debug", VBool false);
   ("check_mem_usage", VBool false);
   ("absolute_tolerance", VFloat 1e-25);
   ("relative_tolerance", VFloat 1e-12);
   ("monitor_convergence", VBool false);
   ("initial_mesh", VNone)]%string.

End Config.

(** *** Output files: [file_naming] *)

(** ['{:02d}'.format(n)]: at least two characters, zeros in front. *)
Definition format_02d (n : Z) : string :=
  let s := str_int n in
  if (String.length s <? 2)%nat then String "0" s else s.

(** The files of the solver, each the name it was opened with, [None]
    before it is opened. *)
Record files : Set := {
  _ufile : option string;
  _pfile : option string;
  _uDualfile : option string;
  _pDualfile : option string;
  eifile : option string;
  meshfile : option string;
  optfile : option string
}.

(** The files after [__init__]. *)
Definition no_files : files := {|
  _ufile := None; _pfile := None; _uDualfile := None; _pDualfile := None;
  eifile := None; meshfile := None; optfile := None
|}.

(** [file_naming], given the stem [s] that its first line builds from the
    folder, [prefix] and [suffix]. *)
Definition file_naming (s : string) (n : Z) (opt : bool) (f : files)
  : files :=
  if (n =? -1)%Z then
    {| _ufile := Some (s ++ (if opt then "_uOpt.pvd" else "_u.pvd"))%string;
       _pfile := Some (s ++ (if opt then "_pOpt.pvd" else "_p.pvd"))%string;
       _uDualfile := Some (s ++ "_uDual.pvd")%string;
       _pDualfile := Some (s ++ "_pDual.pvd")%string;
       eifile := eifile f;
       meshfile := Some (s ++ "_mesh.xml")%string;
       optfile := optfile f |}
  else
    let d := format_02d n in
    {| _ufile := match eifile f with
                 | None => Some (s ++ "_u" ++ d ++ ".pvd")%string
                 | Some _ => _ufile f
                 end;
       _pfile := Some (s ++ "_p" ++ d ++ ".pvd")%string;
       _uDualfile := Some (s ++ "_uDual" ++ d ++ ".pvd")%string;
       _pDualfile := Some (s ++ "_pDual" ++ d ++ ".pvd")%string;
       eifile := match eifile f with
                 | None => Some (s ++ "_ei.pvd")%string
                 | Some e => Some e
                 end;
       meshfile := Some (s ++ "_mesh" ++ d ++ ".xml")%string;
       optfile := optfile f |}.

(** The files after the calls [file_naming(problem, n=i, opt=False)] of the
    passes [i = 0 .. n - 1] of the adaptive loop. *)
Definition files_of_passes (s : string) (n : nat) : files :=
  fold_left (fun f i => file_naming s (Z.of_nat i) false f) (seq 0 n) no_files.

(** *** [solve] *)

(** [solve] without the calls of [update], for a solver or a problem
    without optimization ([self.optimize] off, or no [Optimize] on the
    problem).  [adaptive] is [self.adaptive], [adjointer] tells whether
    dolfin-adjoint was imported, [func] whether the problem has a
    [functional]; [T], [t0] and [k0] are [problem.T], [problem.t0] and
    [problem.k]. *)
Definition solve {F : Type} `{PyFloat F} {B : Backend F} (iters fuel : nat)
           (o : options F) (adaptive adjointer func : bool) (mesh : Mesh)
           (t0 T k0 : F) : result Fn :=
  bind (if negb (steady_state o) then adjust_dt t0 T k0 else Return k0)
       (fun k =>
  bind (if adaptive && adjointer
        then bind (adaptivity iters fuel o mesh T t0 k)
                  (fun s => Return (ad_mesh s, ad_k s))
        else Return (mesh, k))
       (fun mk =>
  bind (forward_solve fuel o (fst mk) t0 T (snd mk) func)
       (fun wm => Return (fst wm)))).

(** *** Progress and output: [update] and [Save]

    The methods that solve also report: [update] is called for the initial
    condition and after every step, stores the time in [_t], has [Save]
    write the solution, computes the progress [100 * t / problem.T] (which
    raises [ZeroDivisionError] when [problem.T] is zero) and advances
    [_timestep].  The module [Monitored] holds these two methods and the
    solving methods as the source has them, with their calls of [update]
    and their writes; [T] is [problem.T], which is also the end time that
    [solve] passes down.  [Save] writes into the files [file_naming]
    opened, which [solve] and [adaptivity] call before every solve; the
    memory report ([getMyMemoryUsage]) and the CPU times are left out. *)

Module Monitored.

Section Run.

Context {F : Type} `{PyFloat F} {B : Backend F}.

Local Open Scope py_scope.

(** [saveSolution] and [saveFrequency], as [set_options] stores them; the
    frequency is an integer, as in [OPTIONS]. *)
Record save_options : Set := {
  saveSolution : bool;
  saveFrequency : Z
}.

(** What is written with [<<]: by [Save] the components of [w] into the
    primal or into the dual pair of files, by [adaptivity] the mesh and the
    indicator field. *)
Inductive output : Type :=
| ToPrimalFiles (w : Fn)
| ToDualFiles (w : Fn)
| ToMeshFile (mesh : Mesh)
| ToIndicatorFile (ei : list F).

(** The attributes [update] and [Save] read and write. *)
Record monitor : Type := {
  _t : list (option F);
  _timestep : Z;
  saved : list output
}.

(** [n == x] for an integer [n] and a number [x]. *)
Definition int_eq (n : Z) (x : F) : bool :=
  fle (of_int n) x && fle x (of_int n).

(** The condition under which [Save] writes. *)
Definition save_due (so : save_options) (problem_T : F) (timestep : Z)
  : bool :=
  if (saveFrequency so =? 0)%Z then false
  else if ((timestep - 1) mod saveFrequency so =? 0)%Z then true
  else if (timestep =? 0)%Z then true
  else int_eq timestep problem_T.

Definition Save (so : save_options) (problem_T : F) (w : Fn) (dual : bool)
           (mon : monitor) : monitor :=
  if save_due so problem_T (_timestep mon) then
    {| _t := _t mon;
       _timestep := _timestep mon;
       saved := saved mon
                ++ [if dual then ToDualFiles w else ToPrimalFiles w] |}
  else mon.

Definition update (so : save_options) (problem_T : F) (t : option F)
           (w : Fn) (dual : bool) (mon : monitor) : result monitor :=
  let mon1 :=
    if negb dual || (match t with Some _ => true | None => false end)
    then {| _t := _t mon ++ [t]; _timestep := _timestep mon;
            saved := saved mon |}
    else mon in
  let mon2 := if saveSolution so then Save so problem_T w dual mon1
              else mon1 in
  match t with
  | Some t' =>
      (* perc = 100 * t / problem.T *)
      _ <- truediv (fmul (of_int 100) t') problem_T ;;
      Return {| _t := _t mon2; _timestep := (_timestep mon2 + 1)%Z;
                saved := saved mon2 |}
  | None => Return mon2
  end.

(** [self._timestep = 0]. *)
Definition reset_timestep (mon : monitor) : monitor :=
  {| _t := _t mon; _timestep := 0%Z; saved := saved mon |}.

Fixpoint time_loop (fuel : nat) (so : save_options) (mesh : Mesh)
         (T k : F) (s : stepper) (mon : monitor)
  : result (stepper * monitor) :=
  match fuel with
  | O => OutOfFuel
  | S fuel' =>
      h <- truediv k (of_int 2) ;;
      if flt (ts_t s) (fsub T h)
      then let s' := time_step_body mesh k s in
           mon' <- update so T (Some (ts_t s')) (ts_w_ s') false mon ;;
           time_loop fuel' so mesh T k s' mon'
      else Return (s, mon)
  end.

Definition timeStepper (fuel : nat) (so : save_options) (mesh : Mesh)
           (t T k : F) (w w_ : Fn) (func : bool) (mon : monitor)
  : result (stepper * monitor) :=
  mon0 <- update so T (Some t) w_ false mon ;;
  let m := if func then Some (fmul k (functional mesh w_)) else None in
  time_loop fuel so mesh T k
    {| ts_t := t; ts_w := w; ts_w_ := w_; ts_m := m; ts_solved := [] |}
    mon0.

Definition steady_solve (so : save_options) (mesh : Mesh) (T : F)
           (func : bool) (mon : monitor)
  : result (Fn * option F * monitor) :=
  let '(w, m) := steady_solve mesh func in
  mon' <- update so T None w false mon ;;
  Return (w, m, mon').

Definition forward_solve (fuel : nat) (so : save_options) (o : options F)
           (mesh : Mesh) (t0 T k : F) (func : bool) (mon : monitor)
  : result (Fn * option F * monitor) :=
  if negb (steady_state o) then
    ' (s, mon') <- timeStepper fuel so mesh t0 T k (zero_function mesh)
                     (initial_conditions mesh) func mon ;;
    Return (ts_w s, ts_m s, mon')
  else steady_solve so mesh T func mon.

(** The body of the loop of [compute_dual], with its [update]. *)
Definition dual_body (so : save_options) (o : options F) (mesh : Mesh)
           (T k : F) (acc : result (dual_sweep * monitor))
           (entry : Fn * variable) : result (dual_sweep * monitor) :=
  ' (s, mon) <- acc ;;
  let s' := dual_body o mesh k s entry in
  if is_w entry && negb (steady_state o) then
    mon' <- update so T (Some (dual_t s)) (fst entry) true mon ;;
    Return (s', mon')
  else Return (s', mon).

(** Returns [(phi, wtape)] and the monitor. *)
Definition compute_dual (so : save_options) (o : options F) (mesh : Mesh)
           (T k : F) (w : Fn) (mon : monitor)
  : result (list Fn * list Fn * monitor) :=
  ' (s, mon') <- fold_left (dual_body so o mesh T k)
                   (compute_adjoint mesh w)
                   (Return ({| dual_timestep := None; dual_iteration := 0%Z;
                               dual_wtape := []; dual_phi := [];
                               dual_t := T; dual_pairs := [] |},
                            reset_timestep mon)) ;;
  Return (dual_phi s, dual_wtape s, mon').

(** Returns [(w, m, ei)] and the monitor. *)
Definition adaptive_solve (fuel : nat) (so : save_options) (o : options F)
           (mesh : Mesh) (t0 T k : F) (mon : monitor)
  : result (Fn * option F * list F * monitor) :=
  _ <- adaptive_solve_checkpointing o t0 T k ;;
  ' (w, m, mon1) <- forward_solve fuel so o mesh t0 T k true
                      (reset_timestep mon) ;;
  ' (phi, wtape, mon2) <- compute_dual so o mesh T k w
                            (reset_timestep mon1) ;;
  mon3 <- (if steady_state o
           then phi0 <- getitem phi 0 ;; update so T None phi0 true mon2
           else Return mon2) ;;
  ei <- build_error_indicators o mesh k phi wtape ;;
  Return (w, m, ei, mon3).

(** [file << x] when [saveSolution] is set. *)
Definition write_if_saving (so : save_options) (x : output)
           (mon : monitor) : monitor :=
  if saveSolution so
  then {| _t := _t mon; _timestep := _timestep mon;
          saved := saved mon ++ [x] |}
  else mon.

(** One pass through the body of the adaptive [while]. *)
Definition adaptivity_body (fuel : nat) (so : save_options) (o : options F)
           (t0 T : F) (s : adaptation) (mon : monitor)
  : result (adaptation * monitor) :=
  let i := ad_i s in
  let m_ := ad_m s in
  let mon0 := write_if_saving so (ToMeshFile (ad_mesh s)) mon in
  _ <- which_mesh i ;;
  ' (_, m, ei, mon1) <- adaptive_solve fuel so o (ad_mesh s) t0 T (ad_k s)
                          mon0 ;;
  let COND := condition ei m m_ in
  let mon2 := write_if_saving so (ToIndicatorFile ei) mon1 in
  mesh <- adaptive_refine o (ad_mesh s) ei ;;
  k <- match time_step with
       | Some rule =>
           if negb (steady_state o) then adjust_dt t0 T (rule mesh)
           else Return (ad_k s)
       | None => Return (ad_k s)
       end ;;
  Return ({| ad_i := (i + 1)%Z;
             ad_m := m;
             ad_COND := COND;
             ad_mesh := mesh;
             ad_k := k;
             ad_log := ad_log s ++ [Solving i; Refining i; AdjReset i] |},
          mon2).

Fixpoint adaptivity_loop (iters fuel : nat) (so : save_options)
         (o : options F) (t0 T : F) (s : adaptation) (mon : monitor)
  : result (adaptation * monitor) :=
  match iters with
  | O => OutOfFuel
  | S iters' =>
      if ((ad_i s <=? maxAdapts o)%Z && fgt (ad_COND s) (adaptTOL o))%bool
      then ' (s', mon') <- adaptivity_body fuel so o t0 T s mon ;;
           adaptivity_loop iters' fuel so o t0 T s' mon'
      else Return (s, mon)
  end.

Definition adaptivity (iters fuel : nat) (so : save_options)
           (o : options F) (mesh : Mesh) (T t0 k : F) (mon : monitor)
  : result (adaptation * monitor) :=
  ' (s, mon') <- adaptivity_loop iters fuel so o t0 T
                   (adaptivity_init mesh k) mon ;;
  if ((maxAdapts o <? ad_i s)%Z && fgt (ad_COND s) (adaptTOL o))%bool
  then Return ({| ad_i := ad_i s; ad_m := ad_m s; ad_COND := ad_COND s;
                  ad_mesh := ad_mesh s; ad_k := ad_k s;
                  ad_log := ad_log s
                            ++ [MaxIterationsWarning (ad_COND s)] |},
               mon')
  else Return (s, mon').

(** [solve], for a solver or a problem without optimization
    ([self.optimize] off, or no [Optimize] on the problem).  [adaptive] is
    [self.adaptive], [adjointer] tells whether dolfin-adjoint was
    imported, [func] whether the problem has a [functional]; [T], [t0]
    and [k0] are [problem.T], [problem.t0] and [problem.k].  Returns [w]
    and the monitor. *)
Definition solve (iters fuel : nat) (so : save_options) (o : options F)
           (adaptive adjointer func : bool) (mesh : Mesh) (t0 T k0 : F)
           (mon : monitor) : result (Fn * monitor) :=
  k <- (if negb (steady_state o) then adjust_dt t0 T k0 else Return k0) ;;
  ' (mesh', k', mon1) <-
    (if adaptive && adjointer
     then ' (s, mon1) <- adaptivity iters fuel so o mesh T t0 k mon ;;
          Return (ad_mesh s, ad_k s, mon1)
     else Return (mesh, k, mon)) ;;
  ' (w, _, mon2) <- forward_solve fuel so o mesh' t0 T k' func mon1 ;;
  Return (w, mon2).

(** The solutions [Save] writes in updates number [timestep],
    [timestep + 1], ... for the states [ws]. *)
Fixpoint scheduled (so : save_options) (problem_T : F) (dual : bool)
         (timestep : Z) (ws : list Fn) : list output :=
  match ws with
  | [] => []
  | w :: ws' =>
      (if saveSolution so && save_due so problem_T timestep
       then [if dual then ToDualFiles w else ToPrimalFiles w] else [])
      ++ scheduled so problem_T dual (timestep + 1) ws'
  end.

(** The times [t, t - k, t - k - k, ...] of [n] steps back. *)
Fixpoint countdown (t k : F) (n : nat) : list F :=
  match n with
  | O => []
  | S n' => t :: countdown (fsub t k) k n'
  end.

End Run.

End Monitored.

(** With the step [adjust_dt] returns for [k], [timeStepper] makes
    [round((T - t0) / k')] steps and ends within [tol] of [T]. *)
Definition step_count_ok {F} `{PyFloat F} {B : Backend F} (fuel : nat)
           (mesh : Mesh) (tol t0 T k : F) : bool :=
  match adjust_dt t0 T k with
  | Return k' =>
      match bind (truediv (fsub T t0) k') round_,
            Monitored.timeStepper fuel
              {| Monitored.saveSolution := false;
                 Monitored.saveFrequency := 1 |}
              mesh t0 T k' (zero_function mesh) (initial_conditions mesh)
              false
              {| Monitored._t := []; Monitored._timestep := 0;
                 Monitored.saved := [] |} with
      | Return N, Return (s, _) =>
          (Z.of_nat (length (ts_solved s)) =? N)%Z
          && flt (fabs (fsub (ts_t s) T)) tol
      | _, _ => false
      end
  | _ => false
  end.

(** * Properties *)

Local Open Scope Q_scope.

(** ** Outcomes *)

Lemma raised_Some {A : Type} (r : result A) (e : exn) :
  raised r = Some e -> r = Raise e.
Proof. destruct r; cbn; congruence. Qed.

(** ** Exact arithmetic: auxiliary facts *)

#[local] Instance inject_Z_Proper : Proper (eq ==> Qeq) inject_Z.
Proof. intros x y ->. reflexivity. Qed.

Lemma Qltb_true_iff (x y : Q) : Exact.Qltb x y = true <-> x < y.
Proof.
  unfold Exact.Qltb. rewrite negb_true_iff, <- not_true_iff_false, Qle_bool_iff.
  split; [apply Qnot_le_lt | apply Qlt_not_le].
Qed.

Lemma Qltb_false_iff (x y : Q) : Exact.Qltb x y = false <-> y <= x.
Proof.
  unfold Exact.Qltb. now rewrite negb_false_iff, Qle_bool_iff.
Qed.

Lemma Qeq_bool_false_of_neq (x y : Q) : ~ x == y -> Qeq_bool x y = false.
Proof.
  intro Hn. destruct (Qeq_bool x y) eqn:E; [|reflexivity].
  now apply Qeq_bool_eq in E.
Qed.

Lemma inject_Z_nonneg (z : Z) : (0 <= z)%Z -> 0 <= inject_Z z.
Proof. intro Hz. change 0 with (inject_Z 0). now rewrite <- Zle_Qle. Qed.

Lemma DOLFIN_EPS_nonneg : 0 <= DOLFIN_EPS.
Proof. discriminate. Qed.

Lemma Qfloor_unique (x : Q) (n : Z) :
  inject_Z n <= x -> x < inject_Z n + 1 -> Qfloor x = n.
Proof.
  intros Hl Hu.
  pose proof (Qfloor_le x) as Hfl. pose proof (Qlt_floor x) as Hfu.
  rewrite inject_Z_plus in Hfu. change (inject_Z 1) with 1 in Hfu.
  assert (H1 : inject_Z n < inject_Z (Qfloor x) + 1) by lra.
  assert (H2 : inject_Z (Qfloor x) < inject_Z n + 1) by lra.
  change 1 with (inject_Z 1) in H1, H2.
  rewrite <- inject_Z_plus, <- Zlt_Qlt in H1, H2. lia.
Qed.

Lemma Qfloor_minus_1 (x : Q) : Qfloor (x - 1) = (Qfloor x - 1)%Z.
Proof.
  pose proof (Qfloor_le x) as Hfl. pose proof (Qlt_floor x) as Hfu.
  rewrite inject_Z_plus in Hfu. change (inject_Z 1) with 1 in Hfu.
  replace (Qfloor x - 1)%Z with (Qfloor x + -1)%Z by lia.
  apply Qfloor_unique; rewrite inject_Z_plus;
    change (inject_Z (-1)) with (-1 # 1); lra.
Qed.

(** [int(x)] is the floor on non-negative numbers. *)
Lemma Qtrunc_nonneg (x : Q) : 0 <= x -> Exact.Qtrunc x = Qfloor x.
Proof.
  destruct x as [p q]. unfold Qle, Exact.Qtrunc, Qfloor. cbn.
  intro Hp. apply Z.quot_div_nonneg; lia.
Qed.

(** [int(x)] is the ceiling on non-positive numbers. *)
Lemma Qtrunc_nonpos (x : Q) : x <= 0 -> Exact.Qtrunc x = Qceiling x.
Proof.
  destruct x as [p q]. unfold Qle, Exact.Qtrunc, Qceiling, Qfloor. cbn.
  intro Hp. rewrite <- (Z.opp_involutive p) at 1.
  rewrite Z.quot_opp_l by lia. f_equal. apply Z.quot_div_nonneg; lia.
Qed.

(** An integer is its own rounding. *)
Lemma Qround_even_integer (x : Q) (n : Z) :
  x == inject_Z n -> Exact.Qround_even x = n.
Proof.
  intro Hx. unfold Exact.Qround_even. cbv zeta.
  rewrite (Qfloor_comp _ _ Hx), Qfloor_Z.
  assert (Hlt : x - inject_Z n < 1 # 2) by (rewrite Hx; lra).
  destruct (Qcompare (x - inject_Z n) (1 # 2)) eqn:E; [|reflexivity|].
  - apply Qeq_alt in E. lra.
  - apply Qgt_alt in E. lra.
Qed.

(** The exact [divmod] on a positive divisor: the quotient is the floor and
    the remainder lies in [[0, y)]. *)
Lemma Qdivmod_pos (x y : Q) :
  0 < y ->
  exists r, Exact.Qdivmod x y = Return (inject_Z (Qfloor (x / y)), r)
            /\ r == x - inject_Z (Qfloor (x / y)) * y
            /\ 0 <= r /\ r < y.
Proof.
  intros Hy. unfold Exact.Qdivmod.
  rewrite Qeq_bool_false_of_neq by lra.
  eexists; split; [reflexivity|]. rewrite Qred_correct.
  split; [reflexivity|].
  assert (Hx : x == (x / y) * y) by (field; lra).
  pose proof (Qfloor_le (x / y)) as Hl.
  pose proof (Qlt_floor (x / y)) as Hu.
  rewrite inject_Z_plus in Hu. change (inject_Z 1) with 1 in Hu.
  set (q := x / y) in *. set (d := inject_Z (Qfloor q)) in *.
  split; rewrite Hx at 1; nra.
Qed.

(** The exact [%] on a positive divisor. *)
Lemma Qpymod_pos (x y : Q) :
  0 < y ->
  exists r, Exact.Qpymod x y = Return r
            /\ r == x - inject_Z (Qfloor (x / y)) * y.
Proof.
  intros Hy. unfold Exact.Qpymod.
  rewrite Qeq_bool_false_of_neq by lra.
  eexists; split; [reflexivity|]. now rewrite Qred_correct.
Qed.

(** [floor(a) + floor(N - a)] is [N] when [a] is an integer and [N - 1]
    otherwise. *)
Lemma Qfloor_complement (a : Q) (N : Z) :
  (Qfloor a + Qfloor (inject_Z N - a) = N
   /\ a == inject_Z (Qfloor a))%Z
  \/ (Qfloor a + Qfloor (inject_Z N - a) = N - 1
      /\ ~ a == inject_Z (Qfloor a))%Z.
Proof.
  pose proof (Qfloor_le a) as Hfl. pose proof (Qlt_floor a) as Hfu.
  rewrite inject_Z_plus in Hfu. change (inject_Z 1) with 1 in Hfu.
  destruct (Qeq_dec a (inject_Z (Qfloor a))) as [E | E].
  - left. split; [|exact E].
    assert (Qfloor (inject_Z N - a) = N + - Qfloor a)%Z; [|lia].
    apply Qfloor_unique; rewrite inject_Z_plus, inject_Z_opp; lra.
  - right. split; [|exact E].
    assert (Qfloor (inject_Z N - a) = N + - Qfloor a + -1)%Z; [|lia].
    apply Qfloor_unique;
      rewrite !inject_Z_plus, inject_Z_opp; change (inject_Z (-1)) with (-1 # 1); lra.
Qed.

(** ** [adjust_dt] *)

(** The two ways [adjust_dt] returns in exact arithmetic: with a remainder
    [r] of at most [DOLFIN_EPS] the step is kept, otherwise the interval is
    cut into [d + 1] equal steps. *)
Lemma adjust_dt_exact_cases (t0 T k : Q) :
  t0 < T -> 0 < k ->
  let x := T - t0 in
  let d := Qfloor (x / k) in
  let r := x - inject_Z d * k in
  (0 <= d)%Z /\ 0 <= r < k /\
  ((r <= DOLFIN_EPS /\ adjust_dt t0 T k = Return k) \/
   (DOLFIN_EPS < r /\ exists k', adjust_dt t0 T k = Return k'
                                 /\ k' == x / inject_Z (d + 1))).
Proof.
  intros HT Hk x d r.
  assert (Hx : 0 < x) by (unfold x; lra).
  assert (Hq : 0 < x / k) by (apply Qlt_shift_div_l; lra).
  assert (Hd : (0 <= d)%Z).
  { unfold d. change 0%Z with (Qfloor 0). apply Qfloor_resp_le. lra. }
  destruct (Qdivmod_pos (Qred x) k Hk) as (r' & Hdm & Hr' & Hr0 & Hrk).
  assert (Hfl : Qfloor (Qred x / k) = d)
    by (unfold d; apply Qfloor_comp; now rewrite Qred_correct).
  rewrite Hfl in Hdm, Hr'. rewrite Qred_correct in Hr'. fold r in Hr'.
  split; [exact Hd|]. split; [rewrite <- Hr'; split; assumption|].
  unfold adjust_dt. cbn [divmod fsub Exact.arith]. fold x. rewrite Hdm.
  cbn [bind]. unfold fgt. cbn [flt Exact.arith truediv fadd of_int].
  destruct (Exact.Qltb DOLFIN_EPS r') eqn:E.
  - right. apply Qltb_true_iff in E. split; [now rewrite <- Hr'|].
    unfold Exact.Qtruediv.
    pose proof (inject_Z_nonneg d Hd) as Hd0.
    rewrite Qeq_bool_false_of_neq
      by (rewrite Qred_correct; change (inject_Z 1) with 1; lra).
    eexists; split; [reflexivity|].
    rewrite !Qred_correct, inject_Z_plus. reflexivity.
  - left. apply Qltb_false_iff in E. split; [now rewrite <- Hr'|reflexivity].
Qed.

(** C7, amended.  In exact arithmetic, for all [T > t0] and [k > 0],
    [adjust_dt] returns a step [k'] with [0 < k' <= k] whose remainder
    [(T - t0) % k'] lies between [0] and [DOLFIN_EPS].  On binary64 neither
    bound holds in general: on the interval from [0] to [3e15] the step
    [0.97] comes back as [0.9700000000000001], larger than it was and with
    a remainder of [0.879].  On binary64 the example [t0 = 0], [T = 1.0],
    [k = 0.3] returns [0.25], and for each of the steps
    [k = 0.01, 0.02, ..., 1.0] on that interval [k' <= k] and the remainder
    is within [1e-15] of [0] or of [k']. *)
Theorem adjust_dt_divides_evenly (t0 T k : Q) :
  t0 < T -> 0 < k ->
  (exists k' r,
      adjust_dt t0 T k = Return k'
      /\ 0 < k' /\ k' <= k
      /\ pymod (fsub T t0) k' = Return r
      /\ 0 <= r /\ r <= DOLFIN_EPS)
  /\ (adjust_dt 0%float 3e15%float 0.97%float
      = Return 0.9700000000000001%float
      /\ flt 0.97%float 0.9700000000000001%float = true
      /\ pymod (fsub 3e15%float 0%float) 0.9700000000000001%float
         = Return 0.8790403612221283%float)
  /\ adjust_dt 0%float 1%float 0.3%float = Return 0.25%float
  /\ on_grid 100 (divides_within 1e-15%float 0%float 1%float) = true.
Proof.
  intros HT Hk.
  split; [|split; [vm_compute; repeat split | split; vm_compute; reflexivity]].
  destruct (adjust_dt_exact_cases t0 T k HT Hk) as (Hd & (Hr0 & Hrk) & Hcase).
  set (x := T - t0) in *. set (d := Qfloor (x / k)) in *.
  assert (Hx : 0 < x) by (unfold x; lra).
  cbn [pymod fsub Exact.arith]. fold x.
  destruct Hcase as [(Hle & Heq) | (Hlt & k' & Heq & Hk')].
  - destruct (Qpymod_pos (Qred x) k Hk) as (r & Hr & Hrv).
    exists k, r. repeat split; try assumption; try lra.
    + rewrite Hrv, !Qred_correct. fold d. exact Hr0.
    + rewrite Hrv, !Qred_correct. fold d. exact Hle.
  - pose proof (inject_Z_nonneg d Hd) as Hd0.
    assert (Hd1 : 0 < inject_Z (d + 1))
      by (rewrite inject_Z_plus; change (inject_Z 1) with 1; lra).
    assert (Hk'pos : 0 < k') by (rewrite Hk'; apply Qlt_shift_div_l; lra).
    destruct (Qpymod_pos (Qred x) k' Hk'pos) as (r & Hr & Hrv).
    assert (Hquot : Qred x / k' == inject_Z (d + 1)).
    { rewrite Qred_correct, Hk'. field. split; lra. }
    assert (Hr0' : r == 0).
    { rewrite Hrv, (Qfloor_comp _ _ Hquot), Qfloor_Z, Qred_correct, Hk'.
      field. lra. }
    exists k', r. repeat split; try assumption.
    + rewrite Hk'. apply Qle_shift_div_r; [exact Hd1|].
      rewrite inject_Z_plus. change (inject_Z 1) with 1. lra.
    + rewrite Hr0'. lra.
    + rewrite Hr0'. apply DOLFIN_EPS_nonneg.
Qed.

Lemma adjust_dt_divides_evenly_witness :
  0 < 1 /\ 0 < 3 # 10 /\
  (exists k' r,
      adjust_dt 0 1 (3 # 10) = Return k'
      /\ 0 < k' /\ k' <= 3 # 10
      /\ pymod (fsub 1 0) k' = Return r
      /\ 0 <= r /\ r <= DOLFIN_EPS).
Proof.
  assert (H1 : 0 < 1) by reflexivity.
  assert (H2 : 0 < 3 # 10) by reflexivity.
  split; [exact H1|]. split; [exact H2|].
  exact (proj1 (adjust_dt_divides_evenly 0 1 (3 # 10) H1 H2)).
Defined.

(** On binary64, [t0 = 0], [T = 1.0], [k = 0.1]: the step is returned as it
    is, and the remainder [(T - t0) % k'] is [0.09999999999999995], just
    under [k'] and far from [0]. *)
Lemma adjust_dt_remainder_binary64 :
  adjust_dt 0%float 1%float 0.1%float = Return 0.1%float
  /\ pymod (fsub 1%float 0%float) 0.1%float = Return 0.09999999999999995%float
  /\ flt 0.09999999999999995%float 0.09%float = false.
Proof. vm_compute. repeat split. Qed.

(** C10, amended.  In exact arithmetic [adjust_dt] is idempotent: for all
    [T > t0] and [k > 0] it returns a step that a second call returns
    unchanged.  On binary64 so it is on the interval from [t0 = 0] to
    [T = 1.0] for [k = 0.3] (both calls return [0.25]) and for each of
    the steps [k = 0.01, 0.02, ..., 1.0]. *)
Theorem adjust_dt_idempotent_exact (t0 T k : Q) :
  t0 < T -> 0 < k ->
  (exists k', adjust_dt t0 T k = Return k' /\ adjust_dt t0 T k' = Return k')
  /\ (adjust_dt 0%float 1%float 0.3%float = Return 0.25%float
      /\ adjust_dt 0%float 1%float 0.25%float = Return 0.25%float)
  /\ on_grid 100 (idempotent_at 0%float 1%float) = true.
Proof.
  intros HT Hk.
  split; [|split; [vm_compute; split; reflexivity | vm_compute; reflexivity]].
  destruct (adjust_dt_exact_cases t0 T k HT Hk) as (Hd & (Hr0 & Hrk) & Hcase).
  set (x := T - t0) in *. set (d := Qfloor (x / k)) in *.
  assert (Hx : 0 < x) by (unfold x; lra).
  destruct Hcase as [(Hle & Heq) | (Hlt & k' & Heq & Hk')].
  - exists k. split; exact Heq.
  - exists k'. split; [exact Heq|].
    pose proof (inject_Z_nonneg d Hd) as Hd0.
    assert (Hd1 : 0 < inject_Z (d + 1))
      by (rewrite inject_Z_plus; change (inject_Z 1) with 1; lra).
    assert (Hk'pos : 0 < k') by (rewrite Hk'; apply Qlt_shift_div_l; lra).
    destruct (adjust_dt_exact_cases t0 T k' HT Hk'pos)
      as (_ & _ & [(_ & Heq') | (Hlt' & _)]); [exact Heq'|].
    exfalso. fold x in Hlt'.
    assert (Hquot : x / k' == inject_Z (d + 1)).
    { rewrite Hk'. field. split; lra. }
    rewrite (Qfloor_comp _ _ Hquot), Qfloor_Z, Hk' in Hlt'.
    assert (E : x - inject_Z (d + 1) * (x / inject_Z (d + 1)) == 0)
      by (field; lra).
    rewrite E in Hlt'. pose proof DOLFIN_EPS_nonneg. lra.
Qed.

Lemma adjust_dt_idempotent_exact_witness :
  0 < 5 /\ 0 < 13 # 100 /\
  exists k', adjust_dt 0 5 (13 # 100) = Return k'
             /\ adjust_dt 0 5 k' = Return k'.
Proof.
  assert (H1 : 0 < 5) by reflexivity.
  assert (H2 : 0 < 13 # 100) by reflexivity.
  split; [exact H1|]. split; [exact H2|].
  exact (proj1 (adjust_dt_idempotent_exact 0 5 (13 # 100) H1 H2)).
Defined.

(** On binary64, [t0 = 0], [T = 5.0], [k = 0.13]: the first call returns
    [5/39] rounded, whose remainder [4.4e-16] exceeds [DOLFIN_EPS], so a
    second call shortens the step again, to [0.125]. *)
Lemma adjust_dt_not_idempotent_binary64 :
  adjust_dt 0%float 5%float 0.13%float = Return 0.1282051282051282%float
  /\ divmod (fsub 5%float 0%float) 0.1282051282051282%float
     = Return (39%float, 4.440892098500626e-16%float)
  /\ adjust_dt 0%float 5%float 0.1282051282051282%float = Return 0.125%float.
Proof. vm_compute. repeat split. Qed.

(** ** The time loop *)

(** More fuel does not change what the loop returns. *)
Lemma time_loop_fuel_mono {F : Type} `{PyFloat F} {B : Backend F}
      (mesh : Mesh) (T k : F) (fuel : nat) :
  forall (s r : stepper) (fuel' : nat),
    time_loop fuel mesh T k s = Return r -> (fuel <= fuel')%nat ->
    time_loop fuel' mesh T k s = Return r.
Proof.
  induction fuel as [|fuel IH]; intros s r fuel' Hr Hle; [discriminate|].
  destruct fuel' as [|fuel']; [lia|].
  cbn [time_loop] in *.
  destruct (truediv k (of_int 2)) as [h| |]; cbn [bind] in *; try discriminate.
  destruct (flt (ts_t s) (fsub T h)); [|exact Hr].
  apply IH; [exact Hr | lia].
Qed.

Section TimeLoopExact.

Context {B : Backend Q}.
Variables (mesh : Mesh) (T k : Q).
Hypothesis Hk : 0 < k.

(** The guard [t < T - k / 2.] in exact arithmetic. *)
Lemma time_loop_guard (s : stepper) :
  exists h, truediv k (of_int 2) = Return h
            /\ (flt (ts_t s) (fsub T h) = true <-> ts_t s < T - k * (1 # 2)).
Proof.
  cbn [truediv of_int Exact.arith flt fsub]. unfold Exact.Qtruediv.
  change (Qeq_bool (inject_Z 2) 0) with false. cbv iota.
  eexists; split; [reflexivity|].
  rewrite Qltb_true_iff, !Qred_correct.
  assert (Hh : k / inject_Z 2 == k * (1 # 2)) by (field; discriminate).
  now rewrite Hh.
Qed.

(** From [j] steps before [T], the loop runs [j] more passes and stops
    at [T]. *)
Lemma time_loop_exact (j : nat) :
  forall (fuel : nat) (s : stepper),
    ts_t s == T - inject_Z (Z.of_nat j) * k ->
    (j < fuel)%nat ->
    exists s', time_loop fuel mesh T k s = Return s'
               /\ ts_t s' == T
               /\ length (ts_solved s') = (length (ts_solved s) + j)%nat.
Proof.
  induction j as [|j IH]; intros fuel s Ht Hfuel;
    (destruct fuel as [|fuel]; [lia|]);
    destruct (time_loop_guard s) as (h & Hh & Hguard);
    cbn [time_loop]; rewrite Hh; cbn [bind].
  - change (inject_Z (Z.of_nat 0)) with 0 in Ht.
    assert (E : flt (ts_t s) (fsub T h) = false)
      by (apply not_true_is_false; intro E; apply Hguard in E; lra).
    rewrite E. exists s. repeat split; [lra | lia].
  - rewrite Nat2Z.inj_succ, <- Z.add_1_r, inject_Z_plus in Ht.
    change (inject_Z 1) with 1 in Ht.
    pose proof (inject_Z_nonneg (Z.of_nat j) (Nat2Z.is_nonneg j)) as Hj.
    assert (E : flt (ts_t s) (fsub T h) = true) by (apply Hguard; nra).
    rewrite E.
    destruct (IH fuel (time_step_body mesh k s)) as (s' & Hs' & Ht' & Hlen).
    + cbn [time_step_body ts_t fadd Exact.arith]. rewrite Qred_correct, Ht. ring.
    + lia.
    + exists s'. repeat split; [exact Hs' | exact Ht' |].
      rewrite Hlen. cbn [time_step_body ts_solved]. rewrite length_app.
      cbn [length]. lia.
Qed.

End TimeLoopExact.

(** ** The time loop with its updates *)

Section MonitoredRuns.

Context {F : Type} `{PyFloat F} {B : Backend F}.
Variables (so : Monitored.save_options) (T : F).

(** What a call of [update] that returns has done. *)
Lemma update_effect (t : option F) (w : Fn) (dual : bool)
      (mon mon' : Monitored.monitor) :
  Monitored.update so T t w dual mon = Return mon' ->
  Monitored._t mon'
  = (if negb dual || (match t with Some _ => true | None => false end)
     then Monitored._t mon ++ [t] else Monitored._t mon)
  /\ Monitored._timestep mon'
     = (Monitored._timestep mon
        + match t with Some _ => 1 | None => 0 end)%Z
  /\ Monitored.saved mon'
     = Monitored.saved mon
       ++ Monitored.scheduled so T dual (Monitored._timestep mon) [w].
Proof.
  unfold Monitored.update, Monitored.Save. cbn [Monitored.scheduled].
  rewrite app_nil_r.
  destruct t as [t'|].
  - destruct (truediv (fmul (of_int 100) t') T); cbn [bind];
      try discriminate.
    intros [= <-]. rewrite orb_true_r.
    cbn [Monitored._t Monitored._timestep Monitored.saved].
    destruct (Monitored.saveSolution so);
      cbn [andb Monitored._t Monitored._timestep Monitored.saved];
      [destruct (Monitored.save_due so T (Monitored._timestep mon))|];
      cbn [Monitored._t Monitored._timestep Monitored.saved];
      rewrite ?app_nil_r; repeat split.
  - intros [= <-]. rewrite orb_false_r, Z.add_0_r.
    destruct dual; cbn [negb];
      destruct (Monitored.saveSolution so);
      cbn [andb Monitored._t Monitored._timestep Monitored.saved];
      try destruct (Monitored.save_due so T (Monitored._timestep mon));
      cbn [Monitored._t Monitored._timestep Monitored.saved];
      rewrite ?app_nil_r; repeat split.
Qed.

(** [update] returns when the progress percentage can be computed. *)
Lemma update_returns (t : option F) (w : Fn) (dual : bool)
      (mon : Monitored.monitor) :
  (forall x, returned (truediv x T) = true) ->
  exists mon', Monitored.update so T t w dual mon = Return mon'.
Proof.
  intro Hperc. unfold Monitored.update. destruct t as [t'|].
  - specialize (Hperc (fmul (of_int 100) t')).
    destruct (truediv (fmul (of_int 100) t') T); try discriminate.
    cbn [bind]. eexists. reflexivity.
  - eexists. reflexivity.
Qed.

Variables (mesh : Mesh) (k : F).

(** A monitored run of the time loop that returns is a run of the time
    loop, with one update per pass. *)
Lemma monitored_time_loop_trace (fuel : nat) :
  forall (s s' : stepper) (mon mon' : Monitored.monitor),
    Monitored.time_loop fuel so mesh T k s mon = Return (s', mon') ->
    time_loop fuel mesh T k s = Return s'
    /\ exists new,
         ts_solved s' = ts_solved s ++ new
         /\ Monitored._t mon' = Monitored._t mon ++ map Some new
         /\ Monitored._timestep mon'
            = (Monitored._timestep mon + Z.of_nat (length new))%Z
         /\ Monitored.saved mon'
            = Monitored.saved mon
              ++ Monitored.scheduled so T false (Monitored._timestep mon)
                   (states mesh k (ts_w_ s) new).
Proof.
  induction fuel as [|fuel IH]; intros s s' mon mon' Hrun; [discriminate|].
  cbn [Monitored.time_loop time_loop] in *.
  destruct (truediv k (of_int 2)) as [h| |]; cbn [bind] in *;
    try discriminate.
  destruct (flt (ts_t s) (fsub T h)).
  - cbv zeta in Hrun.
    destruct (Monitored.update so T (Some (ts_t (time_step_body mesh k s)))
                (ts_w_ (time_step_body mesh k s)) false mon)
      as [mon1| |] eqn:Hup; cbn [bind] in Hrun; try discriminate.
    apply update_effect in Hup. destruct Hup as (Ht1 & Hts1 & Hsv1).
    apply IH in Hrun. destruct Hrun as (Hrun & new & Hs & Ht & Hts & Hsv).
    split; [exact Hrun|].
    cbn [time_step_body ts_t ts_w_ ts_solved] in *.
    exists (fadd (ts_t s) k :: new).
    split; [rewrite Hs, <- app_assoc; reflexivity|].
    split; [rewrite Ht, Ht1; cbn [negb orb map]; now rewrite <- app_assoc|].
    split; [rewrite Hts, Hts1; cbn [length]; lia|].
    rewrite Hsv, Hsv1, Hts1, <- app_assoc. cbn [states Monitored.scheduled].
    now rewrite app_nil_r.
  - injection Hrun as <- <-. split; [reflexivity|].
    exists []. cbn. rewrite !app_nil_r, Z.add_0_r. repeat split.
Qed.

(** Without the monitor, a monitored run of the time loop is the run of
    the time loop, when the percentage can be computed. *)
Lemma monitored_time_loop_erase (fuel : nat) :
  (forall x, returned (truediv x T) = true) ->
  forall (s : stepper) (mon : Monitored.monitor),
    bind (Monitored.time_loop fuel so mesh T k s mon)
         (fun r => Return (fst r))
    = time_loop fuel mesh T k s.
Proof.
  intro Hperc.
  induction fuel as [|fuel IH]; intros s mon; [reflexivity|].
  cbn [Monitored.time_loop time_loop].
  destruct (truediv k (of_int 2)) as [h| |]; cbn [bind]; try reflexivity.
  destruct (flt (ts_t s) (fsub T h)); [|reflexivity].
  cbv zeta.
  destruct (update_returns (Some (ts_t (time_step_body mesh k s)))
              (ts_w_ (time_step_body mesh k s)) false mon Hperc)
    as (mon1 & ->).
  cbn [bind]. apply IH.
Qed.

End MonitoredRuns.

(** What a monitored [timeStepper] that returns has recorded. *)
Lemma monitored_timeStepper_trace {F : Type} `{PyFloat F} {B : Backend F}
      (fuel : nat) (so : Monitored.save_options) (mesh : Mesh)
      (t T k : F) (w w_ : Fn) (func : bool) (mon mon' : Monitored.monitor)
      (s : stepper) :
  Monitored.timeStepper fuel so mesh t T k w w_ func mon = Return (s, mon') ->
  timeStepper fuel mesh t T k w w_ func = Return s
  /\ Monitored._t mon'
     = Monitored._t mon ++ Some t :: map Some (ts_solved s)
  /\ Monitored._timestep mon'
     = (Monitored._timestep mon + Z.of_nat (length (ts_solved s)) + 1)%Z
  /\ Monitored.saved mon'
     = Monitored.saved mon
       ++ Monitored.scheduled so T false (Monitored._timestep mon)
            (w_ :: states mesh k w_ (ts_solved s)).
Proof.
  unfold Monitored.timeStepper, timeStepper.
  destruct (Monitored.update so T (Some t) w_ false mon) as [mon0| |] eqn:Hup;
    cbn [bind]; try discriminate.
  apply update_effect in Hup. destruct Hup as (Ht0 & Hts0 & Hsv0).
  intro Hrun. apply monitored_time_loop_trace in Hrun.
  destruct Hrun as (Hrun & new & Hs & Ht & Hts & Hsv).
  cbn [ts_solved ts_w_ app] in Hs, Hsv. subst new.
  split; [exact Hrun|].
  split; [rewrite Ht, Ht0; cbn [negb orb]; now rewrite <- app_assoc|].
  split; [rewrite Hts, Hts0; lia|].
  rewrite Hsv, Hsv0, Hts0, <- app_assoc. cbn [Monitored.scheduled].
  now rewrite app_nil_r.
Qed.

(** Without the monitor, a monitored [timeStepper] is the time loop and its
    set-up, when the percentage can be computed. *)
Lemma monitored_timeStepper_erase {F : Type} `{PyFloat F} {B : Backend F}
      (fuel : nat) (so : Monitored.save_options) (mesh : Mesh)
      (t T k : F) (w w_ : Fn) (func : bool) (mon : Monitored.monitor) :
  (forall x, returned (truediv x T) = true) ->
  bind (Monitored.timeStepper fuel so mesh t T k w w_ func mon)
       (fun r => Return (fst r))
  = timeStepper fuel mesh t T k w w_ func.
Proof.
  intro Hperc. unfold Monitored.timeStepper, timeStepper.
  destruct (update_returns so T (Some t) w_ false mon Hperc) as (mon0 & ->).
  cbn [bind]. now apply monitored_time_loop_erase.
Qed.

(** When the percentage can be computed, [timeStepper] returns where its
    time loop does, with the run recorded in the monitor. *)
Lemma monitored_timeStepper_returns {F : Type} `{PyFloat F} {B : Backend F}
      (fuel : nat) (so : Monitored.save_options) (mesh : Mesh)
      (t T k : F) (w w_ : Fn) (func : bool) (mon : Monitored.monitor)
      (s : stepper) :
  (forall x, returned (truediv x T) = true) ->
  timeStepper fuel mesh t T k w w_ func = Return s ->
  Monitored.timeStepper fuel so mesh t T k w w_ func mon
  = Return (s,
            {| Monitored._t :=
                 Monitored._t mon ++ Some t :: map Some (ts_solved s);
               Monitored._timestep :=
                 (Monitored._timestep mon
                  + Z.of_nat (length (ts_solved s)) + 1)%Z;
               Monitored.saved :=
                 Monitored.saved mon
                 ++ Monitored.scheduled so T false (Monitored._timestep mon)
                      (w_ :: states mesh k w_ (ts_solved s)) |}).
Proof.
  intros Hperc Hplain.
  pose proof (monitored_timeStepper_erase fuel so mesh t T k w w_ func mon
                Hperc) as Herase.
  rewrite Hplain in Herase.
  destruct (Monitored.timeStepper fuel so mesh t T k w w_ func mon)
    as [[s' mon']| |] eqn:Hrun; cbn [bind fst] in Herase; try discriminate.
  injection Herase as ->.
  apply monitored_timeStepper_trace in Hrun.
  destruct Hrun as (_ & Ht & Hts & Hsv).
  destruct mon' as [t' ts' sv'].
  cbn [Monitored._t Monitored._timestep Monitored.saved] in Ht, Hts, Hsv.
  now rewrite Ht, Hts, Hsv.
Qed.

(** Where the time loop is still running, so is [timeStepper]. *)
Lemma monitored_timeStepper_diverges {F : Type} `{PyFloat F} {B : Backend F}
      (fuel : nat) (so : Monitored.save_options) (mesh : Mesh)
      (t T k : F) (w w_ : Fn) (func : bool) (mon : Monitored.monitor) :
  (forall x, returned (truediv x T) = true) ->
  timeStepper fuel mesh t T k w w_ func = OutOfFuel ->
  Monitored.timeStepper fuel so mesh t T k w w_ func mon = OutOfFuel.
Proof.
  intros Hperc Hplain.
  pose proof (monitored_timeStepper_erase fuel so mesh t T k w w_ func mon
                Hperc) as Herase.
  rewrite Hplain in Herase.
  now destruct (Monitored.timeStepper fuel so mesh t T k w w_ func mon).
Qed.

(** The percentage can be computed in exact arithmetic when the end time
    is not zero. *)
Lemma percentage_exact (T : Q) :
  ~ T == 0 -> forall x : Q, returned (truediv x T) = true.
Proof.
  intros HT x. cbn [truediv Exact.arith]. unfold Exact.Qtruediv.
  now rewrite Qeq_bool_false_of_neq.
Qed.


(** C8, amended.  In exact arithmetic, for every end time [T > t0] that is
    not zero ([T] is [problem.T]) and every step [k > 0] with
    [T - t0 = n * k] for an integer [n], [timeStepper] returns on every fuel
    budget above [n], after exactly [n = round((T - t0) / k)] solve steps,
    with the final [t] equal to [T] and [n + 1] updates made.  With
    [problem.T = 0] it raises [ZeroDivisionError] in the update of the
    initial condition, before any step.  On binary64 the example [t0 = 0],
    [T = 1.0], [k = 0.25] solves at the 4 times [0.25, 0.5, 0.75, 1.0] and
    ends at [t = 1.0], and for each of the nominal steps
    [k = 0.01, 0.02, ..., 1.0] on that interval the method run with the
    adjusted step makes [round((T - t0) / k')] steps and ends within
    [1e-12] of [T]. *)
Theorem timeStepper_step_count {B : Backend Q} (so : Monitored.save_options)
        (mesh : Mesh) (t0 T k : Q) (n : Z) (w w_ : Fn) (func : bool)
        (mon : Monitored.monitor) :
  t0 < T -> 0 < k -> T - t0 == inject_Z n * k -> ~ T == 0 ->
  (exists q s mon',
      truediv (fsub T t0) k = Return q /\ round_ q = Return n
      /\ (forall fuel, (Z.to_nat n < fuel)%nat ->
                       Monitored.timeStepper fuel so mesh t0 T k w w_ func mon
                       = Return (s, mon'))
      /\ length (ts_solved s) = Z.to_nat n
      /\ ts_t s == T
      /\ Monitored._timestep mon' = (Monitored._timestep mon + n + 1)%Z)
  /\ (forall fuel t k',
         Monitored.timeStepper fuel so mesh t 0 k' w w_ func mon
         = Raise ZeroDivisionError)
  /\ bind (Monitored.timeStepper (B := Example.backend) 5
             {| Monitored.saveSolution := false; Monitored.saveFrequency := 1 |}
             5%nat 0%float 1%float 0.25%float 0%float 1%float true
             {| Monitored._t := []; Monitored._timestep := 0;
                Monitored.saved := [] |})
          (fun r => Return (ts_t (fst r), ts_solved (fst r),
                            Monitored._timestep (snd r)))
     = Return (1%float, [0.25; 0.5; 0.75; 1]%float, 5%Z)
  /\ on_grid 100 (step_count_ok (B := Example.backend) 200 5%nat
                                1e-12%float 0%float 1%float) = true.
Proof.
  intros HT Hk Hn HT0. split.
  - assert (Hn0 : (0 < n)%Z).
    { rewrite Zlt_Qlt. change (inject_Z 0) with 0.
      destruct (Qlt_le_dec 0 (inject_Z n)) as [|Hle]; [assumption|]. nra. }
    destruct (time_loop_exact mesh T k Hk (Z.to_nat n) (S (Z.to_nat n))
                {| ts_t := t0; ts_w := w; ts_w_ := w_;
                   ts_m := if func then Some (fmul k (functional mesh w_))
                           else None;
                   ts_solved := [] |})
      as (s & Hrun & Ht & Hlen).
    { cbn [ts_t]. rewrite Z2Nat.id by lia. lra. }
    { lia. }
    cbn [ts_solved length Nat.add] in Hlen.
    cbn [truediv fsub round_ Exact.arith]. unfold Exact.Qtruediv.
    rewrite Qeq_bool_false_of_neq by lra.
    eexists. exists s. eexists. split; [reflexivity|].
    split.
    { f_equal. apply Qround_even_integer.
      rewrite !Qred_correct, Hn. field. lra. }
    split; [|split; [exact Hlen | split; [exact Ht|]]].
    + intros fuel Hfuel.
      apply monitored_timeStepper_returns; [now apply percentage_exact|].
      unfold timeStepper.
      apply (time_loop_fuel_mono mesh T k (S (Z.to_nat n))); [exact Hrun | lia].
    + cbn [Monitored._timestep]. rewrite Hlen. lia.
  - split; [intros; reflexivity|]. split; vm_compute; reflexivity.
Qed.

Lemma timeStepper_step_count_witness :
  let so := {| Monitored.saveSolution := false; Monitored.saveFrequency := 1 |} in
  let mon := {| Monitored._t := []; Monitored._timestep := 0;
                Monitored.saved := [] |} in
  0 < 1 /\ 0 < 1 # 4 /\ 1 - 0 == inject_Z 4 * (1 # 4) /\ ~ 1 == 0
  /\ exists s mon',
       (forall fuel, (4 < fuel)%nat ->
                     Monitored.timeStepper (B := Example.backend) fuel so 5%nat
                                           0 1 (1 # 4) 0 1 true mon
                     = Return (s, mon'))
       /\ length (ts_solved s) = 4%nat
       /\ ts_t s == 1
       /\ Monitored._timestep mon' = 5%Z.
Proof.
  intros so mon.
  assert (H1 : 0 < 1) by reflexivity.
  assert (H2 : 0 < 1 # 4) by reflexivity.
  assert (H3 : 1 - 0 == inject_Z 4 * (1 # 4)) by reflexivity.
  assert (H4 : ~ 1 == 0) by discriminate.
  repeat (split; [assumption|]).
  destruct (proj1 (timeStepper_step_count (B := Example.backend) so
                     5%nat 0 1 (1 # 4) 4 0 1 true mon H1 H2 H3 H4))
    as (q & s & mon' & _ & _ & Hrun & Hlen & Ht & Hts).
  exists s, mon'. split; [exact Hrun|]. split; [exact Hlen|].
  split; [exact Ht | exact Hts].
Defined.

(** On binary64, from [t = 2^53] a step of [1] is lost to rounding, so the
    time never moves. *)
Lemma time_loop_absorbed (fuel : nat) :
  forall s : stepper (B := Example.backend),
    ts_t s = 9007199254740992%float ->
    time_loop fuel 5%nat 9007199254740996%float 1%float s = OutOfFuel.
Proof.
  induction fuel as [|fuel IH]; intros s Hs; [reflexivity|].
  cbn [time_loop].
  replace (truediv 1%float (of_int 2)) with (Return 0.5%float)
    by (vm_compute; reflexivity).
  cbn [bind]. rewrite Hs.
  replace (flt 9007199254740992%float (fsub 9007199254740996%float 0.5%float))
    with true by (vm_compute; reflexivity).
  apply IH. cbn [time_step_body ts_t]. rewrite Hs. vm_compute. reflexivity.
Qed.

(** On binary64, [t0 = 2^53], [T = 2^53 + 4], [k = 1]: the step is left as
    it is by [adjust_dt], divides [T - t0] with remainder [0] and
    [round((T - t0) / k)] is [4], yet [t + k] is [t] again and
    [timeStepper] does not return on any fuel budget. *)
Lemma time_loop_never_advances :
  adjust_dt 9007199254740992%float 9007199254740996%float 1%float
  = Return 1%float
  /\ pymod (fsub 9007199254740996%float 9007199254740992%float) 1%float
     = Return 0%float
  /\ bind (truediv (fsub 9007199254740996%float 9007199254740992%float) 1%float)
          round_ = Return 4%Z
  /\ fadd 9007199254740992%float 1%float = 9007199254740992%float
  /\ (forall fuel so w w_ func mon,
         Monitored.timeStepper (B := Example.backend) fuel so 5%nat
                               9007199254740992%float 9007199254740996%float
                               1%float w w_ func mon = OutOfFuel).
Proof.
  split; [vm_compute; reflexivity|].
  split; [vm_compute; reflexivity|].
  split; [vm_compute; reflexivity|].
  split; [vm_compute; reflexivity|].
  intros fuel so w w_ func mon.
  apply monitored_timeStepper_diverges; [intro x; reflexivity|].
  unfold timeStepper. now apply time_loop_absorbed.
Qed.

(** ** The checkpoint budget *)

(** C3, amended.  In exact arithmetic, for every step count [N >= 0] and
    fraction [f] in [[0, 1]]: when [f = 0] no budget is configured;
    otherwise [adj_checkpointing] gets [steps = N],
    [snaps_on_disk = floor(f * N)] and [snaps_in_ram = floor((1 - f) * N)],
    whose sum is [N] when [f * N] is an integer and [N - 1] when it is not.
    [N = 10] with [f = 0.3] gives [(7, 3)], on binary64 too.  On binary64
    the products are rounded before [int] cuts them, and a step can be lost
    although [f * N] is an integer: [N = 10] with [f = 0.9] gives 9 on disk
    and 0 in memory. *)
Theorem checkpoint_budget (f : Q) (N : Z) :
  (0 <= N)%Z -> 0 <= f -> f <= 1 ->
  ((f == 0 /\ configure_checkpointing f N = Return None)
   \/ (0 < f /\
       exists disk ram,
         configure_checkpointing f N
         = Return (Some {| steps := N; snaps_on_disk := disk;
                           snaps_in_ram := ram |})
         /\ disk = Qfloor (f * inject_Z N)
         /\ ram = Qfloor ((1 - f) * inject_Z N)
         /\ (N - 1 <= ram + disk <= N)%Z
         /\ ((ram + disk = N)%Z <-> f * inject_Z N == inject_Z disk)))
  /\ configure_checkpointing (3 # 10) 10
     = Return (Some {| steps := 10; snaps_on_disk := 3; snaps_in_ram := 7 |})
  /\ configure_checkpointing 0.3%float 10
     = Return (Some {| steps := 10; snaps_on_disk := 3; snaps_in_ram := 7 |})
  /\ (fmul 0.9%float (of_int 10) = 9%float
      /\ configure_checkpointing 0.9%float 10
         = Return (Some {| steps := 10; snaps_on_disk := 9;
                           snaps_in_ram := 0 |})).
Proof.
  intros HN Hf0 Hf1.
  split; [|split; [|split]; vm_compute; repeat split].
  pose proof (inject_Z_nonneg N HN) as HN'.
  unfold configure_checkpointing, onDisk_assertion, fgt, fge.
  cbn [fle flt of_int fmul fsub int_ Exact.arith].
  assert (Ha : Qle_bool f (inject_Z 1) = true) by (apply Qle_bool_iff; exact Hf1).
  rewrite Ha. cbn [orb negb].
  destruct (Exact.Qltb (inject_Z 0) f) eqn:E.
  - right. apply Qltb_true_iff in E. change (inject_Z 0) with 0 in E.
    split; [exact E|]. cbn [bind].
    assert (Hd : Exact.Qtrunc (Qred (f * inject_Z N)) = Qfloor (f * inject_Z N)).
    { rewrite Qtrunc_nonneg by (rewrite Qred_correct; nra).
      apply Qfloor_comp, Qred_correct. }
    assert (Hr : Exact.Qtrunc (Qred (Qred (inject_Z 1 - f) * inject_Z N))
                 = Qfloor ((1 - f) * inject_Z N)).
    { rewrite Qtrunc_nonneg
        by (rewrite !Qred_correct; change (inject_Z 1) with 1; nra).
      apply Qfloor_comp. rewrite !Qred_correct. reflexivity. }
    rewrite Hd, Hr. do 2 eexists. split; [reflexivity|].
    split; [reflexivity|]. split; [reflexivity|].
    assert (Hc : (1 - f) * inject_Z N == inject_Z N - f * inject_Z N) by ring.
    rewrite (Qfloor_comp _ _ Hc).
    destruct (Qfloor_complement (f * inject_Z N) N) as [(Hs & Hi) | (Hs & Hi)].
    + split; [lia|]. split; [intros _; exact Hi | intros _; lia].
    + split; [lia|]. split; [intro; lia | intro Hi'; contradiction].
  - left. apply Qltb_false_iff in E. change (inject_Z 0) with 0 in E.
    split; [lra | reflexivity].
Qed.

Lemma checkpoint_budget_witness :
  (0 <= 10)%Z /\ 0 <= 3 # 10 /\ 3 # 10 <= 1
  /\ exists disk ram,
       configure_checkpointing (3 # 10) 10
       = Return (Some {| steps := 10; snaps_on_disk := disk;
                         snaps_in_ram := ram |})
       /\ (ram + disk = 10)%Z.
Proof.
  assert (H1 : (0 <= 10)%Z) by lia.
  assert (H2 : 0 <= 3 # 10) by discriminate.
  assert (H3 : 3 # 10 <= 1) by discriminate.
  repeat (split; [assumption|]).
  destruct (proj1 (checkpoint_budget (3 # 10) 10 H1 H2 H3))
    as [(E & _) | (_ & disk & ram & Hcfg & Hd & Hr & _ & _)].
  - discriminate E.
  - exists disk, ram. split; [exact Hcfg|]. subst. reflexivity.
Defined.

(** [N = 10] with [f = 0.25], in both arithmetics: 2 snapshots on disk and
    7 in memory, 9 in all; and with [f = 0] nothing is configured. *)
Lemma checkpoint_budget_loses_a_step :
  configure_checkpointing (1 # 4) 10
  = Return (Some {| steps := 10; snaps_on_disk := 2; snaps_in_ram := 7 |})
  /\ configure_checkpointing 0.25%float 10
     = Return (Some {| steps := 10; snaps_on_disk := 2; snaps_in_ram := 7 |})
  /\ (7 + 2 <> 10)%Z
  /\ configure_checkpointing 0 10 = Return None
  /\ configure_checkpointing 0%float 10 = Return None.
Proof. vm_compute. repeat split; discriminate. Qed.

(** C6.  The assertion [onDisk <= 1. or onDisk >= 0.] holds of every
    number, so no fraction is rejected: with [onDisk = 2] and 10 steps
    [adj_checkpointing] is called with 20 snapshots on disk and -10 in
    memory, and with [onDisk = -0.5] the run goes on without
    checkpointing. *)
Theorem onDisk_assertion_never_fails :
  (forall f : Q, onDisk_assertion f = true)
  /\ configure_checkpointing 2 10
     = Return (Some {| steps := 10; snaps_on_disk := 20; snaps_in_ram := -10 |})
  /\ configure_checkpointing 2%float 10
     = Return (Some {| steps := 10; snaps_on_disk := 20; snaps_in_ram := -10 |})
  /\ configure_checkpointing (- (1 # 2)) 10 = Return None
  /\ configure_checkpointing (-0.5)%float 10 = Return None.
Proof.
  split; [|vm_compute; repeat split].
  intro f. unfold onDisk_assertion, fge. cbn [fle of_int Exact.arith].
  destruct (Qlt_le_dec 1 f) as [H1 | H1].
  - assert (E : Qle_bool (inject_Z 0) f = true)
      by (apply Qle_bool_iff; change (inject_Z 0) with 0; lra).
    rewrite E. apply orb_true_r.
  - assert (E : Qle_bool f (inject_Z 1) = true) by (apply Qle_bool_iff; exact H1).
    now rewrite E.
Qed.

(** ** The stopping metric *)

(** C1.  On the indicator field [[1, -1]], [condition] returns
    [|1 + (-1)| = 0], while the sum of the absolute values is [2], in both
    arithmetics. *)
Theorem condition_is_abs_of_sum :
  condition [1; -1] None None = 0 /\ sum_abs [1; -1] = 2
  /\ condition [1; -1]%float None None = 0%float
  /\ sum_abs [1; -1]%float = 2%float.
Proof. vm_compute. repeat split. Qed.

(** ** Sorting *)

Section SortGeneric.

Context {F : Type} `{PyFloat F}.

Lemma insert_desc_perm (x : F) (l : list F) :
  Permutation (insert_desc x l) (x :: l).
Proof.
  induction l as [|y l IH]; cbn [insert_desc]; [reflexivity|].
  destruct (fle y x); [reflexivity|].
  rewrite IH. apply perm_swap.
Qed.

Lemma sorted_desc_perm (l : list F) : Permutation (sorted_desc l) l.
Proof.
  induction l as [|x l IH]; cbn; [reflexivity|].
  fold (sorted_desc l). now rewrite insert_desc_perm, IH.
Qed.

Lemma sorted_desc_length (l : list F) : length (sorted_desc l) = length l.
Proof. apply Permutation_length, sorted_desc_perm. Qed.

End SortGeneric.

Lemma filter_length_perm {A} (f : A -> bool) (l l' : list A) :
  Permutation l l' -> length (filter f l) = length (filter f l').
Proof.
  induction 1 as [|x l l' _ IH|x y l|l l' l'' _ IH1 _ IH2]; cbn.
  - reflexivity.
  - destruct (f x); cbn; now rewrite IH.
  - destruct (f x), (f y); reflexivity.
  - now rewrite IH1.
Qed.

Lemma StronglySorted_skipn {A} (R : A -> A -> Prop) (n : nat) :
  forall l, StronglySorted R l -> StronglySorted R (skipn n l).
Proof.
  induction n as [|n IH]; intros l Hs; [exact Hs|].
  destruct l as [|a l]; [exact Hs|].
  apply IH. now apply StronglySorted_inv in Hs.
Qed.


Lemma insert_desc_sorted (x : Q) (l : list Q) :
  StronglySorted Qge_rel l -> StronglySorted Qge_rel (insert_desc x l).
Proof.
  induction 1 as [|y l Hs IH Hall]; cbn [insert_desc].
  - constructor; constructor.
  - cbn [fle Exact.arith]. destruct (Qle_bool y x) eqn:E.
    + apply Qle_bool_iff in E.
      constructor; [now constructor|].
      constructor; [exact E|].
      eapply Forall_impl; [|exact Hall]. unfold Qge_rel. intros a Ha. lra.
    + assert (Hxy : x <= y).
      { destruct (Qlt_le_dec y x) as [Hlt | Hle]; [|exact Hle].
        apply Qlt_le_weak, Qle_bool_iff in Hlt. congruence. }
      constructor; [exact IH|].
      eapply Permutation_Forall; [symmetry; apply insert_desc_perm|].
      constructor; [exact Hxy | exact Hall].
Qed.

Lemma sorted_desc_sorted (l : list Q) : StronglySorted Qge_rel (sorted_desc l).
Proof.
  induction l as [|x l IH]; cbn; [constructor|].
  now apply insert_desc_sorted.
Qed.

(** In a descending list at most [j] entries exceed the entry at index
    [j]. *)
Lemma sorted_exceeding (l : list Q) (j : nat) (g0 : Q) :
  StronglySorted Qge_rel l -> nth_error l j = Some g0 ->
  (length (filter (fun g => fgt g g0) l) <= j)%nat.
Proof.
  intros Hs Hj.
  rewrite <- (firstn_skipn j l), filter_app, length_app.
  assert (Htail : filter (fun g => fgt g g0) (skipn j l) = []).
  { pose proof (StronglySorted_skipn Qge_rel j l Hs) as Hs'.
    rewrite <- hd_error_skipn in Hj.
    destruct (skipn j l) as [|a tl]; [discriminate|].
    cbn in Hj. injection Hj as ->.
    apply StronglySorted_inv in Hs' as [_ Hall].
    cbn [filter]. unfold fgt at 1. cbn [flt Exact.arith].
    replace (Exact.Qltb g0 g0) with false
      by (symmetry; apply Qltb_false_iff; lra).
    induction Hall as [|b tl Hb _ IH]; [reflexivity|].
    cbn [filter]. unfold fgt at 1. cbn [flt Exact.arith].
    replace (Exact.Qltb g0 b) with false
      by (symmetry; apply Qltb_false_iff; exact Hb).
    exact IH. }
  rewrite Htail. cbn [length].
  pose proof (filter_length_le (fun g => fgt g g0) (firstn j l)).
  pose proof (firstn_le_length j l). lia.
Qed.

(** ** Cell marking *)

(** [getitem] at a position that exists. *)
Lemma getitem_in_range {A} (l : list A) (i : Z) (a : A) :
  let j := if (i <? 0)%Z then (Z.of_nat (length l) + i)%Z else i in
  nth_error l (Z.to_nat j) = Some a -> (0 <= j)%Z ->
  getitem l i = Return a.
Proof.
  intros j Hnth Hj. unfold getitem. fold j.
  assert (Hlt : (Z.to_nat j < length l)%nat)
    by (apply nth_error_Some; congruence).
  replace ((j <? 0)%Z || (Z.of_nat (length l) <=? j)%Z) with false
    by (symmetry; apply orb_false_iff; split; [apply Z.ltb_ge | apply Z.leb_gt]; lia).
  now rewrite Hnth.
Qed.

(** [adapt_n] in exact arithmetic: [int(len(gamma) * ratio - 1)], rounded
    toward zero. *)
Lemma adapt_n_exact (ratio : Q) (gamma : list Q) :
  let x := inject_Z (Z.of_nat (length gamma)) * ratio in
  exists n, adapt_n ratio gamma = Return n
            /\ (1 <= x -> n = (Qfloor x - 1)%Z)
            /\ (0 < x < 1 -> n = 0%Z)
            /\ (x == 0 -> n = (-1)%Z).
Proof.
  intro x. unfold adapt_n. cbn [int_ fsub fmul of_int Exact.arith]. fold x.
  eexists; split; [reflexivity|].
  assert (Hv : Qred (Qred x - inject_Z 1) == x - 1)
    by (rewrite !Qred_correct; reflexivity).
  split; [|split].
  - intro Hx. rewrite Qtrunc_nonneg by (rewrite Hv; lra).
    rewrite (Qfloor_comp _ _ Hv). apply Qfloor_minus_1.
  - intros [Hx0 Hx1]. rewrite Qtrunc_nonpos by (rewrite Hv; lra).
    rewrite (Qceiling_comp _ _ Hv). unfold Qceiling.
    assert (Hf : Qfloor (- (x - 1)) = 0%Z)
      by (apply Qfloor_unique; change (inject_Z 0) with 0; lra).
    now rewrite Hf.
  - intro Hx. rewrite Qtrunc_nonpos by (rewrite Hv; lra).
    assert (Hv' : Qred (Qred x - inject_Z 1) == inject_Z (-1))
      by (rewrite Hv, Hx; reflexivity).
    now rewrite (Qceiling_comp _ _ Hv'), Qceiling_Z.
Qed.

Lemma filter_map_length {A} (p : A -> bool) (l : list A) :
  length (filter (fun b => b) (map p l)) = length (filter p l).
Proof.
  induction l as [|a l IH]; cbn; [reflexivity|].
  destruct (p a); cbn; now rewrite IH.
Qed.

(** Given the index [adapt_n] selects, the threshold and the markers. *)
Lemma cell_markers_at (ratio : Q) (ei : list Q) (n : Z) :
  let gamma := map Qabs ei in
  let j := (if (n <? 0)%Z then Z.of_nat (length ei) + n else n)%Z in
  adapt_n ratio gamma = Return n ->
  (0 <= j < Z.of_nat (length ei))%Z ->
  exists g0,
    nth_error (sorted_desc gamma) (Z.to_nat j) = Some g0
    /\ gamma_0 ratio gamma = Return g0
    /\ cell_markers ratio ei
       = Return (map (fun e => Exact.Qltb g0 (Qabs e)) ei)
    /\ (length (filter (fun b => b)
                  (map (fun e => Exact.Qltb g0 (Qabs e)) ei))
        <= Z.to_nat j)%nat.
Proof.
  intros gamma j Hn Hj.
  assert (Hlen : length (sorted_desc gamma) = length ei)
    by (rewrite sorted_desc_length; apply length_map).
  destruct (nth_error (sorted_desc gamma) (Z.to_nat j)) as [g0|] eqn:Hnth;
    [|apply nth_error_None in Hnth; lia].
  assert (Hg0 : gamma_0 ratio gamma = Return g0).
  { unfold gamma_0. rewrite Hn. cbn [bind].
    apply getitem_in_range; rewrite Hlen; [exact Hnth | lia]. }
  exists g0. split; [reflexivity|]. split; [exact Hg0|]. split.
  - unfold cell_markers. cbn [fabs Exact.arith]. fold gamma. rewrite Hg0.
    cbn [bind]. unfold gamma. now rewrite map_map.
  - rewrite filter_map_length.
    assert (E : length (filter (fun e => Exact.Qltb g0 (Qabs e)) ei)
                = length (filter (fun g => fgt g g0) gamma)).
    { unfold gamma. clear. induction ei as [|e l IH]; [reflexivity|].
      cbn [map filter]. unfold fgt at 1. cbn [flt Exact.arith].
      destruct (Exact.Qltb g0 (Qabs e)); cbn [length]; now rewrite IH. }
    rewrite E, <- (filter_length_perm _ _ _ (sorted_desc_perm gamma)).
    apply sorted_exceeding; [apply sorted_desc_sorted | exact Hnth].
Qed.

(** C4, amended.  In exact arithmetic, for a non-empty indicator field of
    [c] cells and a ratio in [[0, 1]]: [adapt_n] is [int(c * ratio - 1)],
    rounded toward zero, that is [floor(c * ratio) - 1] when
    [c * ratio >= 1], [0] when [0 < c * ratio < 1] and [-1] when
    [ratio = 0]; [gamma_0] is the entry at that Python index of the
    absolute values sorted in descending order; the cells marked are
    exactly those whose absolute value strictly exceeds [gamma_0], and there
    are at most as many of them as the position of [gamma_0].  The values
    [[5, 1, 4, 2, 3]] with ratio [0.4] give [adapt_n = 1], [gamma_0 = 4]
    and the one cell of value [5], on binary64 too.  On binary64
    [c * ratio - 1] is rounded before [int] cuts it, so the three cases do
    not hold in general: 5 cells with ratio [1e-17] give [adapt_n = -1]
    where [0 < c * ratio < 1], and 100 cells with ratio [0.57] give [55],
    not [floor(57) - 1 = 56]. *)
Theorem cell_markers_threshold (ratio : Q) (ei : list Q) :
  ei <> [] -> 0 <= ratio -> ratio <= 1 ->
  let gamma := map Qabs ei in
  let x := inject_Z (Z.of_nat (length ei)) * ratio in
  (exists n j g0,
      adapt_n ratio gamma = Return n
      /\ (1 <= x -> n = (Qfloor x - 1)%Z)
      /\ (0 < x < 1 -> n = 0%Z)
      /\ (x == 0 -> n = (-1)%Z)
      /\ j = Z.to_nat (if (n <? 0)%Z then Z.of_nat (length ei) + n else n)
      /\ Permutation (sorted_desc gamma) gamma
      /\ StronglySorted Qge_rel (sorted_desc gamma)
      /\ nth_error (sorted_desc gamma) j = Some g0
      /\ gamma_0 ratio gamma = Return g0
      /\ cell_markers ratio ei
         = Return (map (fun e => Exact.Qltb g0 (Qabs e)) ei)
      /\ (length (filter (fun b => b)
                    (map (fun e => Exact.Qltb g0 (Qabs e)) ei)) <= j)%nat)
  /\ (adapt_n (4 # 10) [5; 1; 4; 2; 3] = Return 1%Z
      /\ gamma_0 (4 # 10) [5; 1; 4; 2; 3] = Return 4
      /\ cell_markers (4 # 10) [5; 1; 4; 2; 3]
         = Return [true; false; false; false; false])
  /\ (adapt_n 0.4%float [5; 1; 4; 2; 3]%float = Return 1%Z
      /\ gamma_0 0.4%float [5; 1; 4; 2; 3]%float = Return 4%float
      /\ cell_markers 0.4%float [5; 1; 4; 2; 3]%float
         = Return [true; false; false; false; false])
  /\ (adapt_n 1e-17%float [5; 1; 4; 2; 3]%float = Return (-1)%Z
      /\ adapt_n 0.57%float (repeat 1%float 100) = Return 55%Z
      /\ (Qfloor (inject_Z 100 * (57 # 100)) - 1 = 56)%Z).
Proof.
  intros Hne Hr0 Hr1 gamma x.
  split; [|split; [|split]; vm_compute; repeat split].
  assert (Hc : (0 < Z.of_nat (length ei))%Z) by (destruct ei; [contradiction | cbn; lia]).
  assert (Hc' : 0 < inject_Z (Z.of_nat (length ei)))
    by (change 0 with (inject_Z 0); rewrite <- Zlt_Qlt; exact Hc).
  assert (Hx0 : 0 <= x) by (unfold x; nra).
  assert (Hxc : x <= inject_Z (Z.of_nat (length ei))) by (unfold x; nra).
  destruct (adapt_n_exact ratio gamma) as (n & Hn & H1 & H2 & H3).
  unfold gamma in H1, H2, H3. rewrite length_map in H1, H2, H3. fold x in H1, H2, H3.
  assert (Hj : (0 <= (if (n <? 0)%Z then Z.of_nat (length ei) + n else n)
                < Z.of_nat (length ei))%Z).
  { destruct (Qlt_le_dec x 1) as [Hlt | Hge].
    - destruct (Qeq_dec x 0) as [E | E].
      + rewrite (H3 E). cbn. lia.
      + rewrite H2 by lra. cbn. lia.
    - rewrite (H1 Hge).
      assert (Hf1 : (1 <= Qfloor x)%Z)
        by (change 1%Z with (Qfloor 1); apply Qfloor_resp_le; exact Hge).
      assert (Hf2 : (Qfloor x <= Z.of_nat (length ei))%Z)
        by (rewrite <- (Qfloor_Z (Z.of_nat (length ei))); apply Qfloor_resp_le; exact Hxc).
      replace (Qfloor x - 1 <? 0)%Z with false by (symmetry; apply Z.ltb_ge; lia).
      lia. }
  destruct (cell_markers_at ratio ei n Hn Hj) as (g0 & Hnth & Hg0 & Hm & Hcount).
  exists n, (Z.to_nat (if (n <? 0)%Z then Z.of_nat (length ei) + n else n)), g0.
  repeat split; try assumption.
  - apply sorted_desc_perm.
  - apply sorted_desc_sorted.
Qed.

Lemma cell_markers_threshold_witness :
  [5; 1; 4; 2; 3] <> [] /\ 0 <= 4 # 10 /\ 4 # 10 <= 1
  /\ exists g0, gamma_0 (4 # 10) (map Qabs [5; 1; 4; 2; 3]) = Return g0
                /\ cell_markers (4 # 10) [5; 1; 4; 2; 3]
                   = Return (map (fun e => Exact.Qltb g0 (Qabs e)) [5; 1; 4; 2; 3]).
Proof.
  assert (H0 : [5; 1; 4; 2; 3] <> []) by discriminate.
  assert (H1 : 0 <= 4 # 10) by discriminate.
  assert (H2 : 4 # 10 <= 1) by discriminate.
  repeat (split; [assumption|]).
  destruct (proj1 (cell_markers_threshold (4 # 10) [5; 1; 4; 2; 3] H0 H1 H2))
    as (n & j & g0 & _ & _ & _ & _ & _ & _ & _ & _ & Hg & Hm & _).
  exists g0. split; [exact Hg | exact Hm].
Defined.

(** Five cells with ratio [0.1], in both arithmetics: [adapt_n] is
    [int(-0.5) = 0], not [floor(0.5) - 1 = -1]; the threshold is the largest
    value and no cell is marked, where index [-1] would have selected the
    smallest value, [1]. *)
Lemma adapt_n_truncates_toward_zero :
  adapt_n (1 # 10) [5; 1; 4; 2; 3] = Return 0%Z
  /\ (Qfloor (inject_Z 5 * (1 # 10)) - 1 = -1)%Z
  /\ adapt_n 0.1%float [5; 1; 4; 2; 3]%float = Return 0%Z
  /\ cell_markers (1 # 10) [5; 1; 4; 2; 3]
     = Return [false; false; false; false; false]
  /\ getitem (sorted_desc [5; 1; 4; 2; 3]) (-1) = Return 1.
Proof. vm_compute. repeat split. Qed.


(** ** The reverse tape walk *)

Section DualWalk.

Context {F : Type} `{PyFloat F} {B : Backend F}.
Variables (o : options F) (mesh : Mesh) (T k : F).

(** The walk from any point of the sweep appends the reconstructed pairs
    of the entries still to come. *)
Lemma dual_walk_from (entries : list (Fn * variable)) :
  forall s : dual_sweep,
    let s' := fold_left (dual_body o mesh k) entries s in
    let new := reconstruct (dual_timestep s) (dual_iteration s)
                           (w_timesteps entries) in
    dual_pairs s' = dual_pairs s ++ new
    /\ dual_wtape s'
       = dual_wtape s
         ++ map (fun r => if steady_state o then tape_value_steady mesh
                          else tape_value mesh (fst r) (snd r)) new
    /\ length (dual_phi s') = (length (dual_phi s) + length new)%nat.
Proof.
  induction entries as [|[adj var] entries IH]; intro s; cbn zeta.
  - cbn. rewrite !app_nil_r. repeat split. lia.
  - cbn [fold_left]. unfold w_timesteps. cbn [filter snd].
    unfold dual_body at 2 4 6.
    destruct (String.eqb (var_name var) "w") eqn:E.
    + cbn [map snd reconstruct]. fold (w_timesteps entries).
      cbn [fst snd].
      destruct (steady_state o); cbn [negb];
        match goal with
        | |- context [fold_left _ entries ?s1] =>
            destruct (IH s1) as (Hr & Hw & Hp)
        end;
        cbn [dual_timestep dual_iteration dual_pairs dual_wtape dual_phi]
          in Hr, Hw, Hp;
        rewrite Hr, Hw, Hp, <- !app_assoc, length_app; cbn;
        repeat split; lia.
    + fold (w_timesteps entries). apply IH.
Qed.

(** The walk stores one tape value and one dual state per pair. *)
Lemma dual_walk_stores (entries : list (Fn * variable)) :
  let s := dual_walk o mesh T k entries in
  dual_pairs s
  = reconstruct None 0%Z (w_timesteps entries)
  /\ dual_wtape s
     = map (fun r => if steady_state o then tape_value_steady mesh
                     else tape_value mesh (fst r) (snd r)) (dual_pairs s)
  /\ length (dual_phi s) = length (dual_pairs s).
Proof.
  intro s.
  destruct (dual_walk_from entries
              {| dual_timestep := None; dual_iteration := 0%Z;
                 dual_wtape := []; dual_phi := []; dual_t := T;
                 dual_pairs := [] |}) as (Hr & Hw & Hp).
  cbn [dual_timestep dual_iteration dual_pairs dual_wtape dual_phi app length]
    in Hr, Hw, Hp.
  fold (dual_walk o mesh T k entries) in Hr, Hw, Hp. fold s in Hr, Hw, Hp.
  rewrite <- Hr in Hw, Hp. repeat split; assumption.
Qed.

End DualWalk.

(** The shape of a reconstructed sequence: the first pair continues or
    restarts the count it is given, every later one the pair before it. *)
Lemma reconstruct_step (tss : list Z) :
  forall (timestep : option Z) (iteration : Z) (i : nat) (ts it : Z),
    nth_error (reconstruct timestep iteration tss) i = Some (ts, it) ->
    match i with
    | O => it = if same_timestep timestep ts then (iteration + 1)%Z else 0%Z
    | S i' =>
        exists ts' it',
          nth_error (reconstruct timestep iteration tss) i' = Some (ts', it')
          /\ it = if (ts' =? ts)%Z then (it' + 1)%Z else 0%Z
    end.
Proof.
  induction tss as [|t tss IH]; intros timestep iteration i ts it Hnth.
  - destruct i; discriminate.
  - cbn [reconstruct] in *. destruct i as [|i].
    + cbn in Hnth. injection Hnth as <- <-. reflexivity.
    + cbn [nth_error] in Hnth. apply IH in Hnth.
      destruct i as [|i].
      * exists t. eexists. split; [reflexivity|]. exact Hnth.
      * destruct Hnth as (ts' & it' & Hprev & Hit).
        exists ts', it'. split; [exact Hprev | exact Hit].
Qed.

Lemma map_fst_reconstruct (tss : list Z) :
  forall timestep iteration,
    map fst (reconstruct timestep iteration tss) = tss.
Proof.
  induction tss as [|t tss IH]; intros; cbn; [reflexivity|]. now rewrite IH.
Qed.

(** C9.  The [(timestep, iteration)] pairs the reverse tape walk of
    [compute_dual] reconstructs, one per entry of the primal variable and in
    sweep order, carry the time steps of those entries; the first iteration
    is [0], and every later one is the previous iteration plus one when its
    time step equals the previous entry's and [0] when the time step
    changes.  Two entries at time step 1 followed by one at time step 2 give
    [(1,0), (1,1), (2,0)].  The walk stores one tape value and one dual
    state per pair. *)
Theorem compute_dual_bookkeeping {F : Type} `{PyFloat F} {B : Backend F}
        (o : options F) (mesh : Mesh) (T k : F)
        (entries : list (Fn * variable)) :
  let s := dual_walk o mesh T k entries in
  let pairs := dual_pairs s in
  map fst pairs = w_timesteps entries
  /\ dual_wtape s
     = map (fun r => if steady_state o then tape_value_steady mesh
                     else tape_value mesh (fst r) (snd r)) pairs
  /\ length (dual_phi s) = length pairs
  /\ (forall ts it, nth_error pairs 0 = Some (ts, it) -> it = 0%Z)
  /\ (forall i ts' it' ts it,
         nth_error pairs i = Some (ts', it') ->
         nth_error pairs (S i) = Some (ts, it) ->
         it = if (ts' =? ts)%Z then (it' + 1)%Z else 0%Z)
  /\ (forall a1 a2 a3 : Fn,
         dual_pairs
           (dual_walk o mesh T k
              [(a1, {| var_name := "w"; var_timestep := 1 |});
               (a2, {| var_name := "w"; var_timestep := 1 |});
               (a3, {| var_name := "w"; var_timestep := 2 |})])
         = [(1, 0); (1, 1); (2, 0)]%Z).
Proof.
  intros s pairs.
  destruct (dual_walk_stores o mesh T k entries) as (Hr & Hw & Hp).
  fold s in Hr, Hw, Hp. fold pairs in Hr, Hw, Hp.
  split; [rewrite Hr; apply map_fst_reconstruct|].
  split; [exact Hw|]. split; [exact Hp|]. split; [|split].
  - intros ts it Hnth. rewrite Hr in Hnth.
    now apply reconstruct_step in Hnth.
  - intros i ts' it' ts it Hprev Hnth. rewrite Hr in Hprev, Hnth.
    apply reconstruct_step in Hnth. destruct Hnth as (ts1 & it1 & Hprev' & Hit).
    rewrite Hprev in Hprev'. injection Hprev' as <- <-. exact Hit.
  - intros a1 a2 a3. unfold dual_walk. cbn [fold_left].
    unfold dual_body. cbn. destruct (steady_state o); reflexivity.
Qed.

(** [compute_dual] returns as many dual states as tape values. *)
Lemma compute_dual_lengths {F : Type} `{PyFloat F} {B : Backend F}
      (o : options F) (mesh : Mesh) (T k : F) (w : Fn) :
  length (fst (compute_dual o mesh T k w))
  = length (snd (compute_dual o mesh T k w)).
Proof.
  unfold compute_dual. cbn [fst snd].
  destruct (dual_walk_stores o mesh T k (compute_adjoint mesh w))
    as (_ & Hw & Hp).
  now rewrite Hw, Hp, length_map.
Qed.

(** ** The error indicators *)

Lemma getitem_nat {A} (l : list A) (i : nat) (a : A) :
  nth_error l i = Some a -> getitem l (Z.of_nat i) = Return a.
Proof.
  intro Hnth. apply getitem_in_range.
  - replace (Z.of_nat i <? 0)%Z with false by (symmetry; apply Z.ltb_ge; lia).
    now rewrite Nat2Z.id.
  - replace (Z.of_nat i <? 0)%Z with false by (symmetry; apply Z.ltb_ge; lia).
    lia.
Qed.

Lemma getitem_nil {A} (i : Z) : getitem (@nil A) i = Raise IndexError.
Proof.
  unfold getitem. cbn [length].
  destruct (_ || _)%bool; [reflexivity|].
  now destruct (Z.to_nat _).
Qed.

(** A loop over the positions of a list is a fold over the list. *)
Lemma fold_seq_as_fold {X Acc} (f : Acc -> nat -> Acc) (g : Acc -> X -> Acc)
      (l : list X) :
  forall (start : nat) (a : Acc),
    (forall i x acc, nth_error l i = Some x -> f acc (start + i)%nat = g acc x) ->
    fold_left f (seq start (length l)) a = fold_left g l a.
Proof.
  induction l as [|x l IH]; intros start a Hfg; [reflexivity|].
  cbn [length seq fold_left].
  rewrite <- (Hfg 0%nat x a eq_refl), Nat.add_0_r.
  apply IH. intros i y acc Hnth.
  rewrite <- (Hfg (S i) y acc Hnth). f_equal. lia.
Qed.

Lemma fold_left_over_map {X Y Acc} (f : Acc -> Y -> Acc) (g : X -> Y)
      (l : list X) :
  forall a, fold_left f (map g l) a = fold_left (fun acc x => f acc (g x)) l a.
Proof. induction l as [|x l IH]; intro a; cbn; [reflexivity | apply IH]. Qed.

Section Indicators.

Context {F : Type} `{PyFloat F} {B : Backend F}.

Lemma vec_add_length (a b : list F) :
  length a = length b -> length (vec_add a b) = length a.
Proof.
  revert b. induction a as [|x a IH]; intros [|y b] Hlen; cbn in *;
    try reflexivity; try discriminate.
  f_equal. apply IH. lia.
Qed.

(** The positions of [tape_pairs]. *)
Lemma tape_pairs_nth (wtape phi : list Fn) :
  forall i p,
    nth_error (tape_pairs wtape phi) i = Some p ->
    exists wi wi1 phii,
      p = (wi, wi1, phii)
      /\ nth_error wtape i = Some wi
      /\ nth_error wtape (S i) = Some wi1
      /\ nth_error phi i = Some phii.
Proof.
  revert phi. induction wtape as [|w0 wtape IH]; intros phi i p Hnth.
  - destruct i; discriminate.
  - destruct wtape as [|w1 wtape]; [destruct i; discriminate|].
    destruct phi as [|p0 phi]; [destruct i; discriminate|].
    change (tape_pairs (w0 :: w1 :: wtape) (p0 :: phi))
      with ((w0, w1, p0) :: tape_pairs (w1 :: wtape) phi) in Hnth.
    destruct i as [|i].
    + cbn in Hnth. injection Hnth as <-. now exists w0, w1, p0.
    + cbn [nth_error] in Hnth. apply IH in Hnth.
      destruct Hnth as (wi & wi1 & phii & -> & H1 & H2 & H3).
      now exists wi, wi1, phii.
Qed.

Lemma tape_pairs_length (wtape phi : list Fn) :
  (length wtape <= S (length phi))%nat ->
  length (tape_pairs wtape phi) = (length wtape - 1)%nat.
Proof.
  revert phi. induction wtape as [|w0 wtape IH]; intros phi Hlen; [reflexivity|].
  destruct wtape as [|w1 wtape]; [reflexivity|].
  destruct phi as [|p0 phi]; [cbn in Hlen; lia|].
  change (tape_pairs (w0 :: w1 :: wtape) (p0 :: phi))
    with ((w0, w1, p0) :: tape_pairs (w1 :: wtape) phi).
  cbn [length] in *. rewrite IH by lia. cbn [length]. lia.
Qed.

Variables (o : options F) (mesh : Mesh) (k : F).

(** One pass of the loop adds the contribution of its pair. *)
Lemma indicator_body_pair (phi wtape : list Fn) (i : nat)
      (p : Fn * Fn * Fn) (acc : result (list F)) :
  nth_error (tape_pairs wtape phi) i = Some p ->
  indicator_body o mesh k phi wtape acc i
  = bind acc (fun ei => vec_iadd ei (contribution o mesh k p)).
Proof.
  intro Hnth. apply tape_pairs_nth in Hnth.
  destruct Hnth as (wi & wi1 & phii & -> & H1 & H2 & H3).
  unfold indicator_body. destruct acc as [ei| |]; cbn [bind]; try reflexivity.
  rewrite (getitem_nat _ _ _ H1). cbn [bind].
  replace (Z.of_nat i + 1)%Z with (Z.of_nat (S i)) by lia.
  rewrite (getitem_nat _ _ _ H2). cbn [bind].
  rewrite (getitem_nat _ _ _ H3). cbn [bind]. reflexivity.
Qed.

(** Accumulating vectors of the right length cannot fail. *)
Lemma accumulate_contributions (vs : list (list F)) :
  forall ei : list F,
    Forall (fun v => length v = length ei) vs ->
    fold_left (fun acc v => bind acc (fun ei => vec_iadd ei v)) vs (Return ei)
    = Return (fold_left vec_add vs ei).
Proof.
  induction vs as [|v vs IH]; intros ei Hall; [reflexivity|].
  apply Forall_cons_iff in Hall as [Hv Hall].
  cbn [fold_left bind]. unfold vec_iadd at 2.
  rewrite Hv, Nat.eqb_refl. apply IH.
  rewrite vec_add_length by (symmetry; exact Hv).
  exact Hall.
Qed.

End Indicators.

(** The header of the loop is as far as the time-dependent branch gets. *)
Lemma build_error_indicators_time_dependent {F : Type} `{PyFloat F}
      {B : Backend F} (o : options F) (mesh : Mesh) (k : F)
      (phi wtape : list Fn) :
  steady_state o = false ->
  build_error_indicators o mesh k phi wtape = Raise NameError.
Proof. intro Hs. unfold build_error_indicators. now rewrite Hs. Qed.

(** The body of the loop, run over the indices [0 .. len(wtape) - 2], adds
    to the zero field one contribution per consecutive pair. *)
Lemma indicator_loop_accumulates {F : Type} `{PyFloat F} {B : Backend F}
      (o : options F) (mesh : Mesh) (k : F) (phi wtape : list Fn) :
  (forall p, In p (tape_pairs wtape phi) ->
             length (contribution o mesh k p) = num_cells mesh) ->
  (length wtape <= S (length phi))%nat ->
  fold_left (indicator_body o mesh k phi wtape) (seq 0 (length wtape - 1))
            (Return (repeat (of_int 0) (num_cells mesh)))
  = Return (fold_left vec_add
              (map (contribution o mesh k) (tape_pairs wtape phi))
              (repeat (of_int 0) (num_cells mesh))).
Proof.
  intros Hshape Hlen.
  rewrite <- (tape_pairs_length wtape phi Hlen).
  rewrite (fold_seq_as_fold _
             (fun acc p => bind acc (fun ei => vec_iadd ei (contribution o mesh k p)))).
  - rewrite <- (accumulate_contributions (map (contribution o mesh k)
                                              (tape_pairs wtape phi))).
    + now rewrite fold_left_over_map.
    + apply Forall_forall. intros v Hv. apply in_map_iff in Hv.
      destruct Hv as (p & <- & Hp). rewrite repeat_length. now apply Hshape.
  - intros i p acc Hnth. cbn [Nat.add]. now apply indicator_body_pair.
Qed.

(** C5.  On a time-dependent solver [build_error_indicators] raises
    [NameError] and accumulates nothing: the header of its loop calls
    [xrange], a name Python 3 does not have, before the first pair is
    assembled, whatever the tape.  The body of the loop is as claimed: run
    over the indices [0 .. len(wtape) - 2], with assembled vectors of one
    entry per cell and a dual state for every tape state but the last, it
    adds to the zero field one contribution per consecutive pair
    [(wtape[i], wtape[i+1])] with [phi[i]], each at the interpolation
    [theta * wtape[i] + (1 - theta) * wtape[i+1]] (see [contribution]).  On
    a steady solver the method returns the one vector assembled from
    [wtape[0]] and [phi[0]] itself, nothing added to it.  On the test
    problem with three tape states the time-dependent call raises
    [NameError] in both arithmetics. *)
Theorem build_error_indicators_needs_xrange
        {F : Type} `{PyFloat F} {B : Backend F}
        (o : options F) (mesh : Mesh) (k : F) (phi wtape : list Fn) :
  (forall w0 phi0,
      length (assemble_residual_steady mesh w0 phi0) = num_cells mesh) ->
  build_error_indicators o mesh k phi wtape
  = (if steady_state o then
       match wtape, phi with
       | w0 :: _, phi0 :: _ => Return (assemble_residual_steady mesh w0 phi0)
       | _, _ => Raise IndexError
       end
     else Raise NameError)
  /\ ((forall p, In p (tape_pairs wtape phi) ->
                 length (contribution o mesh k p) = num_cells mesh) ->
      (length wtape <= S (length phi))%nat ->
      fold_left (indicator_body o mesh k phi wtape) (seq 0 (length wtape - 1))
                (Return (repeat (of_int 0) (num_cells mesh)))
      = Return (fold_left vec_add
                  (map (contribution o mesh k) (tape_pairs wtape phi))
                  (repeat (of_int 0) (num_cells mesh)))
      /\ length (tape_pairs wtape phi) = (length wtape - 1)%nat
      /\ (forall i p,
             nth_error (tape_pairs wtape phi) i = Some p ->
             exists wi wi1 phii,
               p = (wi, wi1, phii)
               /\ nth_error wtape i = Some wi
               /\ nth_error wtape (S i) = Some wi1
               /\ nth_error phi i = Some phii))
  /\ build_error_indicators (B := Example.backend) Example.opts_exact
                            5%nat (1 # 4) [1; 1; 1] [3; 2; 1]
     = Raise NameError
  /\ build_error_indicators (B := Example.backend) Example.opts_binary64
                            5%nat 0.25%float [1; 1; 1]%float [3; 2; 1]%float
     = Raise NameError.
Proof.
  intros Hsteady.
  split; [|split; [|split; reflexivity]].
  - unfold build_error_indicators.
    destruct (steady_state o); cbn [negb]; [|reflexivity].
    destruct wtape as [|w0 wtape']; [now rewrite getitem_nil|].
    rewrite (getitem_nat (w0 :: wtape') 0 w0 eq_refl : getitem _ 0 = _).
    cbn [bind].
    destruct phi as [|phi0 phi']; [now rewrite getitem_nil|].
    rewrite (getitem_nat (phi0 :: phi') 0 phi0 eq_refl : getitem _ 0 = _).
    cbn [bind].
    unfold vec_assign. now rewrite repeat_length, Hsteady, Nat.eqb_refl.
  - intros Hshape Hlen.
    split; [now apply indicator_loop_accumulates|].
    split; [now apply tape_pairs_length | apply tape_pairs_nth].
Qed.

Lemma build_error_indicators_needs_xrange_witness :
  let o := Example.steady 3 Example.opts_exact in
  (forall w0 phi0 : Q,
      length (assemble_residual_steady (Backend := Example.backend)
                                       5%nat w0 phi0) = 5%nat)
  /\ build_error_indicators (B := Example.backend) o 5%nat (1 # 4)
                            [1; 1; 1] [3; 2; 1]
     = Return [3; 6; 9; 12; 15].
Proof.
  intro o.
  assert (H1 : forall w0 phi0 : Q,
             length (assemble_residual_steady (Backend := Example.backend)
                                              5%nat w0 phi0) = 5%nat).
  { intros w0 phi0. cbn [assemble_residual_steady Example.backend].
    now rewrite length_map, length_seq. }
  split; [exact H1|].
  rewrite (proj1 (build_error_indicators_needs_xrange
                    (B := Example.backend) o 5%nat (1 # 4)
                    [1; 1; 1] [3; 2; 1] H1)).
  vm_compute. reflexivity.
Defined.


(** ** The adaptive loop *)

(** [which_mesh] names the initial mesh; for every later pass it
    subscripts the [map] object and raises [TypeError]. *)
Lemma which_mesh_cases (i : Z) :
  which_mesh i
  = if (i =? 0)%Z then Return "initial"%string else Raise TypeError.
Proof. unfold which_mesh. now destruct (i =? 0)%Z. Qed.




Section AdaptivePasses.

Context {F : Type} `{PyFloat F} {B : Backend F}.
Variables (fuel : nat) (so : Monitored.save_options) (o : options F)
          (t0 T : F).

(** A time-dependent [adaptive_solve] that gets through the checkpoint
    set-up, the primal solve and the dual sweep ends in the [NameError]
    of [build_error_indicators]. *)
Lemma monitored_adaptive_solve_time_dependent (mesh : Mesh) (k : F)
      (mon : Monitored.monitor) :
  steady_state o = false ->
  Monitored.adaptive_solve fuel so o mesh t0 T k mon
  = bind (adaptive_solve_checkpointing o t0 T k) (fun _ =>
    bind (Monitored.forward_solve fuel so o mesh t0 T k true
            (Monitored.reset_timestep mon)) (fun r =>
    bind (Monitored.compute_dual so o mesh T k (fst (fst r))
            (Monitored.reset_timestep (snd r))) (fun _ =>
    Raise NameError))).
Proof.
  intro Hs. unfold Monitored.adaptive_solve.
  destruct (adaptive_solve_checkpointing o t0 T k); cbn [bind];
    try reflexivity.
  destruct (Monitored.forward_solve fuel so o mesh t0 T k true
              (Monitored.reset_timestep mon)) as [[[w m] mon1]| |];
    cbn [bind fst snd]; try reflexivity.
  destruct (Monitored.compute_dual so o mesh T k w
              (Monitored.reset_timestep mon1)) as [[[phi wtape] mon2]| |];
    cbn [bind]; try reflexivity.
  rewrite Hs. cbn [bind].
  now rewrite build_error_indicators_time_dependent.
Qed.

Lemma monitored_adaptive_solve_never_returns (mesh : Mesh) (k : F)
      (mon : Monitored.monitor) :
  steady_state o = false ->
  returned (Monitored.adaptive_solve fuel so o mesh t0 T k mon) = false.
Proof.
  intro Hs. rewrite monitored_adaptive_solve_time_dependent by exact Hs.
  destruct (adaptive_solve_checkpointing o t0 T k); cbn [bind];
    try reflexivity.
  destruct (Monitored.forward_solve fuel so o mesh t0 T k true
              (Monitored.reset_timestep mon)); cbn [bind];
    try reflexivity.
  now destruct (Monitored.compute_dual so o mesh T k (fst (fst a0))
                  (Monitored.reset_timestep (snd a0))).
Qed.

(** A pass that returns is pass [0] of a steady solver; it leaves the
    step as it was. *)
Lemma monitored_adaptivity_body_returns (s s' : adaptation)
      (mon mon' : Monitored.monitor) :
  Monitored.adaptivity_body fuel so o t0 T s mon = Return (s', mon') ->
  ad_i s = 0%Z /\ steady_state o = true /\ ad_i s' = 1%Z
  /\ ad_k s' = ad_k s
  /\ ad_log s' = ad_log s ++ [Solving 0%Z; Refining 0%Z; AdjReset 0%Z].
Proof.
  unfold Monitored.adaptivity_body. cbv zeta. rewrite which_mesh_cases.
  destruct (ad_i s =? 0)%Z eqn:Ei; cbn [bind]; [|discriminate].
  apply Z.eqb_eq in Ei.
  pose proof (monitored_adaptive_solve_never_returns (ad_mesh s) (ad_k s)
                (Monitored.write_if_saving so
                   (Monitored.ToMeshFile (ad_mesh s)) mon)) as Hnever.
  destruct (Monitored.adaptive_solve fuel so o (ad_mesh s) t0 T (ad_k s) _)
    as [[[[w m] ei] mon1]| |]; cbn [bind]; try discriminate.
  destruct (steady_state o) eqn:Hs; [|now specialize (Hnever eq_refl)].
  destruct (adaptive_refine o (ad_mesh s) ei) as [mesh| |]; cbn [bind];
    try discriminate.
  cbn [negb]. destruct time_step; cbn [bind]; intros [= <- <-];
    cbn [ad_i ad_k ad_log]; rewrite Ei; repeat split.
Qed.

Lemma monitored_adaptivity_body_later (s : adaptation)
      (mon : Monitored.monitor) :
  ad_i s <> 0%Z ->
  Monitored.adaptivity_body fuel so o t0 T s mon = Raise TypeError.
Proof.
  intro Hi. unfold Monitored.adaptivity_body. cbv zeta.
  rewrite which_mesh_cases.
  now replace (ad_i s =? 0)%Z with false by (symmetry; apply Z.eqb_neq; exact Hi).
Qed.

(** The loop after a first pass that returns: a second pass raises
    [TypeError], so the loop returns only where its guard ends it. *)
Lemma monitored_adaptivity_loop_first_pass (iters : nat) (mesh : Mesh)
      (k : F) (mon mon1 : Monitored.monitor) (s1 : adaptation) :
  (0 <= maxAdapts o)%Z -> fgt (of_int 1) (adaptTOL o) = true ->
  Monitored.adaptivity_body fuel so o t0 T (adaptivity_init mesh k) mon
  = Return (s1, mon1) ->
  Monitored.adaptivity_loop (S (S iters)) fuel so o t0 T
                            (adaptivity_init mesh k) mon
  = if ((1 <=? maxAdapts o)%Z && fgt (ad_COND s1) (adaptTOL o))%bool
    then Raise TypeError else Return (s1, mon1).
Proof.
  intros Hmax Htol Hbody.
  destruct (monitored_adaptivity_body_returns _ _ _ _ Hbody)
    as (_ & _ & Hi1 & _).
  cbn [Monitored.adaptivity_loop adaptivity_init ad_i ad_COND].
  replace (0 <=? maxAdapts o)%Z with true by (symmetry; apply Z.leb_le; exact Hmax).
  rewrite Htol. cbn [andb].
  change {| ad_i := 0%Z; ad_m := Some (of_int 0); ad_COND := of_int 1;
            ad_mesh := mesh; ad_k := k; ad_log := [] |}
    with (adaptivity_init mesh k).
  rewrite Hbody. cbn [bind]. rewrite Hi1.
  destruct ((1 <=? maxAdapts o)%Z && fgt (ad_COND s1) (adaptTOL o))%bool;
    [|reflexivity].
  rewrite monitored_adaptivity_body_later by (rewrite Hi1; discriminate).
  reflexivity.
Qed.

(** The loop returns after no pass or after the first, with its guard
    false. *)
Lemma monitored_adaptivity_loop_returns (iters : nat) (mesh : Mesh) (k : F)
      (mon mon' : Monitored.monitor) (s : adaptation) :
  Monitored.adaptivity_loop iters fuel so o t0 T (adaptivity_init mesh k) mon
  = Return (s, mon') ->
  ((ad_i s <=? maxAdapts o)%Z && fgt (ad_COND s) (adaptTOL o))%bool = false
  /\ ((s = adaptivity_init mesh k /\ mon' = mon)
      \/ ((0 <= maxAdapts o)%Z
          /\ Monitored.adaptivity_body fuel so o t0 T
                                       (adaptivity_init mesh k) mon
             = Return (s, mon'))).
Proof.
  destruct iters as [|iters]; [discriminate|].
  cbn [Monitored.adaptivity_loop].
  destruct ((ad_i (adaptivity_init mesh k) <=? maxAdapts o)%Z
            && fgt (ad_COND (adaptivity_init mesh k)) (adaptTOL o))%bool
    eqn:Hg0.
  - destruct (Monitored.adaptivity_body fuel so o t0 T
                (adaptivity_init mesh k) mon) as [[s1 mon1]| |] eqn:Hbody;
      cbn [bind]; try discriminate.
    destruct (monitored_adaptivity_body_returns _ _ _ _ Hbody)
      as (_ & _ & Hi1 & _).
    destruct iters as [|iters]; [discriminate|].
    cbn [Monitored.adaptivity_loop].
    destruct ((ad_i s1 <=? maxAdapts o)%Z
              && fgt (ad_COND s1) (adaptTOL o))%bool eqn:Hg1.
    + rewrite monitored_adaptivity_body_later by (rewrite Hi1; discriminate).
      discriminate.
    + intros [= <- <-]. split; [exact Hg1 | right].
      apply andb_true_iff in Hg0 as [Hmax _]. apply Z.leb_le in Hmax.
      cbn [adaptivity_init ad_i] in Hmax. now split.
  - intros [= <- <-]. split; [exact Hg0 | now left].
Qed.

(** The fields of the state [adaptivity] returns, from the state its loop
    ends in. *)
Lemma monitored_adaptivity_result (iters : nat) (mesh : Mesh) (k : F)
      (mon mon' : Monitored.monitor) (s : adaptation) :
  Monitored.adaptivity iters fuel so o mesh T t0 k mon = Return (s, mon') ->
  exists sl,
    Monitored.adaptivity_loop iters fuel so o t0 T (adaptivity_init mesh k)
                              mon = Return (sl, mon')
    /\ ad_i s = ad_i sl /\ ad_COND s = ad_COND sl
    /\ ad_mesh s = ad_mesh sl /\ ad_k s = ad_k sl
    /\ ad_log s
       = ad_log sl
         ++ (if ((maxAdapts o <? ad_i sl)%Z
                 && fgt (ad_COND sl) (adaptTOL o))%bool
             then [MaxIterationsWarning (ad_COND sl)] else []).
Proof.
  unfold Monitored.adaptivity.
  destruct (Monitored.adaptivity_loop iters fuel so o t0 T
              (adaptivity_init mesh k) mon) as [[sl mon1]| |];
    cbn [bind]; try discriminate.
  destruct ((maxAdapts o <? ad_i sl)%Z && fgt (ad_COND sl) (adaptTOL o))%bool
    eqn:E;
    intros [= <- <-]; exists sl; rewrite E;
    cbn [ad_i ad_COND ad_mesh ad_k ad_log];
    repeat split. now rewrite app_nil_r.
Qed.

End AdaptivePasses.

(** C2.  The adaptive loop never gets through a second pass, and on a
    time-dependent solver not through the first.  Whatever the arithmetic
    and the problem, with the starting metric [1] above the tolerance:

    - on a time-dependent solver with [maxAdapts >= 0], [adaptivity] does
      not return: its first pass ends in the [NameError] of
      [build_error_indicators], if nothing fails before;
    - when the first pass completes (the solver is then a steady one) and
      leaves the metric above the tolerance, then with [maxAdapts >= 1]
      [adaptivity] raises [TypeError]: for every pass number but [0],
      [which_mesh] subscripts a [map] object; no three iterations are made,
      no warning is printed and no mesh is returned;
    - in that case with [maxAdapts = 0] it returns after the one pass with
      the warning, having refined once: the guard [i <= maxAdapts] admits
      one pass more than [max_adaptations] counts.

    On binary64 and the test problem: the scenario [t0 = 0], [T = 1.0],
    [k = 0.25], [maxAdapts = 3], tolerance [1e-6] raises [NameError]; the
    same options on a steady solver raise [TypeError]; and a steady solver
    with [maxAdapts = 0] makes one refinement before the warning. *)
Theorem adaptivity_second_pass_raises {F : Type} `{PyFloat F}
        {B : Backend F} :
  (forall (iters fuel : nat) (so : Monitored.save_options) (o : options F)
          (mesh : Mesh) (T t0 k : F) (mon : Monitored.monitor),
      steady_state o = false -> (0 <= maxAdapts o)%Z ->
      fgt (of_int 1) (adaptTOL o) = true ->
      returned (Monitored.adaptivity (S iters) fuel so o mesh T t0 k mon)
      = false)
  /\ (forall (iters fuel : nat) (so : Monitored.save_options) (o : options F)
             (mesh : Mesh) (T t0 k : F) (mon mon1 : Monitored.monitor)
             (s1 : adaptation),
         fgt (of_int 1) (adaptTOL o) = true ->
         Monitored.adaptivity_body fuel so o t0 T (adaptivity_init mesh k) mon
         = Return (s1, mon1) ->
         fgt (ad_COND s1) (adaptTOL o) = true ->
         ((1 <= maxAdapts o)%Z ->
          Monitored.adaptivity (S (S iters)) fuel so o mesh T t0 k mon
          = Raise TypeError)
         /\ (maxAdapts o = 0%Z ->
             exists s,
               Monitored.adaptivity (S (S iters)) fuel so o mesh T t0 k mon
               = Return (s, mon1)
               /\ ad_i s = 1%Z /\ ad_mesh s = ad_mesh s1 /\ ad_k s = k
               /\ ad_log s = passes F 1 ++ [MaxIterationsWarning (ad_COND s1)]
               /\ refinements (ad_log s) = 1%nat))
  /\ (let so0 := {| Monitored.saveSolution := false;
                    Monitored.saveFrequency := 1 |} in
      let mon0 := {| Monitored._t := []; Monitored._timestep := 0;
                     Monitored.saved := [] |} in
      Monitored.adaptivity (B := Example.backend) 10 10 so0
        Example.opts_binary64 5%nat 1%float 0%float 0.25%float mon0
      = Raise NameError
      /\ Monitored.adaptivity (B := Example.backend) 10 10 so0
           (Example.steady 3 Example.opts_binary64) 5%nat
           1%float 0%float 0.25%float mon0 = Raise TypeError
      /\ bind (Monitored.adaptivity (B := Example.backend) 10 10 so0
                 (Example.steady 0 Example.opts_binary64) 5%nat
                 1%float 0%float 0.25%float mon0)
              (fun r => Return (ad_i (fst r), refinements (ad_log (fst r)),
                                ad_log (fst r)))
         = Return (1%Z, 1%nat,
                   passes float 1 ++ [MaxIterationsWarning 15%float])).
Proof.
  split; [|split].
  - intros iters fuel so o mesh T t0 k mon Hs Hmax Htol.
    unfold Monitored.adaptivity. cbn [Monitored.adaptivity_loop].
    cbn [adaptivity_init ad_i ad_COND].
    replace (0 <=? maxAdapts o)%Z with true
      by (symmetry; apply Z.leb_le; exact Hmax).
    rewrite Htol. cbn [andb].
    match goal with
    | |- context [Monitored.adaptivity_body fuel so o t0 T ?s0 mon] =>
        destruct (Monitored.adaptivity_body fuel so o t0 T s0 mon)
          as [[s1 mon1]| |] eqn:Hbody; [|reflexivity|reflexivity]
    end.
    destruct (monitored_adaptivity_body_returns _ _ _ _ _ _ _ _ _ Hbody)
      as (_ & Hs' & _). congruence.
  - intros iters fuel so o mesh T t0 k mon mon1 s1 Htol Hbody Hcond.
    destruct (monitored_adaptivity_body_returns _ _ _ _ _ _ _ _ _ Hbody)
      as (_ & _ & Hi1 & Hk1 & Hlog1).
    cbn [adaptivity_init ad_k ad_log app] in Hk1, Hlog1.
    split.
    + intro Hmax. unfold Monitored.adaptivity.
      rewrite (monitored_adaptivity_loop_first_pass fuel so o t0 T iters mesh
                 k mon mon1 s1) by (try lia; assumption).
      replace (1 <=? maxAdapts o)%Z with true
        by (symmetry; apply Z.leb_le; exact Hmax).
      now rewrite Hcond.
    + intro Hmax. unfold Monitored.adaptivity.
      rewrite (monitored_adaptivity_loop_first_pass fuel so o t0 T iters mesh
                 k mon mon1 s1) by (try lia; assumption).
      rewrite Hmax. cbn [Z.leb Z.compare andb bind]. rewrite Hi1, Hcond.
      cbn [Z.ltb Z.compare andb].
      eexists. split; [reflexivity|].
      cbn [ad_i ad_mesh ad_k ad_log]. rewrite Hlog1.
      repeat split; try assumption.
  - cbv zeta. split; [apply raised_Some; vm_compute; reflexivity|].
    split; [apply raised_Some; vm_compute; reflexivity|].
    vm_compute. reflexivity.
Qed.

Lemma adaptivity_second_pass_raises_witness :
  let so := {| Monitored.saveSolution := false; Monitored.saveFrequency := 1 |} in
  let mon := {| Monitored._t := []; Monitored._timestep := 0;
                Monitored.saved := [] |} in
  let o := Example.steady 3 Example.opts_exact in
  fgt (of_int 1) (adaptTOL o) = true
  /\ (exists s1 mon1,
         Monitored.adaptivity_body (B := Example.backend) 5 so o 0 1
           (adaptivity_init (B := Example.backend) 5%nat (1 # 4)) mon
         = Return (s1, mon1)
         /\ fgt (ad_COND s1) (adaptTOL o) = true)
  /\ (1 <= maxAdapts o)%Z
  /\ Monitored.adaptivity (B := Example.backend) 2 5 so o 5%nat 1 0 (1 # 4) mon
     = Raise TypeError.
Proof.
  intros so mon o.
  assert (H1 : fgt (of_int 1) (adaptTOL o) = true) by reflexivity.
  assert (Hb : match Monitored.adaptivity_body (B := Example.backend) 5 so o
                       0 1 (adaptivity_init (B := Example.backend) 5%nat (1 # 4))
                       mon with
               | Return (s1, _) => fgt (ad_COND s1) (adaptTOL o)
               | _ => false
               end = true) by (vm_compute; reflexivity).
  destruct (Monitored.adaptivity_body (B := Example.backend) 5 so o 0 1
              (adaptivity_init (B := Example.backend) 5%nat (1 # 4)) mon)
    as [[s1 mon1]| |] eqn:H2; try discriminate Hb.
  assert (H3 : (1 <= maxAdapts o)%Z) by (cbn; lia).
  split; [exact H1|]. split; [exists s1, mon1; split; [reflexivity | exact Hb]|].
  split; [exact H3|].
  exact (proj1 (proj1 (proj2 (adaptivity_second_pass_raises
                                (B := Example.backend)))
                      0%nat 5%nat so o 5%nat 1 0 (1 # 4) mon mon1 s1 H1 H2 Hb)
               H3).
Defined.

(** * Further properties *)

(** ** The time loop on any interval *)

Section TimeLoopGeneral.

Context {B : Backend Q}.
Variables (mesh : Mesh) (T k : Q).

(** From a state that is [j] steps short of [T - k / 2], and not fewer,
    the loop runs [j] more passes. *)
Lemma time_loop_steps (j : nat) :
  0 < k ->
  forall (fuel : nat) (s : stepper),
    T - k * (1 # 2) <= ts_t s + inject_Z (Z.of_nat j) * k ->
    ((0 < j)%nat -> ts_t s + inject_Z (Z.of_nat j - 1) * k < T - k * (1 # 2)) ->
    (j < fuel)%nat ->
    exists s', time_loop fuel mesh T k s = Return s'
               /\ ts_t s' == ts_t s + inject_Z (Z.of_nat j) * k
               /\ length (ts_solved s') = (length (ts_solved s) + j)%nat.
Proof.
  intro Hk.
  induction j as [|j IH]; intros fuel s Hup Hlow Hfuel;
    (destruct fuel as [|fuel]; [lia|]);
    destruct (time_loop_guard T k s) as (h & Hh & Hguard);
    cbn [time_loop]; rewrite Hh; cbn [bind].
  - change (inject_Z (Z.of_nat 0)) with 0 in *.
    assert (E : flt (ts_t s) (fsub T h) = false)
      by (apply not_true_is_false; intro E; apply Hguard in E; lra).
    rewrite E. exists s. repeat split; [lra | lia].
  - rewrite Nat2Z.inj_succ, <- Z.add_1_r in Hup, Hlow.
    replace (Z.of_nat j + 1 - 1)%Z with (Z.of_nat j) in Hlow by lia.
    rewrite inject_Z_plus in Hup. change (inject_Z 1) with 1 in Hup.
    pose proof (inject_Z_nonneg (Z.of_nat j) (Nat2Z.is_nonneg j)) as Hj.
    specialize (Hlow ltac:(lia)).
    assert (E : flt (ts_t s) (fsub T h) = true) by (apply Hguard; nra).
    rewrite E.
    destruct (IH fuel (time_step_body mesh k s)) as (s' & Hs' & Ht' & Hlen).
    + cbn [time_step_body ts_t fadd Exact.arith]. rewrite Qred_correct. lra.
    + intro Hj0. cbn [time_step_body ts_t fadd Exact.arith].
      rewrite Qred_correct.
      replace (Z.of_nat j - 1)%Z with (Z.of_nat j + -1)%Z by lia.
      rewrite inject_Z_plus. change (inject_Z (-1)) with (-1 # 1). lra.
    + lia.
    + exists s'. split; [exact Hs'|]. split.
      * rewrite Ht'. cbn [time_step_body ts_t fadd Exact.arith].
        rewrite Qred_correct, Nat2Z.inj_succ, <- Z.add_1_r, inject_Z_plus.
        change (inject_Z 1) with 1. ring.
      * rewrite Hlen. cbn [time_step_body ts_solved]. rewrite length_app.
        cbn [length]. lia.
Qed.

(** With a step that is not positive the time never reaches
    [T - k / 2]. *)
Lemma time_loop_stuck (fuel : nat) :
  k <= 0 ->
  forall s : stepper,
    ts_t s < T - k * (1 # 2) -> time_loop fuel mesh T k s = OutOfFuel.
Proof.
  intro Hk. induction fuel as [|fuel IH]; intros s Hs; [reflexivity|].
  destruct (time_loop_guard T k s) as (h & Hh & Hguard).
  cbn [time_loop]. rewrite Hh. cbn [bind].
  replace (flt (ts_t s) (fsub T h)) with true
    by (symmetry; apply Hguard; exact Hs).
  apply IH. cbn [time_step_body ts_t fadd Exact.arith].
  rewrite Qred_correct. lra.
Qed.

End TimeLoopGeneral.

(** The number of passes of the time loop from [t0]: the least [n >= 0]
    with [t0 + n * k >= T - k / 2]. *)
Lemma step_count_bounds (t0 T k : Q) :
  0 < k ->
  let n := Z.to_nat (Qceiling ((T - t0) / k - (1 # 2))) in
  T - k * (1 # 2) <= t0 + inject_Z (Z.of_nat n) * k
  /\ ((0 < n)%nat -> t0 + inject_Z (Z.of_nat n - 1) * k < T - k * (1 # 2)).
Proof.
  intros Hk n.
  set (q := (T - t0) / k - (1 # 2)) in *.
  assert (Hq : q * k == T - t0 - k * (1 # 2)) by (unfold q; field; lra).
  pose proof (Qle_ceiling q) as Hc1. pose proof (Qceiling_lt q) as Hc2.
  destruct (Z.le_gt_cases (Qceiling q) 0) as [Hle | Hgt].
  - replace n with 0%nat by (unfold n; lia).
    split; [|lia]. change (inject_Z (Z.of_nat 0)) with 0.
    assert (inject_Z (Qceiling q) <= 0)
      by (change 0 with (inject_Z 0); rewrite <- Zle_Qle; exact Hle).
    nra.
  - assert (Hn : Z.of_nat n = Qceiling q) by (unfold n; lia).
    rewrite Hn. split; [nra|]. intros _. nra.
Qed.

(** The run of the time loop in exact arithmetic from any state at time
    [t0]: the number of passes, the final time, and the last time before
    it. *)
Lemma time_loop_run_exact {B : Backend Q} (mesh : Mesh) (t0 T k : Q)
      (s0 : stepper) :
  0 < k -> ts_t s0 == t0 ->
  let n := Z.to_nat (Qceiling ((T - t0) / k - (1 # 2))) in
  exists s,
    (forall fuel, (n < fuel)%nat -> time_loop fuel mesh T k s0 = Return s)
    /\ length (ts_solved s) = (length (ts_solved s0) + n)%nat
    /\ ts_t s == t0 + inject_Z (Z.of_nat n) * k
    /\ T - k * (1 # 2) <= ts_t s
    /\ ((0 < n)%nat -> ts_t s < T + k * (1 # 2)).
Proof.
  intros Hk Ht0 n.
  destruct (step_count_bounds t0 T k Hk) as (Hup & Hlow). fold n in Hup, Hlow.
  destruct (time_loop_steps mesh T k n Hk (S n) s0) as (s & Hrun & Ht & Hlen).
  { now rewrite Ht0. }
  { intro Hn. rewrite Ht0. now apply Hlow. }
  { lia. }
  rewrite Ht0 in Ht.
  exists s. split; [|split; [exact Hlen|split; [exact Ht|]]].
  - intros fuel Hfuel.
    apply (time_loop_fuel_mono mesh T k (S n)); [exact Hrun | lia].
  - split; [lra|]. intro Hn. specialize (Hlow Hn).
    replace (Z.of_nat n) with ((Z.of_nat n - 1) + 1)%Z in Ht by lia.
    rewrite inject_Z_plus in Ht. change (inject_Z 1) with 1 in Ht. lra.
Qed.

(** X1.  In exact arithmetic [timeStepper] returns for every start time
    [t0], every end time [T] that is not zero and every step [k > 0], not
    only when [k] divides [T - t0]: it makes
    [n = max(0, ceil((T - t0) / k - 1/2))] passes, the least number after
    which [t >= T - k / 2], calls [update] [n + 1] times and ends at
    [t = t0 + n * k], which lies in [[T - k/2, T + k/2)] when a pass was
    made. *)
Theorem timeStepper_terminates_exact {B : Backend Q}
        (so : Monitored.save_options) (mesh : Mesh) (t0 T k : Q) (w w_ : Fn)
        (func : bool) (mon : Monitored.monitor) :
  0 < k -> ~ T == 0 ->
  exists s mon',
    let n := Z.to_nat (Qceiling ((T - t0) / k - (1 # 2))) in
    (forall fuel, (n < fuel)%nat ->
                  Monitored.timeStepper fuel so mesh t0 T k w w_ func mon
                  = Return (s, mon'))
    /\ length (ts_solved s) = n
    /\ ts_t s == t0 + inject_Z (Z.of_nat n) * k
    /\ T - k * (1 # 2) <= ts_t s
    /\ ((0 < n)%nat -> ts_t s < T + k * (1 # 2))
    /\ Monitored._timestep mon'
       = (Monitored._timestep mon + Z.of_nat n + 1)%Z.
Proof.
  intros Hk HT0.
  destruct (time_loop_run_exact mesh t0 T k
              {| ts_t := t0; ts_w := w; ts_w_ := w_;
                 ts_m := if func then Some (fmul k (functional mesh w_))
                         else None;
                 ts_solved := [] |} Hk (Qeq_refl t0))
    as (s & Hrun & Hlen & Ht & Hge & Hlt).
  cbn [ts_solved length Nat.add] in Hlen.
  exists s. eexists. cbv zeta.
  split; [|split; [exact Hlen | split; [exact Ht | split; [exact Hge |
           split; [exact Hlt|]]]]].
  - intros fuel Hfuel.
    apply monitored_timeStepper_returns; [now apply percentage_exact|].
    unfold timeStepper. now apply Hrun.
  - cbn [Monitored._timestep]. now rewrite Hlen.
Qed.

Lemma timeStepper_terminates_exact_witness :
  let so := {| Monitored.saveSolution := false; Monitored.saveFrequency := 1 |} in
  let mon := {| Monitored._t := []; Monitored._timestep := 0;
                Monitored.saved := [] |} in
  0 < 3 # 10 /\ ~ 1 == 0
  /\ exists s mon',
       Monitored.timeStepper (B := Example.backend) 5 so 5%nat 0 1 (3 # 10)
                             0 1 true mon = Return (s, mon')
       /\ length (ts_solved s) = 3%nat
       /\ ts_t s == 9 # 10
       /\ Monitored._timestep mon' = 4%Z.
Proof.
  intros so mon.
  assert (H1 : 0 < 3 # 10) by reflexivity.
  assert (H2 : ~ 1 == 0) by discriminate.
  split; [exact H1|]. split; [exact H2|].
  destruct (timeStepper_terminates_exact (B := Example.backend)
              so 5%nat 0 1 (3 # 10) 0 1 true mon H1 H2)
    as (s & mon' & Hrun & Hlen & Ht & _ & _ & Hts).
  exists s, mon'. split; [apply Hrun; vm_compute; lia|].
  split; [exact Hlen|]. split; [exact Ht | exact Hts].
Defined.

(** With the step [adjust_dt] returns, the time loop started at [t0] ends
    within [DOLFIN_EPS] of [T], in exact arithmetic. *)
Lemma adjusted_run_exact {B : Backend Q} (mesh : Mesh) (t0 T k : Q) :
  t0 < T -> 0 < k ->
  exists k' n,
    adjust_dt t0 T k = Return k' /\ 0 < k'
    /\ forall s0 : stepper,
         ts_t s0 == t0 ->
         exists s,
           (forall fuel, (n < fuel)%nat ->
                         time_loop fuel mesh T k' s0 = Return s)
           /\ length (ts_solved s) = (length (ts_solved s0) + n)%nat
           /\ ts_t s == t0 + inject_Z (Z.of_nat n) * k'
           /\ Qabs (ts_t s - T) <= DOLFIN_EPS.
Proof.
  intros HT Hk.
  destruct (adjust_dt_exact_cases t0 T k HT Hk) as (Hd & (Hr0 & Hrk) & Hcase).
  set (x := T - t0) in *. set (d := Qfloor (x / k)) in *.
  assert (Hx : 0 < x) by (unfold x; lra).
  pose proof (inject_Z_nonneg d Hd) as Hd0.
  pose proof DOLFIN_EPS_nonneg as Heps.
  destruct Hcase as [(Hle & Heq) | (Hlt & k' & Heq & Hk')].
  - set (n := Z.to_nat (Qceiling ((T - t0) / k - (1 # 2)))).
    exists k, n. split; [exact Heq|]. split; [exact Hk|].
    intros s0 Hs0.
    destruct (time_loop_run_exact mesh t0 T k s0 Hk Hs0)
      as (s & Hrun & Hlen & Ht & Hge & Hlt).
    fold n in Hrun, Hlen, Ht, Hlt.
    exists s. repeat split; try assumption.
    apply Qabs_case; intro Hs.
    + (* t >= T: one pass beyond the last whole step *)
      destruct (Nat.eq_0_gt_0_cases n) as [Hn0 | Hnpos].
      * rewrite Hn0 in Ht. change (inject_Z (Z.of_nat 0)) with 0 in Ht.
        unfold x in *. lra.
      * specialize (Hlt Hnpos).
        destruct (step_count_bounds t0 T k Hk) as (_ & Hlow).
        fold n in Hlow. specialize (Hlow Hnpos).
        replace (Z.of_nat n) with ((Z.of_nat n - 1) + 1)%Z in Ht by lia.
        rewrite inject_Z_plus in Ht. change (inject_Z 1) with 1 in Ht.
        set (e := inject_Z (Z.of_nat n - 1)) in *.
        assert (Hed : e < inject_Z d + 1).
        { assert (e * k < (inject_Z d + 1) * k) by (unfold x in *; nra). nra. }
        assert (Hz : (Z.of_nat n - 1 < d + 1)%Z).
        { unfold e in Hed. change 1 with (inject_Z 1) in Hed.
          now rewrite <- inject_Z_plus, <- Zlt_Qlt in Hed. }
        destruct (Z.eq_dec (Z.of_nat n - 1) d) as [Hnd | Hnd].
        -- unfold e in *. rewrite Hnd in *. unfold x in *. lra.
        -- assert (Hed' : e + 1 <= inject_Z d).
           { unfold e. change 1 with (inject_Z 1).
             rewrite <- inject_Z_plus, <- Zle_Qle. lia. }
           unfold x in *. nra.
    + (* t <= T *)
      destruct (Qlt_le_dec (inject_Z (Z.of_nat n)) (inject_Z d)) as [Hnd | Hnd].
      * rewrite <- Zlt_Qlt in Hnd.
        assert (Hnd' : inject_Z (Z.of_nat n) + 1 <= inject_Z d).
        { change 1 with (inject_Z 1). rewrite <- inject_Z_plus, <- Zle_Qle. lia. }
        unfold x in *. nra.
      * unfold x in *. nra.
  - assert (Hd1 : 0 < inject_Z (d + 1))
      by (rewrite inject_Z_plus; change (inject_Z 1) with 1; lra).
    assert (Hk'pos : 0 < k') by (rewrite Hk'; apply Qlt_shift_div_l; lra).
    exists k', (Z.to_nat (d + 1)). split; [exact Heq|]. split; [exact Hk'pos|].
    intros s0 Hs0.
    destruct (time_loop_exact mesh T k' Hk'pos (Z.to_nat (d + 1))
                (S (Z.to_nat (d + 1))) s0)
      as (s & Hrun & Ht & Hlen).
    { rewrite Hs0, Z2Nat.id by lia. rewrite Hk'. unfold x. field. lra. }
    { lia. }
    exists s. split.
    { intros fuel Hfuel.
      apply (time_loop_fuel_mono mesh T k' (S (Z.to_nat (d + 1))));
        [exact Hrun | lia]. }
    split; [exact Hlen|]. split.
    { rewrite Ht, Z2Nat.id by lia. rewrite Hk'. unfold x. field. lra. }
    rewrite Ht. setoid_replace (T - T) with 0 by ring. exact Heps.
Qed.

(** X2.  In exact arithmetic the time loop does not return when the step is
    zero or negative and the start time is below [T - k / 2]: whatever the
    fuel, it is still running. *)
Theorem timeStepper_diverges_without_progress {B : Backend Q} (mesh : Mesh)
        (t0 T k : Q) (w w_ : Fn) (func : bool) :
  k <= 0 -> t0 < T - k * (1 # 2) ->
  forall fuel, timeStepper fuel mesh t0 T k w w_ func = OutOfFuel.
Proof.
  intros Hk Ht fuel. unfold timeStepper.
  now apply time_loop_stuck.
Qed.

Lemma timeStepper_diverges_without_progress_witness :
  - (1 # 4) <= 0 /\ 0 < 1 - - (1 # 4) * (1 # 2)
  /\ timeStepper (B := Example.backend) 1000 5%nat 0 1 (- (1 # 4)) 0 1 true
     = OutOfFuel.
Proof.
  assert (H1 : - (1 # 4) <= 0) by discriminate.
  assert (H2 : 0 < 1 - - (1 # 4) * (1 # 2)) by reflexivity.
  split; [exact H1|]. split; [exact H2|].
  exact (timeStepper_diverges_without_progress (B := Example.backend)
           5%nat 0 1 (- (1 # 4)) 0 1 true H1 H2 1000%nat).
Defined.

(** ** [adjust_dt] outside its intended inputs *)

(** X3.  A step that is not positive passes through [adjust_dt] without a
    check.  In exact arithmetic, on every interval [T > t0], a negative step
    is returned unchanged: the remainder of the division takes the sign of
    [k], so it never exceeds [DOLFIN_EPS].  A step of zero raises
    [ZeroDivisionError] at the division, for every [t0] and [T], on binary64
    too and for either sign of the zero. *)
Theorem adjust_dt_nonpositive_step (t0 T k : Q) :
  t0 < T -> k <= 0 ->
  adjust_dt t0 T k
  = (if Qeq_bool k 0 then Raise ZeroDivisionError else Return k)
  /\ (forall a b : Q, adjust_dt a b 0 = Raise ZeroDivisionError)
  /\ (forall a b : float, adjust_dt a b 0%float = Raise ZeroDivisionError)
  /\ (forall a b : float, adjust_dt a b (-0)%float = Raise ZeroDivisionError).
Proof.
  intros HT Hk. split; [|repeat split; intros; reflexivity].
  unfold adjust_dt. cbn [divmod fsub Exact.arith].
  unfold Exact.Qdivmod. destruct (Qeq_bool k 0) eqn:E0; [reflexivity|].
  apply Qeq_bool_neq in E0.
  assert (Hneg : k < 0).
  { destruct (Qlt_le_dec k 0) as [|Hge]; [assumption|].
    exfalso. apply E0. lra. }
  cbn [bind]. unfold fgt. cbn [flt Exact.arith].
  replace (Exact.Qltb _ _) with false; [reflexivity|].
  symmetry. apply Qltb_false_iff. rewrite !Qred_correct.
  set (x := T - t0).
  pose proof (Qfloor_le (x / k)) as Hl.
  assert (Hq : x == (x / k) * k) by (field; lra).
  pose proof DOLFIN_EPS_nonneg.
  set (q := x / k) in *. set (d := inject_Z (Qfloor q)) in *.
  assert (x - d * k <= 0) by (rewrite Hq at 1; nra).
  lra.
Qed.

Lemma adjust_dt_nonpositive_step_witness :
  0 < 1 /\ - (3 # 10) <= 0 /\ adjust_dt 0 1 (- (3 # 10)) = Return (- (3 # 10)).
Proof.
  assert (H1 : 0 < 1) by reflexivity.
  assert (H2 : - (3 # 10) <= 0) by discriminate.
  split; [exact H1|]. split; [exact H2|].
  exact (proj1 (adjust_dt_nonpositive_step 0 1 (- (3 # 10)) H1 H2)).
Defined.

(** X4.  In exact arithmetic, on a reversed interval that is shorter than
    the step, [t0 - k < T < t0], the quotient of the division is [-1] and,
    unless the remainder [T - t0 + k] is within [DOLFIN_EPS] of [0],
    [adjust_dt] divides by [d + 1 = 0] and raises [ZeroDivisionError]; on
    the empty interval [T = t0] it returns the step as it is. *)
Theorem adjust_dt_reversed_interval (t0 T k : Q) :
  T <= t0 -> t0 - T < k ->
  adjust_dt t0 T k
  = if Qle_bool (T - t0 + k) DOLFIN_EPS || Qeq_bool T t0 then Return k
    else Raise ZeroDivisionError.
Proof.
  intros HT Hk.
  assert (Hkpos : 0 < k) by lra.
  unfold adjust_dt. cbn [divmod fsub Exact.arith].
  unfold Exact.Qdivmod. rewrite Qeq_bool_false_of_neq by lra.
  cbn [bind]. unfold fgt. cbn [flt Exact.arith truediv fadd of_int].
  set (x := Qred (T - t0)).
  assert (Hx : x == T - t0) by (unfold x; apply Qred_correct).
  destruct (Qeq_bool T t0) eqn:E0.
  - apply Qeq_bool_eq in E0. rewrite orb_true_r.
    assert (Hf : Qfloor (x / k) = 0%Z).
    { apply Qfloor_unique; change (inject_Z 0) with 0.
      - setoid_replace (x / k) with 0; [lra | rewrite Hx, E0; field; lra].
      - setoid_replace (x / k) with 0; [lra | rewrite Hx, E0; field; lra]. }
    rewrite Hf.
    replace (Exact.Qltb _ _) with false; [reflexivity|].
    symmetry. apply Qltb_false_iff. rewrite Qred_correct, Hx, E0.
    change (inject_Z 0) with 0. pose proof DOLFIN_EPS_nonneg. lra.
  - apply Qeq_bool_neq in E0. rewrite orb_false_r.
    assert (Hneg : T < t0).
    { destruct (Qlt_le_dec T t0) as [|Hge]; [assumption|].
      exfalso. apply E0. lra. }
    assert (Hf : Qfloor (x / k) = (-1)%Z).
    { assert (Hq : x == (x / k) * k) by (field; lra).
      apply Qfloor_unique; change (inject_Z (-1)) with (-1 # 1);
        set (q := x / k) in *; nra. }
    rewrite Hf.
    assert (Hr : Qred (x - inject_Z (-1) * k) == T - t0 + k).
    { rewrite Qred_correct, Hx. change (inject_Z (-1)) with (-1 # 1). ring. }
    destruct (Qle_bool (T - t0 + k) DOLFIN_EPS) eqn:E.
    + apply Qle_bool_iff in E.
      replace (Exact.Qltb _ _) with false; [reflexivity|].
      symmetry. apply Qltb_false_iff. now rewrite Hr.
    + replace (Exact.Qltb _ _) with true.
      * reflexivity.
      * symmetry. apply Qltb_true_iff. rewrite Hr.
        destruct (Qlt_le_dec DOLFIN_EPS (T - t0 + k)) as [|Hle]; [assumption|].
        apply Qle_bool_iff in Hle. congruence.
Qed.

Lemma adjust_dt_reversed_interval_witness :
  0 <= 1 /\ 1 - 0 < 3
  /\ adjust_dt 1 0 3 = Raise ZeroDivisionError.
Proof.
  assert (H1 : 0 <= 1) by discriminate.
  assert (H2 : 1 - 0 < 3) by reflexivity.
  split; [exact H1|]. split; [exact H2|].
  exact (adjust_dt_reversed_interval 1 0 3 H1 H2).
Defined.

(** X5.  In exact arithmetic, for [T > t0] and [k > 0], the step [adjust_dt]
    returns is either [k] itself or [(T - t0) / n] for a whole number
    [n >= 1] of steps, in which case it is below [k] and is the largest
    step of that form not above [k].  It is more than half of [k] when [k]
    fits into the interval, and it is the interval itself when [k] is longer
    than an interval of more than [DOLFIN_EPS]. *)
Theorem adjust_dt_largest_even_step (t0 T k : Q) :
  t0 < T -> 0 < k ->
  exists k',
    adjust_dt t0 T k = Return k'
    /\ (k' == k
        \/ exists n, (1 <= n)%Z /\ k' == (T - t0) / inject_Z n /\ k' < k
                     /\ forall m, (1 <= m)%Z -> (T - t0) / inject_Z m <= k ->
                                  (T - t0) / inject_Z m <= k')
    /\ (k <= T - t0 -> k * (1 # 2) < k')
    /\ (T - t0 < k -> DOLFIN_EPS < T - t0 -> k' == T - t0).
Proof.
  intros HT Hk.
  destruct (adjust_dt_exact_cases t0 T k HT Hk) as (Hd & (Hr0 & Hrk) & Hcase).
  set (x := T - t0) in *. set (d := Qfloor (x / k)) in *.
  assert (Hx : 0 < x) by (unfold x; lra).
  pose proof (inject_Z_nonneg d Hd) as Hd0.
  pose proof DOLFIN_EPS_nonneg as Heps.
  destruct Hcase as [(Hle & Heq) | (Hlt & k' & Heq & Hk')].
  - exists k. split; [exact Heq|]. split; [left; reflexivity|]. split.
    + intros _. lra.
    + intros Hxk Hex. exfalso.
      assert (Hd' : d = 0%Z).
      { apply Qfloor_unique; change (inject_Z 0) with 0.
        - apply Qle_shift_div_l; lra.
        - apply Qlt_shift_div_r; lra. }
      rewrite Hd' in Hle. change (inject_Z 0) with 0 in Hle. lra.
  - assert (Hd1 : 0 < inject_Z (d + 1))
      by (rewrite inject_Z_plus; change (inject_Z 1) with 1; lra).
    assert (Hd1' : inject_Z (d + 1) == inject_Z d + 1)
      by (rewrite inject_Z_plus; reflexivity).
    assert (Hk'x : k' * inject_Z (d + 1) == x) by (rewrite Hk'; field; lra).
    exists k'. split; [exact Heq|]. split; [right; exists (d + 1)%Z|split].
    + split; [lia|]. split; [exact Hk'|]. split; [nra|].
      intros m Hm Hmk.
      assert (Hm0 : 0 < inject_Z m)
        by (change 0 with (inject_Z 0); rewrite <- Zlt_Qlt; lia).
      assert (Hxm : x <= inject_Z m * k).
      { apply (Qmult_le_r _ _ (inject_Z m)) in Hmk; [|exact Hm0].
        setoid_replace (x / inject_Z m * inject_Z m) with x in Hmk
          by (field; lra).
        lra. }
      assert (Hdm : inject_Z d < inject_Z m) by nra.
      rewrite <- Zlt_Qlt in Hdm.
      assert (Hdm' : inject_Z (d + 1) <= inject_Z m) by (rewrite <- Zle_Qle; lia).
      rewrite Hk'.
      apply Qle_shift_div_l; [exact Hd1|].
      setoid_replace (x / inject_Z m * inject_Z (d + 1))
        with (x * (inject_Z (d + 1) / inject_Z m)) by (field; lra).
      assert (inject_Z (d + 1) / inject_Z m <= 1)
        by (apply Qle_shift_div_r; lra).
      nra.
    + intro Hkx.
      assert (Hd' : 1 <= inject_Z d).
      { change 1 with (inject_Z 1). rewrite <- Zle_Qle.
        change 1%Z with (Qfloor 1). apply Qfloor_resp_le.
        apply Qle_shift_div_l; lra. }
      nra.
    + intros Hxk _.
      assert (Hd' : d = 0%Z).
      { apply Qfloor_unique; change (inject_Z 0) with 0.
        - apply Qle_shift_div_l; lra.
        - apply Qlt_shift_div_r; lra. }
      rewrite Hk', Hd'. change (inject_Z (0 + 1)) with 1. field.
Qed.

Lemma adjust_dt_largest_even_step_witness :
  0 < 1 /\ 0 < 3 # 10
  /\ exists k',
       adjust_dt 0 1 (3 # 10) = Return k'
       /\ (3 # 10 <= 1 - 0 -> (3 # 10) * (1 # 2) < k').
Proof.
  assert (H1 : 0 < 1) by reflexivity.
  assert (H2 : 0 < 3 # 10) by reflexivity.
  split; [exact H1|]. split; [exact H2|].
  destruct (adjust_dt_largest_even_step 0 1 (3 # 10) H1 H2)
    as (k' & Hk' & _ & Hhalf & _).
  exists k'. split; [exact Hk' | exact Hhalf].
Defined.

(** ** The checkpoint budget and the time loop *)





(** The last element of a list that has a first one. *)
Lemma last_cons {A} (l : list A) :
  forall a d, last (a :: l) d = last l a.
Proof.
  induction l as [|b l IH]; intros a d; [reflexivity|].
  change (last (a :: b :: l) d) with (last (b :: l) d).
  now rewrite !IH.
Qed.

Section TimeLoopTrace.

Context {F : Type} `{PyFloat F} {B : Backend F}.
Variables (mesh : Mesh) (T k : F).

(** What a run of the loop from [s] adds to [s]. *)
Lemma time_loop_trace (fuel : nat) :
  forall s s' : stepper,
    time_loop fuel mesh T k s = Return s' ->
    exists n,
      let ts := times (ts_t s) k n in
      let ws := states mesh k (ts_w_ s) ts in
      ts_solved s' = ts_solved s ++ ts
      /\ ts_t s' = last ts (ts_t s)
      /\ ts_w_ s' = last ws (ts_w_ s)
      /\ ts_w s' = last ws (ts_w s)
      /\ ts_m s'
         = option_map
             (fun m => fold_left
                         (fun m w => fadd m (fmul k (functional mesh w)))
                         ws m)
             (ts_m s).
Proof.
  induction fuel as [|fuel IH]; intros s s' Hrun; [discriminate|].
  cbn [time_loop] in Hrun.
  destruct (truediv k (of_int 2)) as [h| |]; cbn [bind] in Hrun;
    try discriminate.
  destruct (flt (ts_t s) (fsub T h)).
  - apply IH in Hrun. destruct Hrun as (n & Hs & Ht & Hw_ & Hw & Hm).
    cbn [time_step_body ts_t ts_w ts_w_ ts_m ts_solved] in Hs, Ht, Hw_, Hw, Hm.
    exists (S n). cbn [times states].
    set (t1 := fadd (ts_t s) k) in *.
    set (w1 := solve_step mesh t1 k (ts_w_ s)) in *.
    split; [rewrite Hs, <- app_assoc; reflexivity|].
    split; [now rewrite Ht, last_cons|].
    split; [now rewrite Hw_, last_cons|].
    split; [now rewrite Hw, last_cons|].
    rewrite Hm. destruct (ts_m s); reflexivity.
  - injection Hrun as <-. exists 0%nat. cbn.
    rewrite app_nil_r. repeat split. now destruct (ts_m s).
Qed.

End TimeLoopTrace.

(** X7.  Whatever the arithmetic, a run of [timeStepper] that returns has
    solved at the times [t + k, (t + k) + k, ...], each state from the one
    before it starting at [w_]; it returns the last of these states (the
    untouched [w] when no pass was made), and with [func] the value [m] is
    [k * J(w_)] for the initial state plus [k * J(w)] for every state
    solved, added in that order; without [func] it is [None]. *)
Theorem timeStepper_functional_sum {F : Type} `{PyFloat F} {B : Backend F}
        (fuel : nat) (mesh : Mesh) (t T k : F) (w w_ : Fn) (func : bool)
        (s : stepper) :
  timeStepper fuel mesh t T k w w_ func = Return s ->
  let ts := times t k (length (ts_solved s)) in
  let ws := states mesh k w_ ts in
  ts_solved s = ts
  /\ ts_t s = last ts t
  /\ ts_w s = last ws w
  /\ ts_w_ s = last ws w_
  /\ ts_m s
     = if func
       then Some (fold_left (fun m wj => fadd m (fmul k (functional mesh wj)))
                            ws (fmul k (functional mesh w_)))
       else None.
Proof.
  unfold timeStepper. intro Hrun.
  apply time_loop_trace in Hrun. destruct Hrun as (n & Hs & Ht & Hw_ & Hw & Hm).
  cbn [ts_t ts_w ts_w_ ts_m ts_solved app] in Hs, Ht, Hw_, Hw, Hm.
  assert (Hn : length (ts_solved s) = n).
  { rewrite Hs. clear. generalize t. induction n as [|n IH]; intro t0;
      [reflexivity | cbn; now rewrite IH]. }
  cbv zeta. rewrite Hn.
  repeat split; try assumption.
  rewrite Hm. now destruct func.
Qed.

Lemma timeStepper_functional_sum_witness :
  exists s,
    timeStepper (B := Example.backend) 9 5%nat 0 1 (1 # 2) 0 1 true = Return s
    /\ ts_solved s = [1 # 2; 1]
    /\ ts_w s = 9 # 4
    /\ ts_m s = Some (19 # 8).
Proof.
  assert (Hb : match timeStepper (B := Example.backend) 9 5%nat 0 1 (1 # 2)
                                 0 1 true with
               | Return s => Nat.eqb (length (ts_solved s)) 2
               | _ => false
               end = true) by (vm_compute; reflexivity).
  destruct (timeStepper (B := Example.backend) 9 5%nat 0 1 (1 # 2) 0 1 true)
    as [s| |] eqn:Hrun; try discriminate Hb.
  apply Nat.eqb_eq in Hb.
  destruct (timeStepper_functional_sum (B := Example.backend)
              9 5%nat 0 1 (1 # 2) 0 1 true s Hrun)
    as (Hs & _ & Hw & _ & Hm).
  rewrite Hb in Hs, Hw, Hm.
  exists s. split; [reflexivity|].
  split; [rewrite Hs; vm_compute; reflexivity|].
  split; [rewrite Hw; vm_compute; reflexivity|].
  rewrite Hm. vm_compute. reflexivity.
Defined.

(** X8.  Whatever the arithmetic, when the update of the initial condition
    returns and the guard [t < T - k / 2.] is false at the start, a
    time-dependent [forward_solve] makes no pass and returns the function
    [w] it created, which was never assigned, not the initial condition; the
    functional value is [k * J(ic)], and the one update made is that of the
    initial condition. *)
Theorem forward_solve_without_steps {F : Type} `{PyFloat F} {B : Backend F}
        (fuel : nat) (so : Monitored.save_options) (o : options F)
        (mesh : Mesh) (t0 T k h : F) (func : bool)
        (mon mon0 : Monitored.monitor) :
  steady_state o = false ->
  Monitored.update so T (Some t0) (initial_conditions mesh) false mon
  = Return mon0 ->
  truediv k (of_int 2) = Return h ->
  flt t0 (fsub T h) = false ->
  Monitored.forward_solve (S fuel) so o mesh t0 T k func mon
  = Return (zero_function mesh,
            (if func then Some (fmul k (functional mesh (initial_conditions mesh)))
             else None),
            mon0).
Proof.
  intros Ho Hup Hh Hg.
  unfold Monitored.forward_solve, Monitored.timeStepper. rewrite Ho.
  cbn [negb]. rewrite Hup.
  cbn [bind Monitored.time_loop]. rewrite Hh. cbn [bind ts_t]. rewrite Hg.
  reflexivity.
Qed.

Lemma forward_solve_without_steps_witness :
  let so := {| Monitored.saveSolution := false; Monitored.saveFrequency := 1 |} in
  let mon := {| Monitored._t := []; Monitored._timestep := 0;
                Monitored.saved := [] |} in
  let mon0 := {| Monitored._t := [Some 1]; Monitored._timestep := 1;
                 Monitored.saved :=
                   @nil (Monitored.output (B := Example.backend)) |} in
  steady_state Example.opts_exact = false
  /\ Monitored.update (B := Example.backend) so 1 (Some 1) 1 false mon
     = Return mon0
  /\ truediv (1 # 4) (of_int 2) = Return (1 # 8)
  /\ flt 1 (fsub 1 (1 # 8)) = false
  /\ Monitored.forward_solve (B := Example.backend) 1 so Example.opts_exact
                             5%nat 1 1 (1 # 4) true mon
     = Return (0, Some (1 # 4), mon0).
Proof.
  intros so mon mon0.
  assert (H1 : steady_state Example.opts_exact = false) by reflexivity.
  assert (H2 : Monitored.update (B := Example.backend) so 1 (Some 1) 1 false
                                mon = Return mon0) by reflexivity.
  assert (H3 : truediv (1 # 4) (of_int 2) = Return (1 # 8)) by reflexivity.
  assert (H4 : flt 1 (fsub 1 (1 # 8)) = false) by reflexivity.
  repeat (split; [assumption|]).
  exact (forward_solve_without_steps (B := Example.backend) 0 so
           Example.opts_exact 5%nat 1 1 (1 # 4) (1 # 8) true mon mon0
           H1 H2 H3 H4).
Defined.

(** ** What [adaptivity] returns *)





(** X11.  Whatever the arithmetic and the problem: with a tolerance that the
    starting metric [1] does not exceed, or with a negative [maxAdapts],
    [adaptivity] makes no pass and returns the mesh and the step it was
    given; in the second case, when [1] exceeds the tolerance, it still
    prints the warning, with the metric [1] that no solve produced. *)
Theorem adaptivity_without_passes {F : Type} `{PyFloat F} {B : Backend F}
        (iters fuel : nat) (o : options F) (mesh : Mesh) (T t0 k : F) :
  (maxAdapts o < 0)%Z \/ fgt (of_int 1) (adaptTOL o) = false ->
  exists s,
    adaptivity (S iters) fuel o mesh T t0 k = Return s
    /\ ad_mesh s = mesh /\ ad_k s = k /\ ad_i s = 0%Z
    /\ ad_log s = closing_report o (of_int 1).
Proof.
  intro Hcase. unfold adaptivity. cbn [adaptivity_loop].
  assert (Hg : ((ad_i (adaptivity_init mesh k) <=? maxAdapts o)%Z
                && fgt (ad_COND (adaptivity_init mesh k)) (adaptTOL o))%bool
               = false).
  { cbn [adaptivity_init ad_i ad_COND].
    destruct Hcase as [Hneg | Htol].
    - replace (0 <=? maxAdapts o)%Z with false
        by (symmetry; apply Z.leb_gt; exact Hneg).
      reflexivity.
    - rewrite Htol. apply andb_false_r. }
  rewrite Hg. cbn [bind adaptivity_init ad_i ad_COND].
  unfold closing_report.
  destruct (fgt (of_int 1) (adaptTOL o)) eqn:Htol.
  - destruct Hcase as [Hneg | Hf]; [|discriminate].
    replace (maxAdapts o <? 0)%Z with true
      by (symmetry; apply Z.ltb_lt; exact Hneg).
    cbn [andb]. eexists. split; [reflexivity|]. repeat split.
  - rewrite andb_false_r. eexists. split; [reflexivity|]. repeat split.
Qed.

Lemma adaptivity_without_passes_witness :
  let o := {| theta := 1 # 2; adaptRatio := 4 # 10; maxAdapts := -1;
              adaptTOL := 1 # 1000000; onDisk := 0; steady_state := false |} in
  ((maxAdapts o < 0)%Z \/ fgt (of_int 1) (adaptTOL o) = false)
  /\ exists s,
       adaptivity (B := Example.backend) 1 5 o 5%nat 1 0 (1 # 4) = Return s
       /\ ad_mesh s = 5%nat /\ ad_k s = 1 # 4 /\ ad_i s = 0%Z
       /\ ad_log s = [MaxIterationsWarning 1].
Proof.
  intro o.
  assert (H1 : (maxAdapts o < 0)%Z \/ fgt (of_int 1) (adaptTOL o) = false)
    by (left; reflexivity).
  split; [exact H1|].
  exact (adaptivity_without_passes (B := Example.backend) 0 5 o 5%nat 1 0
           (1 # 4) H1).
Defined.

(** X12.  Whatever the arithmetic and the problem, a call of [adaptivity]
    that returns gives back the step it was given, also when the problem
    has a [time_step] method: the branch that takes a new step from it runs
    only in the pass of a time-dependent solver, and that pass never gets
    there.  Without a pass the mesh too is the one given. *)
Theorem adaptivity_returned_step {F : Type} `{PyFloat F} {B : Backend F}
        (iters fuel : nat) (so : Monitored.save_options) (o : options F)
        (mesh : Mesh) (T t0 k : F) (mon mon' : Monitored.monitor)
        (s : adaptation) :
  Monitored.adaptivity iters fuel so o mesh T t0 k mon = Return (s, mon') ->
  ad_k s = k /\ (ad_i s = 0%Z -> ad_mesh s = mesh /\ mon' = mon).
Proof.
  intro Hrun.
  destruct (monitored_adaptivity_result fuel so o t0 T iters mesh k mon mon' s
              Hrun) as (sl & Hloop & Hi & _ & Hm & Hk & _).
  rewrite Hi, Hm, Hk.
  destruct (monitored_adaptivity_loop_returns fuel so o t0 T iters mesh k mon
              mon' sl Hloop) as (_ & [(-> & ->) | (_ & Hbody)]).
  - cbn [adaptivity_init ad_k ad_mesh]. now repeat split.
  - destruct (monitored_adaptivity_body_returns fuel so o t0 T _ _ _ _ Hbody)
      as (_ & _ & Hi1 & Hk1 & _).
    split; [exact Hk1|]. rewrite Hi1. discriminate.
Qed.

Lemma adaptivity_returned_step_witness :
  let B := with_time_step (Example.backend (F := Q))
                          (fun n => 1 # Pos.of_nat n) in
  let so := {| Monitored.saveSolution := false; Monitored.saveFrequency := 1 |} in
  let mon := {| Monitored._t := []; Monitored._timestep := 0;
                Monitored.saved := [] |} in
  let o := Example.steady 0 Example.opts_exact in
  exists s mon',
    Monitored.adaptivity (B := B) 2 5 so o 5%nat 1 0 (1 # 4) mon
    = Return (s, mon')
    /\ ad_mesh s = 6%nat
    /\ ad_k s = 1 # 4.
Proof.
  intros B so mon o.
  assert (Hb : match Monitored.adaptivity (B := B) 2 5 so o 5%nat 1 0 (1 # 4)
                                          mon with
               | Return (s, _) => Nat.eqb (ad_mesh s) 6
               | _ => false
               end = true) by (vm_compute; reflexivity).
  destruct (Monitored.adaptivity (B := B) 2 5 so o 5%nat 1 0 (1 # 4) mon)
    as [[s mon']| |] eqn:Hrun; try discriminate Hb.
  apply Nat.eqb_eq in Hb.
  destruct (adaptivity_returned_step (B := B) 2 5 so o 5%nat 1 0 (1 # 4)
              mon mon' s Hrun) as (Hk & _).
  exists s, mon'. split; [reflexivity|]. split; [exact Hb | exact Hk].
Defined.

Section DualSweep.

Context {F : Type} `{PyFloat F} {B : Backend F}.
Variables (o : options F) (mesh : Mesh) (k : F).

(** Entries of other variables leave the sweep as it is. *)
Lemma dual_body_skips (s : dual_sweep) (entry : Fn * variable) :
  is_w entry = false -> dual_body o mesh k s entry = s.
Proof.
  destruct entry as [adj var]. unfold is_w, dual_body. cbn [snd].
  now intros ->.
Qed.

Lemma dual_sweep_filter (entries : list (Fn * variable)) :
  forall s, fold_left (dual_body o mesh k) entries s
            = fold_left (dual_body o mesh k) (filter is_w entries) s.
Proof.
  induction entries as [|e entries IH]; intro s; [reflexivity|].
  cbn [fold_left filter]. destruct (is_w e) eqn:E.
  - cbn [fold_left]. apply IH.
  - rewrite (dual_body_skips s e E). apply IH.
Qed.

(** What the sweep adds to the dual states and to the time. *)
Lemma dual_sweep_phi (entries : list (Fn * variable)) :
  forall s,
    let s' := fold_left (dual_body o mesh k) entries s in
    dual_phi s' = dual_phi s ++ map fst (filter is_w entries)
    /\ dual_t s'
       = if steady_state o then dual_t s
         else fold_left (fun t _ => fsub t k) (filter is_w entries) (dual_t s).
Proof.
  induction entries as [|[adj var] entries IH]; intro s; cbn zeta.
  - cbn. rewrite app_nil_r. now destruct (steady_state o).
  - cbn [fold_left filter].
    assert (E : is_w (adj, var) = String.eqb (var_name var) "w")
      by reflexivity.
    rewrite !E. unfold dual_body at 2 4.
    destruct (String.eqb (var_name var) "w").
    + destruct (steady_state o) eqn:Hs; cbn [negb];
        match goal with
        | |- context [fold_left _ entries ?s1] =>
            destruct (IH s1) as (Hp & Ht)
        end;
        cbn [dual_phi dual_t] in Hp, Ht;
        (split; [rewrite Hp, <- app_assoc; reflexivity | rewrite Ht; reflexivity]).
    + apply IH.
Qed.

End DualSweep.

(** The dual states [compute_dual] returns, and the number of tape
    values. *)
Lemma compute_dual_phi {F : Type} `{PyFloat F} {B : Backend F}
      (o : options F) (mesh : Mesh) (T k : F) (w : Fn) :
  fst (compute_dual o mesh T k w)
  = map fst (filter is_w (compute_adjoint mesh w))
  /\ length (snd (compute_dual o mesh T k w))
     = length (filter is_w (compute_adjoint mesh w)).
Proof.
  destruct (dual_sweep_phi o mesh k (compute_adjoint mesh w)
              {| dual_timestep := None; dual_iteration := 0%Z;
                 dual_wtape := []; dual_phi := []; dual_t := T;
                 dual_pairs := [] |}) as (Hp & _).
  cbn [dual_phi app] in Hp.
  fold (dual_walk o mesh T k (compute_adjoint mesh w)) in Hp.
  split; [exact Hp|].
  rewrite <- compute_dual_lengths. unfold compute_dual. cbn [fst].
  now rewrite Hp, length_map.
Qed.

(** X13.  Whatever the arithmetic and the problem, [compute_dual] looks at
    the entries of the variable named [w] only: the sweep over all entries
    ends in the state of the sweep over those entries alone; the dual states
    it returns are their adjoint solutions in the order of the sweep, as
    many as tape values; and in the time-dependent case the time it reports
    starts at [T] and has gone down by [k] once per such entry (it stays at
    [T] for a steady problem). *)
Theorem compute_dual_primal_entries {F : Type} `{PyFloat F} {B : Backend F}
        (o : options F) (mesh : Mesh) (T k : F) (w : Fn) :
  let entries := compute_adjoint mesh w in
  dual_walk o mesh T k entries = dual_walk o mesh T k (filter is_w entries)
  /\ fst (compute_dual o mesh T k w) = map fst (filter is_w entries)
  /\ length (snd (compute_dual o mesh T k w)) = length (filter is_w entries)
  /\ dual_t (dual_walk o mesh T k entries)
     = if steady_state o then T
       else fold_left (fun t _ => fsub t k) (filter is_w entries) T.
Proof.
  intro entries.
  split; [apply dual_sweep_filter|].
  destruct (compute_dual_phi o mesh T k w) as (Hphi & Hlen).
  split; [exact Hphi|]. split; [exact Hlen|].
  destruct (dual_sweep_phi o mesh k entries
              {| dual_timestep := None; dual_iteration := 0%Z;
                 dual_wtape := []; dual_phi := []; dual_t := T;
                 dual_pairs := [] |}) as (_ & Ht).
  exact Ht.
Qed.

(** X14.  Whatever the arithmetic and the problem, [adaptive_solve] on a
    time-dependent solver never returns: when the checkpoint set-up, the
    primal solve and the dual sweep have gone through, it raises [NameError]
    at the [xrange] of [build_error_indicators], also when the tape is so
    short that the loop would have nothing to run over. *)
Theorem adaptive_solve_time_dependent_raises {F : Type} `{PyFloat F}
        {B : Backend F} (fuel : nat) (so : Monitored.save_options)
        (o : options F) (mesh : Mesh) (t0 T k : F)
        (mon : Monitored.monitor) :
  steady_state o = false ->
  returned (Monitored.adaptive_solve fuel so o mesh t0 T k mon) = false
  /\ (forall c w m mon1 phi wtape mon2,
         adaptive_solve_checkpointing o t0 T k = Return c ->
         Monitored.forward_solve fuel so o mesh t0 T k true
                                 (Monitored.reset_timestep mon)
         = Return (w, m, mon1) ->
         Monitored.compute_dual so o mesh T k w
                                (Monitored.reset_timestep mon1)
         = Return (phi, wtape, mon2) ->
         Monitored.adaptive_solve fuel so o mesh t0 T k mon
         = Raise NameError).
Proof.
  intro Hs.
  split; [now apply monitored_adaptive_solve_never_returns|].
  intros c w m mon1 phi wtape mon2 Hc Hf Hd.
  rewrite monitored_adaptive_solve_time_dependent by exact Hs.
  rewrite Hc, Hf. cbn [bind fst snd]. now rewrite Hd.
Qed.

Lemma adaptive_solve_time_dependent_raises_witness :
  let B := with_tape (Example.backend (F := Q))
                     (fun _ w => [(w, Example.w_entry 1);
                                  (w, Example.other_entry 1)]) in
  let so := {| Monitored.saveSolution := false; Monitored.saveFrequency := 1 |} in
  let mon := {| Monitored._t := []; Monitored._timestep := 0;
                Monitored.saved := [] |} in
  steady_state Example.opts_exact = false
  /\ adaptive_solve_checkpointing Example.opts_exact 0 1 (1 # 2) = Return None
  /\ (exists m mon1 mon2,
         Monitored.forward_solve (B := B) 9 so Example.opts_exact 3%nat 0 1
                                 (1 # 2) true (Monitored.reset_timestep mon)
         = Return (9 # 4, m, mon1)
         /\ Monitored.compute_dual (B := B) so Example.opts_exact 3%nat 1
                                   (1 # 2) (9 # 4)
                                   (Monitored.reset_timestep mon1)
            = Return ([9 # 4], [2], mon2))
  /\ Monitored.adaptive_solve (B := B) 9 so Example.opts_exact 3%nat 0 1
                              (1 # 2) mon
     = Raise NameError.
Proof.
  intros B so mon.
  assert (H1 : steady_state Example.opts_exact = false) by reflexivity.
  assert (H2 : adaptive_solve_checkpointing Example.opts_exact 0 1 (1 # 2)
               = Return None) by (vm_compute; reflexivity).
  split; [exact H1|]. split; [exact H2|].
  assert (Hb : match Monitored.forward_solve (B := B) 9 so Example.opts_exact
                       3%nat 0 1 (1 # 2) true (Monitored.reset_timestep mon)
               with
               | Return (w, _, _) => w = 9 # 4
               | _ => False
               end) by (vm_compute; reflexivity).
  destruct (Monitored.forward_solve (B := B) 9 so Example.opts_exact
              3%nat 0 1 (1 # 2) true (Monitored.reset_timestep mon))
    as [[[w m] mon1]| |] eqn:H3; try contradiction.
  subst w.
  assert (Hd : match Monitored.compute_dual (B := B) so Example.opts_exact
                       3%nat 1 (1 # 2) (9 # 4)
                       (Monitored.reset_timestep mon1) with
               | Return (phi, wtape, _) => phi = [9 # 4] /\ wtape = [2]
               | _ => False
               end).
  { unfold Monitored.compute_dual. cbn [compute_adjoint B with_tape fold_left].
    unfold Monitored.dual_body at 2. cbn [bind is_w snd Example.w_entry
      var_name String.eqb Ascii.eqb Bool.eqb andb steady_state
      Example.opts_exact negb].
    unfold Monitored.update at 1.
    cbn [truediv Exact.arith]. unfold Exact.Qtruediv.
    change (Qeq_bool 1 0) with false. cbn [bind].
    unfold Monitored.dual_body. cbn [bind is_w snd Example.other_entry
      var_name String.eqb Ascii.eqb Bool.eqb andb].
    split; reflexivity. }
  destruct (Monitored.compute_dual (B := B) so Example.opts_exact
              3%nat 1 (1 # 2) (9 # 4) (Monitored.reset_timestep mon1))
    as [[[phi wtape] mon2]| |] eqn:H4; try contradiction.
  destruct Hd as (-> & ->).
  split; [exists m, mon1, mon2;
          split; [first [exact H3 | reflexivity] | exact H4]|].
  exact (proj2 (adaptive_solve_time_dependent_raises (B := B) 9 so
                  Example.opts_exact 3%nat 0 1 (1 # 2) mon H1)
               None (9 # 4) m mon1 [9 # 4] [2] mon2 H2 H3 H4).
Defined.

(** X15.  Whatever the arithmetic: on a steady problem whose tape holds no
    entry of the primal variable, [adaptive_solve] raises [IndexError] at
    [phi[0]], after the primal solve. *)
Theorem adaptive_solve_steady_empty_tape {F : Type} `{PyFloat F}
        {B : Backend F} (fuel : nat) (o : options F) (mesh : Mesh)
        (t0 T k : F) :
  steady_state o = true ->
  filter is_w (compute_adjoint mesh (solve_steady mesh)) = [] ->
  adaptive_solve fuel o mesh t0 T k = Raise IndexError.
Proof.
  intros Hs Hempty. unfold adaptive_solve, adaptive_solve_checkpointing,
    forward_solve.
  rewrite Hs. cbn [negb bind steady_solve].
  destruct (compute_dual_phi o mesh T k (solve_steady mesh)) as (Hphi & _).
  destruct (compute_dual o mesh T k (solve_steady mesh)) as [phi wtape].
  cbn [fst] in Hphi. rewrite Hempty in Hphi. cbn [map] in Hphi. subst phi.
  now rewrite getitem_nil.
Qed.

Lemma adaptive_solve_steady_empty_tape_witness :
  let B := with_tape (Example.backend (F := Q))
                     (fun _ w => [(w, Example.other_entry 0)]) in
  let o := {| theta := 1 # 2; adaptRatio := 4 # 10; maxAdapts := 3;
              adaptTOL := 1 # 2; onDisk := 0; steady_state := true |} in
  steady_state o = true
  /\ filter is_w (compute_adjoint (Backend := B) 3%nat
                                  (solve_steady (Backend := B) 3%nat)) = []
  /\ adaptive_solve (B := B) 0 o 3%nat 0 1 (1 # 2) = Raise IndexError.
Proof.
  intros B o.
  assert (H1 : steady_state o = true) by reflexivity.
  assert (H2 : filter is_w (compute_adjoint (Backend := B) 3%nat
                              (solve_steady (Backend := B) 3%nat)) = [])
    by reflexivity.
  split; [exact H1|]. split; [exact H2|].
  exact (adaptive_solve_steady_empty_tape (B := B) 0 o 3%nat 0 1 (1 # 2) H1 H2).
Defined.

(** ** Cell marking: which cells can be marked *)

Lemma getitem_In {A} (l : list A) (i : Z) (a : A) :
  getitem l i = Return a -> In a l.
Proof.
  unfold getitem. destruct (_ || _)%bool; [discriminate|].
  destruct (nth_error l _) eqn:E; [|discriminate].
  intros [= <-]. eapply nth_error_In, E.
Qed.

Lemma Qltb_irrefl (x : Q) : Exact.Qltb x x = false.
Proof. apply Qltb_false_iff. lra. Qed.

(** No double is below itself. *)
Lemma float_ltb_irrefl (x : float) : (x <? x)%float = false.
Proof.
  rewrite ltb_spec. unfold SFltb, SFcompare.
  destruct (Prim2SF x) as [s|s| |s m e]; try reflexivity.
  - now destruct s.
  - destruct s; rewrite Z.compare_refl, Pos.compare_cont_refl; reflexivity.
Qed.

Section Marking.

Context {F : Type} `{PyFloat F}.
Hypothesis flt_irrefl : forall x : F, flt x x = false.

(** The threshold is one of the absolute values, and its cell is not
    marked. *)
Lemma cell_markers_threshold_cell (ratio : F) (ei : list F)
      (mk : list bool) :
  cell_markers ratio ei = Return mk ->
  exists g0, In g0 (map fabs ei)
             /\ mk = map (fun g => fgt g g0) (map fabs ei)
             /\ length mk = length ei /\ In false mk.
Proof.
  unfold cell_markers, gamma_0.
  destruct (adapt_n ratio (map fabs ei)) as [n| |]; cbn [bind];
    try discriminate.
  destruct (getitem (sorted_desc (map fabs ei)) n) as [g0| |] eqn:Hg;
    cbn [bind]; try discriminate.
  intros [= <-]. exists g0.
  assert (Hin : In g0 (map fabs ei)).
  { apply getitem_In in Hg.
    eapply Permutation_in; [apply sorted_desc_perm | exact Hg]. }
  split; [exact Hin|]. split; [reflexivity|].
  split; [now rewrite !length_map|].
  apply in_map_iff. exists g0. split; [apply flt_irrefl | exact Hin].
Qed.

End Marking.

(** X16.  In exact arithmetic and on binary64: when the cell marking of
    [adaptive_refine] returns, there is one marker per cell and at least one
    cell is left unmarked, since the threshold [gamma_0] is the absolute
    value of some cell and the comparison is strict.  No [adapt_ratio]
    refines every cell. *)
Theorem cell_markers_spare_a_cell :
  (forall (ratio : Q) (ei : list Q) (mk : list bool),
      cell_markers ratio ei = Return mk ->
      length mk = length ei /\ In false mk)
  /\ (forall (ratio : float) (ei : list float) (mk : list bool),
         cell_markers ratio ei = Return mk ->
         length mk = length ei /\ In false mk).
Proof.
  split; intros ratio ei mk Hmk.
  - destruct (cell_markers_threshold_cell (H := Exact.arith) Qltb_irrefl ratio ei mk Hmk)
      as (g0 & _ & _ & Hlen & Hin).
    split; assumption.
  - destruct (cell_markers_threshold_cell (H := Binary64.arith) float_ltb_irrefl ratio ei mk Hmk)
      as (g0 & _ & _ & Hlen & Hin).
    split; assumption.
Qed.

Lemma cell_markers_spare_a_cell_witness :
  cell_markers 1 [5; 1; 4; 2; 3] = Return [true; false; true; true; true]
  /\ In false [true; false; true; true; true]
  /\ cell_markers 1%float [5; 1; 4; 2; 3]%float
     = Return [true; false; true; true; true].
Proof.
  assert (H1 : cell_markers 1 [5; 1; 4; 2; 3]
               = Return [true; false; true; true; true])
    by (vm_compute; reflexivity).
  split; [exact H1|].
  split; [|vm_compute; reflexivity].
  exact (proj2 (proj1 cell_markers_spare_a_cell 1 [5; 1; 4; 2; 3] _ H1)).
Defined.

(** X17.  In exact arithmetic and on binary64: on a field whose entries all
    have the same absolute value, the cell marking marks no cell, whatever
    the ratio. *)
Theorem cell_markers_uniform_field :
  (forall (ratio c : Q) (n : nat) (mk : list bool),
      cell_markers ratio (repeat c n) = Return mk -> mk = repeat false n)
  /\ (forall (ratio c : float) (n : nat) (mk : list bool),
         cell_markers ratio (repeat c n) = Return mk -> mk = repeat false n).
Proof.
  assert (Hgen : forall (F : Type) (HF : PyFloat F),
             (forall x : F, flt x x = false) ->
             forall (ratio c : F) (n : nat) (mk : list bool),
               cell_markers ratio (repeat c n) = Return mk ->
               mk = repeat false n).
  { intros F HF Hirr ratio c n mk Hmk.
    destruct (cell_markers_threshold_cell Hirr ratio (repeat c n) mk Hmk)
      as (g0 & Hin & -> & _ & _).
    apply in_map_iff in Hin. destruct Hin as (x & <- & Hx).
    apply repeat_spec in Hx. subst x.
    clear Hmk. induction n as [|n IH]; [reflexivity|].
    cbn [repeat map]. unfold fgt at 1. now rewrite Hirr, IH. }
  split.
  - apply (Hgen Q Exact.arith Qltb_irrefl).
  - apply (Hgen float Binary64.arith float_ltb_irrefl).
Qed.

Lemma cell_markers_uniform_field_witness :
  cell_markers (1 # 2) (repeat (3 # 7) 4) = Return [false; false; false; false]
  /\ [false; false; false; false] = repeat false 4.
Proof.
  assert (H1 : cell_markers (1 # 2) (repeat (3 # 7) 4)
               = Return [false; false; false; false])
    by (vm_compute; reflexivity).
  split; [exact H1|].
  exact (proj1 cell_markers_uniform_field (1 # 2) (3 # 7) 4%nat _ H1).
Defined.

(** X18.  In exact arithmetic the marking is upward closed: when a cell is
    marked, so is every cell whose indicator is at least as large in
    absolute value. *)
Theorem cell_markers_upward_closed (ratio : Q) (ei : list Q)
        (mk : list bool) (a b : nat) (x y : Q) :
  cell_markers ratio ei = Return mk ->
  nth_error ei a = Some x -> nth_error ei b = Some y ->
  Qabs x <= Qabs y ->
  nth_error mk a = Some true -> nth_error mk b = Some true.
Proof.
  intros Hmk Ha Hb Hxy Hma.
  destruct (cell_markers_threshold_cell (H := Exact.arith) Qltb_irrefl ratio ei mk Hmk)
    as (g0 & _ & -> & _ & _).
  rewrite map_map in *.
  rewrite nth_error_map, Ha in Hma. rewrite nth_error_map, Hb.
  cbn [option_map] in *. injection Hma as Hma. f_equal.
  unfold fgt in *. cbn [flt fabs Exact.arith] in *.
  apply Qltb_true_iff in Hma. apply Qltb_true_iff. lra.
Qed.

Lemma cell_markers_upward_closed_witness :
  cell_markers (6 # 10) [5; 1; -4; 2; 3] = Return [true; false; true; false; false]
  /\ Qabs (-4) <= Qabs 5
  /\ nth_error [true; false; true; false; false] 0 = Some true.
Proof.
  assert (H1 : cell_markers (6 # 10) [5; 1; -4; 2; 3]
               = Return [true; false; true; false; false])
    by (vm_compute; reflexivity).
  assert (H2 : Qabs (-4) <= Qabs 5) by discriminate.
  split; [exact H1|]. split; [exact H2|].
  exact (cell_markers_upward_closed (6 # 10) [5; 1; -4; 2; 3] _ 2 0 (-4) 5
           H1 eq_refl eq_refl H2 eq_refl).
Defined.

(** [int(x)] of equal rationals. *)
Lemma Qtrunc_comp (x y : Q) : x == y -> Exact.Qtrunc x = Exact.Qtrunc y.
Proof.
  intro E. destruct (Qlt_le_dec x 0) as [Hneg | Hpos].
  - rewrite !Qtrunc_nonpos by lra. now apply Qceiling_comp.
  - rewrite !Qtrunc_nonneg by lra. now apply Qfloor_comp.
Qed.

(** X19.  In exact arithmetic the cell marking returns exactly when the
    index [n = int(c * ratio - 1)] is a valid Python index of a list of [c]
    cells, [-c <= n < c]; otherwise [sorted(gamma)[n]] raises [IndexError],
    as it does on every field without cells.  A ratio above [1] or below [0]
    is not rejected as such.  In no arithmetic does the marking return on a
    field without cells. *)
Theorem cell_markers_index_range (ratio : Q) (ei : list Q) :
  let c := Z.of_nat (length ei) in
  let n := Exact.Qtrunc (inject_Z c * ratio - 1) in
  (if ((- c <=? n) && (n <? c))%Z
   then returned (cell_markers ratio ei) = true
   else cell_markers ratio ei = Raise IndexError)
  /\ cell_markers ratio [] = Raise IndexError
  /\ returned (cell_markers (14 # 10) [1; 2]) = true
  /\ returned (cell_markers (- (1 # 2)) [1; 2]) = true
  /\ (forall (F : Type) (HF : PyFloat F) (r : F),
         returned (cell_markers r []) = false).
Proof.
  intros c n. split; [|split; [|split; [|split]]]; try reflexivity.
  2:{ intros F HF r. unfold cell_markers, gamma_0. cbn [map].
      destruct (adapt_n r []) as [i| |]; cbn [bind]; try reflexivity.
      change (sorted_desc []) with (@nil F). now rewrite getitem_nil. }
  assert (Hn : adapt_n ratio (map Qabs ei) = Return n).
  { unfold adapt_n. cbn [int_ fsub fmul of_int Exact.arith].
    rewrite length_map. f_equal. apply Qtrunc_comp.
    rewrite !Qred_correct. reflexivity. }
  destruct ((- c <=? n) && (n <? c))%Z eqn:Hrange.
  - apply andb_true_iff in Hrange as [Hlo Hhi].
    apply Z.leb_le in Hlo. apply Z.ltb_lt in Hhi.
    destruct (cell_markers_at ratio ei n Hn) as (g0 & _ & _ & Hmk & _).
    { fold c. destruct (n <? 0)%Z eqn:E;
        [apply Z.ltb_lt in E | apply Z.ltb_ge in E]; lia. }
    now rewrite Hmk.
  - unfold cell_markers, gamma_0. cbn [fabs Exact.arith]. rewrite Hn.
    cbn [bind]. unfold getitem.
    rewrite sorted_desc_length, length_map. fold c.
    replace (_ || _)%bool with true; [reflexivity|].
    symmetry. apply andb_false_iff in Hrange.
    assert (Hc : (0 <= c)%Z) by apply Nat2Z.is_nonneg.
    destruct (n <? 0)%Z eqn:E;
      [apply Z.ltb_lt in E | apply Z.ltb_ge in E].
    + destruct Hrange as [Hlo | Hhi];
        [apply Z.leb_gt in Hlo | apply Z.ltb_ge in Hhi; lia].
      apply orb_true_iff. left. apply Z.ltb_lt. lia.
    + destruct Hrange as [Hlo | Hhi];
        [apply Z.leb_gt in Hlo; lia | apply Z.ltb_ge in Hhi].
      apply orb_true_iff. right. apply Z.leb_le. lia.
Qed.

(** ** The stopping metric and the sum of absolute values *)

(** The builtin [sum] in exact arithmetic. *)
Lemma pysum_exact (l : list Q) :
  forall a, fold_left fadd l a == a + fold_right Qplus 0 l.
Proof.
  induction l as [|x l IH]; intro a; cbn [fold_left fold_right]; [ring|].
  rewrite IH. cbn [fadd Exact.arith]. rewrite Qred_correct. ring.
Qed.

Lemma sum_abs_bounds (l : list Q) :
  Qabs (fold_right Qplus 0 l) <= fold_right Qplus 0 (map Qabs l).
Proof.
  induction l as [|x l IH]; cbn [fold_right map]; [discriminate|].
  eapply Qle_trans; [apply Qabs_triangle|]. lra.
Qed.

(** X20.  In exact arithmetic the metric [condition] computes lies between
    [0] and the sum of the absolute values that the warning of [adaptivity]
    names, and is that sum on a field without negative entries.  It does
    not depend on the functional values [m] and [m_] it is given, in any
    arithmetic. *)
Theorem condition_below_sum_abs (ei : list Q) (m m_ : option Q) :
  0 <= condition ei m m_
  /\ condition ei m m_ <= sum_abs ei
  /\ condition (map Qabs ei) m m_ == sum_abs ei
  /\ (forall (F : Type) (A : PyFloat F) (field : list F)
             (m1 m1_ m2 m2_ : option F),
         condition field m1 m1_ = condition field m2 m2_).
Proof.
  unfold condition, sum_abs, pysum. cbn [fabs of_int Exact.arith].
  change (inject_Z 0) with 0.
  split; [apply Qabs_nonneg|]. split; [|split; [|reflexivity]].
  - rewrite !pysum_exact, !Qplus_0_l. apply sum_abs_bounds.
  - rewrite !pysum_exact, !Qplus_0_l. apply Qabs_pos.
    induction ei as [|x l IH]; cbn [fold_right map]; [discriminate|].
    pose proof (Qabs_nonneg x). lra.
Qed.

(** ** The option dictionary *)

(** X21.  [__init__] returns exactly when the dictionary has the thirteen
    keys that [set_parameters] and [set_options] read without a default;
    otherwise it raises [KeyError] with the first of them, in reading
    order, that is missing.  The keys [refinement_algorithm], [theta] and
    [log_level] may be absent. *)
Theorem init_reports_first_missing_key (options : Config.dict) :
  match find (fun key => negb (Config.has_key options key)) Config.required with
  | Some key => Config.__init__ options = Config.KeyError key
  | None => exists prm st, Config.__init__ options = Config.Found (prm, st)
  end.
Proof.
  unfold Config.__init__, Config.set_parameters, Config.set_options,
    Config.required, Config.item_or, Config.item, Config.has_key.
  cbn [find].
  repeat match goal with
         | |- context [Config.get options ?key] =>
             destruct (Config.get options key);
             cbn [negb Config.and_then]; [|try reflexivity]
         end.
  all: try (do 2 eexists; reflexivity).
Qed.

(** A dictionary with all the required keys is accepted. *)
Lemma init_accepts (options : Config.dict) :
  forallb (Config.has_key options) Config.required = true ->
  exists prm st,
    Config.__init__ options = Config.Found (prm, st)
    /\ Config.set_options options = Config.Found st.
Proof.
  unfold Config.__init__, Config.set_parameters, Config.set_options,
    Config.required, Config.item_or, Config.item, Config.has_key.
  cbn [forallb].
  repeat match goal with
         | |- context [Config.get options ?key] =>
             destruct (Config.get options key);
             cbn [andb Config.and_then]; try discriminate
         end.
  all: intros _; do 2 eexists; split; reflexivity.
Qed.

(** What [set_options] stores for the keys with a default. *)
Lemma set_options_defaults (options : Config.dict) (st : Config.settings) :
  Config.set_options options = Config.Found st ->
  Config.steady_state st = false
  /\ Config.theta st
     = match Config.get options "theta" with
       | Some v => v
       | None => Config.VFloat 0.5
       end
  /\ Config.log_level st
     = match Config.get options "log_level" with
       | Some v => v
       | None => Config.VInt 50
       end.
Proof.
  unfold Config.set_options, Config.item_or, Config.item, Config.has_key.
  repeat match goal with
         | |- context [Config.get options ?key] =>
             destruct (Config.get options key);
             cbn [Config.and_then]; try discriminate
         end.
  all: intros [= <-]; repeat split.
Qed.

(** X22.  The default dictionary [OPTIONS] of the package has every key
    the constructor needs, so [__init__] accepts every dictionary that has
    the keys of [OPTIONS], whatever their values and whatever other keys it
    has.  The solver is never steady after [set_options], even when the
    dictionary has a key [steady_state]; [theta] is [0.5] and [log_level] is
    [50] unless the dictionary gives them, and for [OPTIONS] itself, which
    has no [log_level], the level is [50]. *)
Theorem init_accepts_extended_defaults (options : Config.dict) :
  (forall key, Config.has_key Config.OPTIONS key = true ->
               Config.has_key options key = true) ->
  exists prm st,
    Config.__init__ options = Config.Found (prm, st)
    /\ Config.steady_state st = false
    /\ Config.theta st
       = match Config.get options "theta" with
         | Some v => v
         | None => Config.VFloat 0.5
         end
    /\ Config.log_level st
       = match Config.get options "log_level" with
         | Some v => v
         | None => Config.VInt 50
         end.
Proof.
  intro Hkeys.
  destruct (init_accepts options) as (prm & st & Hinit & Hst).
  { apply forallb_forall. intros key Hin. apply Hkeys.
    revert key Hin. apply forallb_forall. vm_compute. reflexivity. }
  exists prm, st. split; [exact Hinit|].
  now apply set_options_defaults.
Qed.

Lemma init_accepts_extended_defaults_witness :
  (forall key, Config.has_key Config.OPTIONS key = true ->
               Config.has_key Config.OPTIONS key = true)
  /\ exists prm st,
       Config.__init__ Config.OPTIONS = Config.Found (prm, st)
       /\ Config.steady_state st = false
       /\ Config.theta st = Config.VFloat 0.5
       /\ Config.log_level st = Config.VInt 50.
Proof.
  split; [intros key Hkey; exact Hkey|].
  exact (init_accepts_extended_defaults Config.OPTIONS
           (fun key Hkey => Hkey)).
Defined.

(** ** The output files *)

Lemma list_ascii_of_string_app (a b : string) :
  list_ascii_of_string (a ++ b)
  = list_ascii_of_string a ++ list_ascii_of_string b.
Proof. induction a as [|c a IH]; cbn; [reflexivity | now rewrite IH]. Qed.

Lemma list_ascii_of_string_inj (a b : string) :
  list_ascii_of_string a = list_ascii_of_string b -> a = b.
Proof.
  intro E. rewrite <- (string_of_list_ascii_of_string a),
    <- (string_of_list_ascii_of_string b). now rewrite E.
Qed.

(** Names with the same stem, label and ending. *)
Lemma append_cancel (s1 s2 d d' s3 : string) :
  (s1 ++ s2 ++ d ++ s3 = s1 ++ s2 ++ d' ++ s3)%string -> d = d'.
Proof.
  intro E. apply (f_equal list_ascii_of_string) in E.
  rewrite !list_ascii_of_string_app in E.
  apply app_inv_head, app_inv_head, app_inv_tail in E.
  now apply list_ascii_of_string_inj.
Qed.

Lemma str_int_inj (n m : Z) : str_int n = str_int m -> n = m.
Proof.
  unfold str_int. intro E. apply DecimalZ.to_int_inj.
  assert (Hnil : forall z, Z.to_int z <> Decimal.Pos Decimal.Nil
                           /\ Z.to_int z <> Decimal.Neg Decimal.Nil).
  { intros [|p|p]; split; cbn; try discriminate;
      intros [= Hp]; now apply DecimalPos.Unsigned.to_uint_nonnil in Hp. }
  apply (f_equal NilZero.int_of_string) in E.
  rewrite !NilZero.isi in E by apply Hnil.
  now injection E.
Qed.

(** The padded form tells non-negative numbers apart. *)
Lemma format_02d_inj (n m : Z) :
  (0 <= n)%Z -> (0 <= m)%Z -> format_02d n = format_02d m -> n = m.
Proof.
  assert (Hu : forall z, (0 <= z)%Z ->
                         exists u, Z.to_int z = Decimal.Pos u
                                   /\ u <> Decimal.Nil
                                   /\ str_int z = NilEmpty.string_of_uint u).
  { intros [|p|p] Hz; [| |lia].
    - exists (Decimal.D0 Decimal.Nil). repeat split. discriminate.
    - exists (Pos.to_uint p). split; [reflexivity|].
      pose proof (DecimalPos.Unsigned.to_uint_nonnil p) as Hp.
      split; [exact Hp|]. unfold str_int. cbn.
      destruct (Pos.to_uint p); [contradiction|..]; reflexivity. }
  assert (Hmixed : forall a b, (0 <= a)%Z -> (0 <= b)%Z ->
                               String "0" (str_int a) = str_int b -> a = b).
  { intros a b Ha Hb E.
    destruct (Hu a Ha) as (ua & Hta & _ & Hsa).
    destruct (Hu b Hb) as (ub & Htb & _ & Hsb).
    rewrite Hsa, Hsb in E.
    change (String "0" (NilEmpty.string_of_uint ua))
      with (NilEmpty.string_of_uint (Decimal.D0 ua)) in E.
    apply (f_equal NilEmpty.uint_of_string) in E.
    rewrite !NilEmpty.usu in E. injection E as E.
    rewrite <- (DecimalZ.of_to a), <- (DecimalZ.of_to b), Hta, Htb, <- E.
    reflexivity. }
  intros Hn Hm. unfold format_02d. cbv zeta.
  destruct (String.length (str_int n) <? 2)%nat eqn:En,
           (String.length (str_int m) <? 2)%nat eqn:Em; intro E.
  - injection E as E. now apply str_int_inj.
  - now apply Hmixed.
  - symmetry. now apply Hmixed.
  - now apply str_int_inj.
Qed.

(** After the first pass the adaptive file names keep the first files for
    the velocity and the indicators. *)
Lemma files_of_passes_succ (s : string) (n : nat) :
  let f := files_of_passes s (S n) in
  _ufile f = Some (s ++ "_u00.pvd")%string
  /\ eifile f = Some (s ++ "_ei.pvd")%string
  /\ _pfile f = Some (s ++ "_p" ++ format_02d (Z.of_nat n) ++ ".pvd")%string
  /\ _uDualfile f
     = Some (s ++ "_uDual" ++ format_02d (Z.of_nat n) ++ ".pvd")%string
  /\ _pDualfile f
     = Some (s ++ "_pDual" ++ format_02d (Z.of_nat n) ++ ".pvd")%string
  /\ meshfile f
     = Some (s ++ "_mesh" ++ format_02d (Z.of_nat n) ++ ".xml")%string.
Proof.
  induction n as [|n IH]; [cbn; repeat split|].
  cbv zeta in *. unfold files_of_passes in *.
  rewrite seq_S, fold_left_app. cbn [fold_left Nat.add].
  destruct IH as (Hu & He & _).
  set (f := fold_left _ (seq 0 (S n)) no_files) in *.
  unfold file_naming.
  replace (Z.of_nat (S n) =? -1)%Z with false by (symmetry; apply Z.eqb_neq; lia).
  cbn [_ufile _pfile _uDualfile _pDualfile eifile meshfile].
  rewrite He, Hu. repeat split.
Qed.

(** X23.  In the adaptive loop, which renames the files at the start of
    every pass, the velocity file [_ufile] is opened in the first pass only:
    after any number of passes it is still the file [..._u00.pvd] of pass
    [0], and so is the indicator file [..._ei.pvd], while the pressure, the
    dual and the mesh files carry the number of the last pass.  The renaming
    for the final solve ([n = -1]) opens [..._u.pvd] and leaves the
    indicator file as it is. *)
Theorem file_naming_keeps_first_velocity_file (s : string) (n : nat) :
  let f := files_of_passes s (S n) in
  _ufile f = Some (s ++ "_u00.pvd")%string
  /\ eifile f = Some (s ++ "_ei.pvd")%string
  /\ _pfile f = Some (s ++ "_p" ++ format_02d (Z.of_nat n) ++ ".pvd")%string
  /\ _uDualfile f
     = Some (s ++ "_uDual" ++ format_02d (Z.of_nat n) ++ ".pvd")%string
  /\ _pDualfile f
     = Some (s ++ "_pDual" ++ format_02d (Z.of_nat n) ++ ".pvd")%string
  /\ meshfile f
     = Some (s ++ "_mesh" ++ format_02d (Z.of_nat n) ++ ".xml")%string
  /\ _ufile (file_naming s (-1) false f) = Some (s ++ "_u.pvd")%string
  /\ eifile (file_naming s (-1) false f) = eifile f.
Proof.
  cbv zeta.
  destruct (files_of_passes_succ s n) as (H1 & H2 & H3 & H4 & H5 & H6).
  repeat split; assumption.
Qed.

(** X24.  Passes with different numbers [i, j >= 0] get different pressure,
    dual and mesh files out of [file_naming], whatever the stem and the
    files before. *)
Theorem file_naming_separates_passes (s : string) (i j : Z) (opt opt' : bool)
        (f f' : files) :
  (0 <= i)%Z -> (0 <= j)%Z ->
  _pfile (file_naming s i opt f) = _pfile (file_naming s j opt' f')
  \/ _uDualfile (file_naming s i opt f) = _uDualfile (file_naming s j opt' f')
  \/ _pDualfile (file_naming s i opt f) = _pDualfile (file_naming s j opt' f')
  \/ meshfile (file_naming s i opt f) = meshfile (file_naming s j opt' f') ->
  i = j.
Proof.
  intros Hi Hj. unfold file_naming.
  replace (i =? -1)%Z with false by (symmetry; apply Z.eqb_neq; lia).
  replace (j =? -1)%Z with false by (symmetry; apply Z.eqb_neq; lia).
  cbn [_pfile _uDualfile _pDualfile meshfile].
  intros [E | [E | [E | E]]]; injection E as E;
    apply format_02d_inj; try assumption.
  - exact (append_cancel s "_p" _ _ ".pvd" E).
  - exact (append_cancel s "_uDual" _ _ ".pvd" E).
  - exact (append_cancel s "_pDual" _ _ ".pvd" E).
  - exact (append_cancel s "_mesh" _ _ ".xml" E).
Qed.

Lemma file_naming_separates_passes_witness :
  (0 <= 3)%Z
  /\ _pfile (file_naming "results/run" 3 false no_files)
     = _pfile (file_naming "results/run" 3 true (files_of_passes "results/run" 2))
  /\ _pfile (file_naming "results/run" 3 false no_files)
     = Some "results/run_p03.pvd"%string
  /\ 3%Z = 3%Z.
Proof.
  assert (H1 : (0 <= 3)%Z) by lia.
  assert (H2 : _pfile (file_naming "results/run" 3 false no_files)
               = _pfile (file_naming "results/run" 3 true
                                     (files_of_passes "results/run" 2)))
    by reflexivity.
  split; [exact H1|]. split; [exact H2|]. split; [reflexivity|].
  exact (file_naming_separates_passes "results/run" 3 3 false true no_files
           (files_of_passes "results/run" 2) H1 H1 (or_introl H2)).
Defined.

(** ** Progress and output *)


Section MonitoredDual.

Context {F : Type} `{PyFloat F} {B : Backend F}.
Variables (so : Monitored.save_options) (o : options F) (mesh : Mesh)
          (T k : F).

(** The failure of an earlier pass is the outcome of the sweep. *)
Lemma monitored_dual_fold_raise (entries : list (Fn * variable)) :
  forall e, fold_left (Monitored.dual_body so o mesh T k) entries (Raise e)
            = Raise e.
Proof. induction entries as [|x l IH]; intro e; [reflexivity | apply IH]. Qed.

Lemma monitored_dual_fold_fuel (entries : list (Fn * variable)) :
  fold_left (Monitored.dual_body so o mesh T k) entries OutOfFuel = OutOfFuel.
Proof. induction entries as [|x l IH]; [reflexivity | apply IH]. Qed.

(** A monitored sweep that returns is the sweep, with one update per
    entry of the primal variable when the problem is time-dependent. *)
Lemma monitored_dual_fold_trace (entries : list (Fn * variable)) :
  forall (s s' : dual_sweep) (mon mon' : Monitored.monitor),
    fold_left (Monitored.dual_body so o mesh T k) entries (Return (s, mon))
    = Return (s', mon') ->
    s' = fold_left (dual_body o mesh k) entries s
    /\ let adjs := map fst (filter is_w entries) in
       if steady_state o then mon' = mon
       else Monitored._t mon'
            = Monitored._t mon
              ++ map Some (Monitored.countdown (dual_t s) k (length adjs))
            /\ Monitored._timestep mon'
               = (Monitored._timestep mon + Z.of_nat (length adjs))%Z
            /\ Monitored.saved mon'
               = Monitored.saved mon
                 ++ Monitored.scheduled so T true (Monitored._timestep mon)
                      adjs.
Proof.
  induction entries as [|e entries IH]; intros s s' mon mon' Hrun.
  - injection Hrun as <- <-. split; [reflexivity|]. cbn.
    destruct (steady_state o); [reflexivity|].
    rewrite !app_nil_r, Z.add_0_r. repeat split.
  - cbn [fold_left] in Hrun. unfold Monitored.dual_body at 2 in Hrun.
    cbn [bind] in Hrun. cbn [fold_left filter].
    assert (Hbody : dual_body o mesh k s e
                    = if is_w e then dual_body o mesh k s e else s).
    { destruct e as [adj var]. unfold is_w, dual_body. cbn [snd].
      now destruct (String.eqb (var_name var) "w"). }
    assert (Hdt : is_w e = true -> steady_state o = false ->
                  dual_t (dual_body o mesh k s e) = fsub (dual_t s) k).
    { destruct e as [adj var]. unfold is_w, dual_body. cbn [snd].
      now intros -> ->. }
    destruct (is_w e) eqn:Ew; cbn [andb] in Hrun.
    + destruct (Monitored.update so T (Some (dual_t s)) (fst e) true mon)
        as [mon1| |] eqn:Hup.
      * apply update_effect in Hup. destruct Hup as (Ht1 & Hts1 & Hsv1).
        destruct (steady_state o) eqn:Hs; cbn [negb bind] in Hrun;
          apply IH in Hrun; destruct Hrun as (Hs' & Hmon);
          (split; [exact Hs'|]); [exact Hmon|].
        destruct Hmon as (Ht & Hts & Hsv).
        cbn [map length Monitored.countdown].
        rewrite (Hdt eq_refl eq_refl) in Ht.
        split; [rewrite Ht, Ht1; cbn [negb orb map];
                now rewrite <- app_assoc|].
        split; [rewrite Hts, Hts1; lia|].
        rewrite Hsv, Hsv1, Hts1, <- app_assoc.
        cbn [Monitored.scheduled]. now rewrite app_nil_r.
      * destruct (steady_state o) eqn:Hs; cbn [negb bind] in Hrun.
        -- apply IH in Hrun. destruct Hrun as (Hs' & Hmon).
           split; [exact Hs' | exact Hmon].
        -- now rewrite monitored_dual_fold_raise in Hrun.
      * destruct (steady_state o) eqn:Hs; cbn [negb bind] in Hrun.
        -- apply IH in Hrun. destruct Hrun as (Hs' & Hmon).
           split; [exact Hs' | exact Hmon].
        -- now rewrite monitored_dual_fold_fuel in Hrun.
    + rewrite Hbody in *. apply IH in Hrun. exact Hrun.
Qed.

(** Without the monitor, the monitored sweep is the sweep, when the
    percentage can be computed. *)
Lemma monitored_dual_fold_erase (entries : list (Fn * variable)) :
  (forall x, returned (truediv x T) = true) ->
  forall (s : dual_sweep) (mon : Monitored.monitor),
    bind (fold_left (Monitored.dual_body so o mesh T k) entries
                    (Return (s, mon)))
         (fun r => Return (fst r))
    = Return (fold_left (dual_body o mesh k) entries s).
Proof.
  intro Hperc.
  induction entries as [|e entries IH]; intros s mon; [reflexivity|].
  cbn [fold_left]. unfold Monitored.dual_body at 2. cbn [bind].
  destruct (is_w e && negb (steady_state o))%bool.
  - destruct (update_returns so T (Some (dual_t s)) (fst e) true mon Hperc)
      as (mon1 & ->).
    cbn [bind]. apply IH.
  - apply IH.
Qed.

End MonitoredDual.

(** The solutions scheduled for states given one after another. *)
Lemma scheduled_app {F : Type} `{PyFloat F} {B : Backend F}
      (so : Monitored.save_options) (T : F) (dual : bool) (ws ws' : list Fn) :
  forall ts,
    Monitored.scheduled so T dual ts (ws ++ ws')
    = Monitored.scheduled so T dual ts ws
      ++ Monitored.scheduled so T dual (ts + Z.of_nat (length ws)) ws'.
Proof.
  induction ws as [|w ws IH]; intro ts.
  - cbn. now rewrite Z.add_0_r.
  - cbn [app Monitored.scheduled length]. rewrite IH, <- app_assoc.
    do 3 f_equal. lia.
Qed.

(** X25.  A problem with end time [T = 0] cannot be stepped: the first
    [update], for the initial condition, computes [100 * t / problem.T] and
    raises [ZeroDivisionError] before any step is solved, in exact
    arithmetic and on binary64, whatever the start time and the step; a
    steady [forward_solve], whose [update] is given no time, is not
    affected. *)
Theorem timeStepper_needs_nonzero_end_time :
  (forall (B : Backend Q) fuel so mesh (t k : Q) w w_ func mon,
      Monitored.timeStepper fuel so mesh t 0 k w w_ func mon
      = Raise ZeroDivisionError)
  /\ (forall (B : Backend float) fuel so mesh (t k : float) w w_ func mon,
         Monitored.timeStepper fuel so mesh t 0%float k w w_ func mon
         = Raise ZeroDivisionError)
  /\ (forall (B : Backend Q) fuel so o mesh (t0 k : Q) func mon,
         returned (Monitored.forward_solve fuel so o mesh t0 0 k func mon)
         = steady_state o).
Proof.
  split; [|split].
  - intros. reflexivity.
  - intros. reflexivity.
  - intros. unfold Monitored.forward_solve.
    destruct (steady_state o); cbn [negb]; [|reflexivity].
    unfold Monitored.steady_solve. now destruct (steady_solve mesh func).
Qed.

(** X26.  Whatever the arithmetic, a [timeStepper] that returns after [n]
    passes has called [update] [n + 1] times: [_timestep] has gone up by
    [n + 1], and [_t] has received the start time and then the time of
    every pass, in order; without the monitor the run is the run of
    [timeStepper]. *)
Theorem timeStepper_counts_updates {F : Type} `{PyFloat F} {B : Backend F}
        (fuel : nat) (so : Monitored.save_options) (mesh : Mesh)
        (t T k : F) (w w_ : Fn) (func : bool) (mon mon' : Monitored.monitor)
        (s : stepper) :
  Monitored.timeStepper fuel so mesh t T k w w_ func mon = Return (s, mon') ->
  timeStepper fuel mesh t T k w w_ func = Return s
  /\ Monitored._t mon'
     = Monitored._t mon ++ Some t :: map Some (ts_solved s)
  /\ Monitored._timestep mon'
     = (Monitored._timestep mon + Z.of_nat (length (ts_solved s)) + 1)%Z.
Proof.
  intro Hrun. apply monitored_timeStepper_trace in Hrun.
  destruct Hrun as (H1 & H2 & H3 & _). repeat split; assumption.
Qed.

Lemma timeStepper_counts_updates_witness :
  let so := {| Monitored.saveSolution := true; Monitored.saveFrequency := 2 |} in
  let mon := {| Monitored._t := []; Monitored._timestep := 0;
                Monitored.saved := [] |} in
  exists s mon',
    Monitored.timeStepper (B := Example.backend) 9 so 5%nat 0 1 (1 # 4) 0 1
                          true mon = Return (s, mon')
    /\ Monitored._t mon'
       = [Some 0; Some (1 # 4); Some (1 # 2); Some (3 # 4); Some 1]
    /\ Monitored._timestep mon' = 5%Z.
Proof.
  intros so mon.
  assert (Hb : match Monitored.timeStepper (B := Example.backend) 9 so 5%nat
                       0 1 (1 # 4) 0 1 true mon with
               | Return (s, _) => ts_solved s = [1 # 4; 1 # 2; 3 # 4; 1]
               | _ => False
               end) by (vm_compute; reflexivity).
  destruct (Monitored.timeStepper (B := Example.backend) 9 so 5%nat
              0 1 (1 # 4) 0 1 true mon) as [[s mon']| |] eqn:Hrun;
    try contradiction.
  destruct (timeStepper_counts_updates (B := Example.backend) 9 so 5%nat
              0 1 (1 # 4) 0 1 true mon mon' s Hrun) as (_ & Ht & Hts).
  rewrite Hb in Ht, Hts.
  exists s, mon'. split; [reflexivity|]. split; [exact Ht | exact Hts].
Defined.

Lemma states_length {F : Type} `{PyFloat F} {B : Backend F}
      (mesh : Mesh) (k : F) (ts : list F) :
  forall w_, length (states mesh k w_ ts) = length ts.
Proof.
  induction ts as [|t ts IH]; intro w_; [reflexivity|].
  cbn [states length]. now rewrite IH.
Qed.

Lemma save_due_every_update {F : Type} `{PyFloat F}
      (so : Monitored.save_options) (T : F) (ts : Z) :
  Monitored.saveFrequency so = 1%Z \/ Monitored.saveFrequency so = (-1)%Z ->
  Monitored.save_due so T ts = true.
Proof.
  unfold Monitored.save_due. intros [-> | ->]; cbn [Z.eqb].
  - now rewrite Z.mod_1_r.
  - pose proof (Z.mod_neg_bound (ts - 1) (-1) ltac:(lia)) as Hb.
    replace ((ts - 1) mod -1)%Z with 0%Z by lia. reflexivity.
Qed.

Lemma scheduled_nothing {F : Type} `{PyFloat F} {B : Backend F}
      (so : Monitored.save_options) (T : F) (dual : bool) (ws : list Fn) :
  Monitored.saveSolution so = false \/ Monitored.saveFrequency so = 0%Z ->
  forall ts, Monitored.scheduled so T dual ts ws = [].
Proof.
  intro Hoff. induction ws as [|w ws IH]; intro ts; [reflexivity|].
  cbn [Monitored.scheduled]. rewrite IH, app_nil_r.
  destruct Hoff as [-> | Hf]; [reflexivity|].
  unfold Monitored.save_due. rewrite Hf. cbn [Z.eqb]. now rewrite andb_false_r.
Qed.

Lemma scheduled_everything {F : Type} `{PyFloat F} {B : Backend F}
      (so : Monitored.save_options) (T : F) (ws : list Fn) :
  Monitored.saveSolution so = true ->
  Monitored.saveFrequency so = 1%Z \/ Monitored.saveFrequency so = (-1)%Z ->
  forall ts, Monitored.scheduled so T false ts ws
             = map Monitored.ToPrimalFiles ws.
Proof.
  intros Hon Hf. induction ws as [|w ws IH]; intro ts; [reflexivity|].
  cbn [Monitored.scheduled map]. rewrite IH, Hon, save_due_every_update by exact Hf.
  reflexivity.
Qed.

(** X27.  Whatever the arithmetic, a [timeStepper] that returns after [n]
    passes has had [Save] write, of the initial condition and the [n] states
    solved, those whose update number [j] (counted from the value of
    [_timestep] at the start) makes [saveFrequency != 0] and
    [(j - 1) % saveFrequency == 0 or j == 0 or j == problem.T] true:
    nothing with [saveSolution] off or [saveFrequency = 0] (and no division
    by that zero), every state with a frequency of [1] or [-1]; the last
    state solved is written only if its number passes that test. *)
Theorem Save_schedule {F : Type} `{PyFloat F} {B : Backend F}
        (fuel : nat) (so : Monitored.save_options) (mesh : Mesh)
        (t T k : F) (w w_ : Fn) (func : bool) (mon mon' : Monitored.monitor)
        (s : stepper) :
  Monitored.timeStepper fuel so mesh t T k w w_ func mon = Return (s, mon') ->
  let ws := w_ :: states mesh k w_ (ts_solved s) in
  let n := Z.of_nat (length (ts_solved s)) in
  Monitored.saved mon'
  = Monitored.saved mon
    ++ Monitored.scheduled so T false (Monitored._timestep mon) ws
  /\ (Monitored.saveSolution so = false \/ Monitored.saveFrequency so = 0%Z ->
      Monitored.saved mon' = Monitored.saved mon)
  /\ (Monitored.saveSolution so = true ->
      Monitored.saveFrequency so = 1%Z \/ Monitored.saveFrequency so = (-1)%Z ->
      Monitored.saved mon'
      = Monitored.saved mon ++ map Monitored.ToPrimalFiles ws)
  /\ exists earlier,
       Monitored.saved mon'
       = earlier
         ++ (if Monitored.saveSolution so
                && Monitored.save_due so T (Monitored._timestep mon + n)
             then [Monitored.ToPrimalFiles (ts_w_ s)] else []).
Proof.
  intro Hrun. cbv zeta.
  apply monitored_timeStepper_trace in Hrun.
  destruct Hrun as (Hplain & _ & _ & Hsaved).
  split; [exact Hsaved|]. split; [|split].
  - intro Hoff. rewrite Hsaved, scheduled_nothing by exact Hoff.
    apply app_nil_r.
  - intros Hon Hf. rewrite Hsaved. f_equal.
    now apply scheduled_everything.
  - unfold timeStepper in Hplain. apply time_loop_trace in Hplain.
    destruct Hplain as (m & Hs & _ & Hw_ & _ & _).
    cbn [ts_t ts_w_ ts_solved app] in Hs, Hw_. rewrite <- Hs in Hw_.
    set (ws := states mesh k w_ (ts_solved s)) in *.
    assert (Hlen : length ws = length (ts_solved s))
      by apply states_length.
    rewrite Hsaved.
    destruct (exists_last (l := w_ :: ws) ltac:(discriminate))
      as (front & wl & Hsplit).
    assert (Hwl : wl = ts_w_ s).
    { rewrite Hw_, <- (last_cons ws w_ w_), Hsplit. symmetry. apply last_last. }
    assert (Hfront : length front = length (ts_solved s)).
    { apply (f_equal (@length _)) in Hsplit. rewrite length_app in Hsplit.
      cbn [length] in Hsplit. lia. }
    rewrite Hsplit, scheduled_app, Hfront, Hwl. cbn [Monitored.scheduled].
    rewrite app_nil_r, app_assoc. eexists. reflexivity.
Qed.

Lemma Save_schedule_witness :
  let so := {| Monitored.saveSolution := true; Monitored.saveFrequency := 2 |} in
  let mon := {| Monitored._t := []; Monitored._timestep := 0;
                Monitored.saved := [] |} in
  exists s mon',
    Monitored.timeStepper (B := Example.backend) 9 so 5%nat 0 1 (1 # 4) 0 1
                          true mon = Return (s, mon')
    /\ ts_w_ s = 625 # 256
    /\ Monitored.saved mon'
       = map (Monitored.ToPrimalFiles (B := Example.backend))
             [1; 5 # 4; 125 # 64].
Proof.
  intros so mon.
  assert (Hb : match Monitored.timeStepper (B := Example.backend) 9 so 5%nat
                       0 1 (1 # 4) 0 1 true mon with
               | Return (s, _) => ts_solved s = [1 # 4; 1 # 2; 3 # 4; 1]
                                  /\ ts_w_ s = 625 # 256
               | _ => False
               end) by (vm_compute; split; reflexivity).
  destruct (Monitored.timeStepper (B := Example.backend) 9 so 5%nat
              0 1 (1 # 4) 0 1 true mon) as [[s mon']| |] eqn:Hrun;
    try contradiction.
  destruct Hb as (Hs & Hw).
  destruct (Save_schedule (B := Example.backend) 9 so 5%nat
              0 1 (1 # 4) 0 1 true mon mon' s Hrun) as (Hsaved & _).
  rewrite Hs in Hsaved.
  exists s, mon'. split; [reflexivity|]. split; [exact Hw|].
  rewrite Hsaved. vm_compute. reflexivity.
Defined.

(** X28.  Whatever the arithmetic, a [compute_dual] that returns, returns
    what [compute_dual] without the monitor returns.  It first sets
    [_timestep] to [0]; on a time-dependent problem it then calls [update]
    once per dual state, with the times [T, T - k, T - k - k, ...], so that
    [_t] receives these times after those of the primal solve, [_timestep]
    ends as the number of dual states, and [Save] writes the dual states due
    into the dual files; on a steady problem it calls no [update]. *)
Theorem compute_dual_updates {F : Type} `{PyFloat F} {B : Backend F}
        (so : Monitored.save_options) (o : options F) (mesh : Mesh)
        (T k : F) (w : Fn) (mon mon' : Monitored.monitor)
        (phi wtape : list Fn) :
  Monitored.compute_dual so o mesh T k w mon = Return (phi, wtape, mon') ->
  (phi, wtape) = compute_dual o mesh T k w
  /\ if steady_state o
     then mon' = Monitored.reset_timestep mon
     else Monitored._t mon'
          = Monitored._t mon
            ++ map Some (Monitored.countdown T k (length phi))
          /\ Monitored._timestep mon' = Z.of_nat (length phi)
          /\ Monitored.saved mon'
             = Monitored.saved mon ++ Monitored.scheduled so T true 0 phi.
Proof.
  unfold Monitored.compute_dual.
  destruct (fold_left _ _ _) as [[s mon1]| |] eqn:Hfold; cbn [bind];
    try discriminate.
  intros [= <- <- <-].
  apply monitored_dual_fold_trace in Hfold. destruct Hfold as (Hs & Hmon).
  cbv zeta in Hmon.
  destruct (dual_sweep_phi o mesh k (compute_adjoint mesh w)
              {| dual_timestep := None; dual_iteration := 0%Z;
                 dual_wtape := []; dual_phi := []; dual_t := T;
                 dual_pairs := [] |}) as (Hphi & _).
  cbn [dual_phi app] in Hphi. rewrite <- Hs in Hphi.
  split.
  - unfold compute_dual, dual_walk. now rewrite <- Hs.
  - rewrite Hphi. destruct (steady_state o); [exact Hmon|].
    cbn [dual_t Monitored.reset_timestep Monitored._t Monitored._timestep
         Monitored.saved] in Hmon.
    destruct Hmon as (Ht & Hts & Hsv). repeat split; assumption.
Qed.

Lemma compute_dual_updates_witness :
  let so := {| Monitored.saveSolution := true; Monitored.saveFrequency := 1 |} in
  let mon := {| Monitored._t := [Some 0; Some 1]; Monitored._timestep := 7;
                Monitored.saved := [] |} in
  exists phi wtape mon',
    Monitored.compute_dual (B := Example.backend) so Example.opts_exact 5%nat
                           1 (1 # 4) 2 mon = Return (phi, wtape, mon')
    /\ phi = [2; 2; 2; 2]
    /\ Monitored._t mon'
       = [Some 0; Some 1; Some 1; Some (3 # 4); Some (1 # 2); Some (1 # 4)]
    /\ Monitored._timestep mon' = 4%Z.
Proof.
  intros so mon.
  assert (Hb : match Monitored.compute_dual (B := Example.backend) so
                       Example.opts_exact 5%nat 1 (1 # 4) 2 mon with
               | Return (phi, _, _) => phi = [2; 2; 2; 2]
               | _ => False
               end) by (vm_compute; reflexivity).
  destruct (Monitored.compute_dual (B := Example.backend) so
              Example.opts_exact 5%nat 1 (1 # 4) 2 mon)
    as [[[phi wtape] mon']| |] eqn:Hrun; try contradiction.
  destruct (compute_dual_updates (B := Example.backend) so Example.opts_exact
              5%nat 1 (1 # 4) 2 mon mon' phi wtape Hrun) as (_ & Hmon).
  cbn [steady_state Example.opts_exact] in Hmon.
  destruct Hmon as (Ht & Hts & _). rewrite Hb in Ht, Hts.
  exists phi, wtape, mon'. split; [reflexivity|]. split; [exact Hb|].
  split; [rewrite Ht; vm_compute; reflexivity | exact Hts].
Defined.

(** ** The solves with and without [update] *)

Section Erasure.

Context {F : Type} `{PyFloat F} {B : Backend F}.
Variables (fuel : nat) (so : Monitored.save_options) (o : options F)
          (t0 T : F).
Hypothesis Hperc : forall x, returned (truediv x T) = true.

Lemma monitored_forward_solve_erase (mesh : Mesh) (k : F) (func : bool)
      (mon : Monitored.monitor) :
  bind (Monitored.forward_solve fuel so o mesh t0 T k func mon)
       (fun r => Return (fst r))
  = forward_solve fuel o mesh t0 T k func.
Proof.
  unfold Monitored.forward_solve, forward_solve.
  destruct (steady_state o); cbn [negb].
  - unfold Monitored.steady_solve.
    destruct (steady_solve mesh func) as [w m].
    destruct (update_returns so T None w false mon Hperc) as (mon1 & ->).
    reflexivity.
  - unfold Monitored.timeStepper, timeStepper.
    destruct (update_returns so T (Some t0) (initial_conditions mesh) false
                mon Hperc) as (mon1 & ->).
    cbn [bind].
    match goal with
    | |- context [Monitored.time_loop fuel so mesh T k ?s0 mon1] =>
        pose proof (monitored_time_loop_erase so T mesh k fuel Hperc s0 mon1)
          as Herase;
        destruct (Monitored.time_loop fuel so mesh T k s0 mon1)
          as [[s mon2]| |]
    end; cbn [bind fst] in *; rewrite <- Herase; reflexivity.
Qed.

Lemma monitored_adaptive_solve_erase (mesh : Mesh) (k : F)
      (mon : Monitored.monitor) :
  bind (Monitored.adaptive_solve fuel so o mesh t0 T k mon)
       (fun r => Return (fst r))
  = adaptive_solve fuel o mesh t0 T k.
Proof.
  unfold Monitored.adaptive_solve, adaptive_solve.
  destruct (adaptive_solve_checkpointing o t0 T k); cbn [bind];
    try reflexivity.
  pose proof (monitored_forward_solve_erase mesh k true
                (Monitored.reset_timestep mon)) as Hfwd.
  destruct (Monitored.forward_solve fuel so o mesh t0 T k true
              (Monitored.reset_timestep mon)) as [[[w m] mon1]| |];
    cbn [bind fst] in Hfwd; rewrite <- Hfwd; cbn [bind]; try reflexivity.
  unfold Monitored.compute_dual, compute_dual, dual_walk.
  match goal with
  | |- context [fold_left (Monitored.dual_body so o mesh T k) ?es
                          (Return (?s0, ?m0))] =>
      pose proof (monitored_dual_fold_erase so o mesh T k es Hperc s0 m0)
        as Herase;
      destruct (fold_left (Monitored.dual_body so o mesh T k) es
                          (Return (s0, m0))) as [[s mon2]| |]
  end; cbn [bind fst] in Herase; try discriminate.
  injection Herase as <-. cbn [bind].
  destruct (steady_state o).
  - destruct (getitem (dual_phi s) 0) as [phi0| |]; cbn [bind];
      try reflexivity.
    destruct (update_returns so T None phi0 true mon2 Hperc) as (mon3 & ->).
    cbn [bind].
    destruct (build_error_indicators o mesh k (dual_phi s) (dual_wtape s));
      reflexivity.
  - cbn [bind].
    destruct (build_error_indicators o mesh k (dual_phi s) (dual_wtape s));
      reflexivity.
Qed.

Lemma monitored_adaptivity_body_erase (s : adaptation)
      (mon : Monitored.monitor) :
  bind (Monitored.adaptivity_body fuel so o t0 T s mon)
       (fun r => Return (fst r))
  = adaptivity_body fuel o t0 T s.
Proof.
  unfold Monitored.adaptivity_body, adaptivity_body. cbv zeta.
  destruct (which_mesh (ad_i s)) as [name| |]; cbn [bind];
    try reflexivity.
  pose proof (monitored_adaptive_solve_erase (ad_mesh s) (ad_k s)
                (Monitored.write_if_saving so
                   (Monitored.ToMeshFile (ad_mesh s)) mon)) as Hsolve.
  destruct (Monitored.adaptive_solve fuel so o (ad_mesh s) t0 T (ad_k s) _)
    as [[[[w m] ei] mon1]| |];
    cbn [bind fst] in Hsolve; rewrite <- Hsolve; cbn [bind];
    try reflexivity.
  destruct (adaptive_refine o (ad_mesh s) ei) as [mesh| |]; cbn [bind];
    try reflexivity.
  match goal with
  | |- bind (bind ?c _) _ = bind ?c _ => destruct c as [k'| |]
  end; reflexivity.
Qed.

Lemma monitored_adaptivity_loop_erase (iters : nat) :
  forall (s : adaptation) (mon : Monitored.monitor),
    bind (Monitored.adaptivity_loop iters fuel so o t0 T s mon)
         (fun r => Return (fst r))
    = adaptivity_loop iters fuel o t0 T s.
Proof.
  induction iters as [|iters IH]; intros s mon; [reflexivity|].
  cbn [Monitored.adaptivity_loop adaptivity_loop].
  destruct ((ad_i s <=? maxAdapts o)%Z && fgt (ad_COND s) (adaptTOL o))%bool;
    [|reflexivity].
  pose proof (monitored_adaptivity_body_erase s mon) as Hbody.
  destruct (Monitored.adaptivity_body fuel so o t0 T s mon)
    as [[s1 mon1]| |]; cbn [bind fst] in Hbody; rewrite <- Hbody;
    cbn [bind]; [apply IH | reflexivity | reflexivity].
Qed.

Lemma monitored_adaptivity_erase (iters : nat) (mesh : Mesh) (k : F)
      (mon : Monitored.monitor) :
  bind (Monitored.adaptivity iters fuel so o mesh T t0 k mon)
       (fun r => Return (fst r))
  = adaptivity iters fuel o mesh T t0 k.
Proof.
  unfold Monitored.adaptivity, adaptivity.
  pose proof (monitored_adaptivity_loop_erase iters (adaptivity_init mesh k)
                mon) as Hloop.
  destruct (Monitored.adaptivity_loop iters fuel so o t0 T
              (adaptivity_init mesh k) mon) as [[s mon1]| |];
    cbn [bind fst] in Hloop; rewrite <- Hloop; cbn [bind];
    try reflexivity.
  destruct ((maxAdapts o <? ad_i s)%Z && fgt (ad_COND s) (adaptTOL o))%bool;
    reflexivity.
Qed.

End Erasure.

(** X29.  Whatever the arithmetic: when the progress percentage
    [100 * t / problem.T] can be computed for every time, the calls of
    [update] and the writes change nothing in what the solver returns or
    raises: without the monitor, [forward_solve], [adaptive_solve],
    [adaptivity] and [solve] with these calls are the same methods without
    them, in the time-dependent and in the steady case. *)
Theorem update_leaves_the_solves_alone {F : Type} `{PyFloat F}
        {B : Backend F} (iters fuel : nat) (so : Monitored.save_options)
        (o : options F) (adaptive adjointer func : bool) (mesh : Mesh)
        (t0 T k : F) (mon : Monitored.monitor) :
  (forall x, returned (truediv x T) = true) ->
  bind (Monitored.forward_solve fuel so o mesh t0 T k func mon)
       (fun r => Return (fst r))
  = forward_solve fuel o mesh t0 T k func
  /\ bind (Monitored.adaptive_solve fuel so o mesh t0 T k mon)
          (fun r => Return (fst r))
     = adaptive_solve fuel o mesh t0 T k
  /\ bind (Monitored.adaptivity iters fuel so o mesh T t0 k mon)
          (fun r => Return (fst r))
     = adaptivity iters fuel o mesh T t0 k
  /\ bind (Monitored.solve iters fuel so o adaptive adjointer func mesh
                           t0 T k mon)
          (fun r => Return (fst r))
     = solve iters fuel o adaptive adjointer func mesh t0 T k.
Proof.
  intro Hperc.
  split; [now apply monitored_forward_solve_erase|].
  split; [now apply monitored_adaptive_solve_erase|].
  split; [now apply monitored_adaptivity_erase|].
  unfold Monitored.solve, solve.
  destruct (if negb (steady_state o) then adjust_dt t0 T k else Return k)
    as [k1| |]; cbn [bind]; try reflexivity.
  destruct (adaptive && adjointer)%bool.
  - pose proof (monitored_adaptivity_erase fuel so o t0 T Hperc iters mesh k1
                  mon) as Had.
    destruct (Monitored.adaptivity iters fuel so o mesh T t0 k1 mon)
      as [[s mon1]| |]; cbn [bind fst] in Had; rewrite <- Had; cbn [bind];
      try reflexivity.
    cbn [fst snd].
    pose proof (monitored_forward_solve_erase fuel so o t0 T Hperc
                  (ad_mesh s) (ad_k s) func mon1) as Hfwd.
    destruct (Monitored.forward_solve fuel so o (ad_mesh s) t0 T (ad_k s)
                func mon1) as [[[w m] mon2]| |];
      cbn [bind fst] in Hfwd; rewrite <- Hfwd; reflexivity.
  - cbn [bind fst snd].
    pose proof (monitored_forward_solve_erase fuel so o t0 T Hperc
                  mesh k1 func mon) as Hfwd.
    destruct (Monitored.forward_solve fuel so o mesh t0 T k1 func mon)
      as [[[w m] mon2]| |];
      cbn [bind fst] in Hfwd; rewrite <- Hfwd; reflexivity.
Qed.

Lemma update_leaves_the_solves_alone_witness :
  let so := {| Monitored.saveSolution := true; Monitored.saveFrequency := 2 |} in
  let mon := {| Monitored._t := []; Monitored._timestep := 0;
                Monitored.saved := [] |} in
  (forall x : Q, returned (truediv x 1) = true)
  /\ bind (Monitored.solve (B := Example.backend) 6 9 so Example.opts_exact
                           true true true 5%nat 0 1 (1 # 4) mon)
          (fun r => Return (fst r))
     = solve (B := Example.backend) 6 9 Example.opts_exact true true true
             5%nat 0 1 (1 # 4).
Proof.
  intros so mon.
  assert (H1 : forall x : Q, returned (truediv x 1) = true)
    by (intro x; reflexivity).
  split; [exact H1|].
  exact (proj2 (proj2 (proj2
           (update_leaves_the_solves_alone (B := Example.backend) 6 9 so
              Example.opts_exact true true true 5%nat 0 1 (1 # 4) mon H1)))).
Defined.

Lemma times_length {F : Type} `{PyFloat F} (k : F) (n : nat) :
  forall t, length (times t k n) = n.
Proof.
  induction n as [|n IH]; intro t; [reflexivity|].
  cbn [times length]. now rewrite IH.
Qed.

(** X30.  [solve] in exact arithmetic, on a time-dependent problem and
    without adaptivity: for every [T > t0], [T] not zero, and every
    [problem.k > 0] it returns; it has stepped with the step [k'] of
    [adjust_dt] through the times [t0 + k', (t0 + k') + k', ...], [n] of
    them, the last one within [DOLFIN_EPS] of [T]; it returns the state
    solved last; [update] was called [n + 1] times and has stored these
    times after [t0].  On binary64, [t0 = 0], [T = 1.0] and [k = 0.3] on
    the test problem: four steps of [0.25], ending at [1.0]. *)
Theorem solve_reaches_end_time {B : Backend Q} (iters : nat)
        (so : Monitored.save_options) (o : options Q)
        (adaptive adjointer func : bool) (mesh : Mesh) (t0 T k0 : Q)
        (mon : Monitored.monitor) :
  steady_state o = false -> (adaptive && adjointer)%bool = false ->
  t0 < T -> 0 < k0 -> ~ T == 0 ->
  (exists k' n w mon',
    adjust_dt t0 T k0 = Return k'
    /\ (forall fuel, (n < fuel)%nat ->
                     Monitored.solve iters fuel so o adaptive adjointer func
                                     mesh t0 T k0 mon = Return (w, mon'))
    /\ w = last (states mesh k' (initial_conditions mesh) (times t0 k' n))
                (zero_function mesh)
    /\ Monitored._t mon'
       = Monitored._t mon ++ Some t0 :: map Some (times t0 k' n)
    /\ Monitored._timestep mon'
       = (Monitored._timestep mon + Z.of_nat n + 1)%Z
    /\ Qabs (last (times t0 k' n) t0 - T) <= DOLFIN_EPS)
  /\ bind (Monitored.solve (B := Example.backend) 0 9
             {| Monitored.saveSolution := false; Monitored.saveFrequency := 1 |}
             Example.opts_binary64 false true true 5%nat
             0%float 1%float 0.3%float
             {| Monitored._t := []; Monitored._timestep := 0;
                Monitored.saved := [] |})
          (fun r => Return (fst r, Monitored._t (snd r),
                            Monitored._timestep (snd r)))
     = Return (2.44140625%float,
               [Some 0; Some 0.25; Some 0.5; Some 0.75; Some 1]%float,
               5%Z).
Proof.
  intros Hsteady Hadapt HT Hk HT0.
  split; [|vm_compute; reflexivity].
  pose proof (percentage_exact T HT0) as Hperc.
  destruct (adjusted_run_exact mesh t0 T k0 HT Hk)
    as (k' & n & Hadj & Hk' & Hrun).
  set (s0 := {| ts_t := t0; ts_w := zero_function mesh;
                ts_w_ := initial_conditions mesh;
                ts_m := if func
                        then Some (fmul k' (functional mesh
                                              (initial_conditions mesh)))
                        else None;
                ts_solved := [] |}).
  destruct (Hrun s0 (Qeq_refl t0)) as (s & Hloop & Hlen & Ht & Habs).
  cbn [s0 ts_solved length Nat.add] in Hlen.
  (* the shape of the plain run *)
  destruct (time_loop_trace mesh T k' (S n) s0 s (Hloop (S n) (Nat.lt_succ_diag_r n)))
    as (n' & Hsolved & Htlast & _ & Hwlast & _).
  cbn [s0 ts_t ts_w ts_w_ ts_solved app] in Hsolved, Htlast, Hwlast.
  assert (Hn' : n' = n) by (now rewrite Hsolved, times_length in Hlen).
  subst n'.
  exists k', n, (ts_w s),
    {| Monitored._t := Monitored._t mon ++ Some t0 :: map Some (ts_solved s);
       Monitored._timestep := (Monitored._timestep mon + Z.of_nat n + 1)%Z;
       Monitored.saved :=
         Monitored.saved mon
         ++ Monitored.scheduled so T false (Monitored._timestep mon)
              (initial_conditions mesh
               :: states mesh k' (initial_conditions mesh) (ts_solved s)) |}.
  split; [exact Hadj|].
  split; [|cbn [Monitored._t Monitored._timestep]; rewrite Hsolved;
           repeat split; [exact Hwlast | now rewrite <- Htlast]].
  intros fuel Hfuel.
  unfold Monitored.solve. rewrite Hsteady, Hadapt. cbn [negb].
  rewrite Hadj. cbn [bind].
  unfold Monitored.forward_solve. rewrite Hsteady. cbn [negb].
  pose proof (monitored_forward_solve_erase fuel so o t0 T Hperc mesh k' func
                mon) as Herase.
  unfold Monitored.forward_solve, forward_solve in Herase.
  rewrite Hsteady in Herase. cbn [negb] in Herase.
  unfold timeStepper in Herase. fold s0 in Herase.
  rewrite (Hloop fuel Hfuel) in Herase. cbn [bind] in Herase.
  destruct (Monitored.timeStepper fuel so mesh t0 T k' (zero_function mesh)
              (initial_conditions mesh) func mon) as [[s' mon2]| |] eqn:Hmon;
    cbn [bind fst] in Herase; try discriminate.
  apply monitored_timeStepper_trace in Hmon.
  destruct Hmon as (Hplain & Ht2 & Hts2 & Hsv2).
  unfold timeStepper in Hplain. fold s0 in Hplain.
  rewrite (Hloop fuel Hfuel) in Hplain. injection Hplain as <-.
  cbn [bind]. do 2 f_equal.
  destruct mon2 as [t2 ts2 sv2].
  cbn [Monitored._t Monitored._timestep Monitored.saved] in Ht2, Hts2, Hsv2.
  rewrite Ht2, Hts2, Hsv2, Hlen. reflexivity.
Qed.

Lemma solve_reaches_end_time_witness :
  let so := {| Monitored.saveSolution := false; Monitored.saveFrequency := 1 |} in
  let mon := {| Monitored._t := []; Monitored._timestep := 0;
                Monitored.saved := [] |} in
  steady_state Example.opts_exact = false /\ (false && true)%bool = false
  /\ 0 < 1 /\ 0 < 3 # 10 /\ ~ 1 == 0
  /\ exists k' n w mon',
       adjust_dt 0 1 (3 # 10) = Return k'
       /\ (forall fuel, (n < fuel)%nat ->
                        Monitored.solve (B := Example.backend) 0 fuel so
                          Example.opts_exact false true true 5%nat 0 1
                          (3 # 10) mon = Return (w, mon'))
       /\ Monitored._timestep mon' = (0 + Z.of_nat n + 1)%Z
       /\ Qabs (last (times 0 k' n) 0 - 1) <= DOLFIN_EPS.
Proof.
  intros so mon.
  assert (H1 : steady_state Example.opts_exact = false) by reflexivity.
  assert (H2 : (false && true)%bool = false) by reflexivity.
  assert (H3 : 0 < 1) by reflexivity.
  assert (H4 : 0 < 3 # 10) by reflexivity.
  assert (H5 : ~ 1 == 0) by discriminate.
  repeat (split; [assumption|]).
  destruct (proj1 (solve_reaches_end_time (B := Example.backend) 0 so
                     Example.opts_exact false true true 5%nat 0 1 (3 # 10)
                     mon H1 H2 H3 H4 H5))
    as (k' & n & w & mon' & Hk' & Hrun & _ & _ & Hts & Habs).
  exists k', n, w, mon'. repeat split; assumption.
Defined.
